(** * DocxParser: track-change extraction from .docx files

    A shallow embedding of [src/services/docxParser.ts] (the xml2js based
    parser) and of the structured extractor of its DOM based variant,
    together with the properties of the extraction engine.  The embedding
    comes first, then the vocabulary of the properties and the sample
    documents, then the lemmas and theorems.

    JavaScript strings are modelled as lists of code units ([list ascii]:
    the development covers code units below 256).  The external
    collaborators (mammoth, JSZip, the XML parsers, the wall clock,
    [Math.random], [Date] parsing) are fields of an environment record;
    the effects of the code (exceptions, the mutable change array, clock
    reads, random draws, repeated conversions) are threaded through a
    state and exception monad.

    The development also covers the comment extractor and the
    orchestrator of the DOM based variant, and the review page that calls
    the parser ([pages/Index.tsx] with [DocumentUpload], [RedlinePanel]
    and [DocumentViewer]): its handlers run on the state variables of the
    components and on the state of the parser. *)

From Stdlib Require Import Ascii String DecimalString DecimalNat.
From Stdlib Require Import List Arith ZArith Lia Bool.
From Equations.Prop Require Import Equations Logic.
Import ListNotations.

Set Implicit Arguments.

(** ** JavaScript strings *)

Definition jsstring := list ascii.

Definition lit (s : string) : jsstring := list_ascii_of_string s.

Definition jsstring_eqb (a b : jsstring) : bool :=
  if list_eq_dec ascii_dec a b then true else false.

(** [.] of a regular expression without the [s] flag matches everything but
    a line terminator. *)
Definition is_line_terminator (c : ascii) : bool :=
  (nat_of_ascii c =? 10) || (nat_of_ascii c =? 13).

(** White space as [\s] and [String.prototype.trim] see it: TAB, LF, VT, FF,
    CR, SPACE and NBSP. *)
Definition is_space (c : ascii) : bool :=
  let n := nat_of_ascii c in
  ((9 <=? n) && (n <=? 13)) || (n =? 32) || (n =? 160).

Definition space : ascii := ascii_of_nat 32.

Fixpoint trimStart (s : jsstring) : jsstring :=
  match s with
  | c :: s' => if is_space c then trimStart s' else s
  | [] => []
  end.

Definition trimEnd (s : jsstring) : jsstring := rev (trimStart (rev s)).

Definition trim (s : jsstring) : jsstring := trimEnd (trimStart s).

(** [l] is a prefix of [s]: what is left of [s] behind it. *)
Fixpoint strip_prefix (l s : jsstring) : option jsstring :=
  match l, s with
  | [], _ => Some s
  | a :: l', b :: s' => if Ascii.eqb a b then strip_prefix l' s' else None
  | _ :: _, [] => None
  end.

(** [String.prototype.includes]. *)
Fixpoint includes (s sub : jsstring) : bool :=
  match strip_prefix sub s with
  | Some _ => true
  | None => match s with
            | [] => false
            | _ :: s' => includes s' sub
            end
  end.

Definition string_of_nat (n : nat) : jsstring :=
  lit (NilZero.string_of_uint (Nat.to_uint n)).

Definition string_of_Z (z : Z) : jsstring :=
  lit (NilZero.string_of_int (Z.to_int z)).

(** ** Regular expressions of the fallback extractor

    The three patterns are sequences of literal text and of the lazy capture
    group [(.+?)]. *)

Inductive token :=
| Lit (l : jsstring)
| Group.

Definition regex := list token.

Definition addedPattern : regex :=
  [Lit (lit "[Added: "); Group; Lit (lit "]")].
Definition deletedPattern : regex :=
  [Lit (lit "[Deleted: "); Group; Lit (lit "]")].
Definition modifiedPattern : regex :=
  [Lit (lit "[Modified: "); Group; Lit (lit " -> "); Group; Lit (lit "]")].

(** The lazy group: take one more character (never a line terminator) and
    try the rest of the pattern; the first length at which the rest matches
    wins. [k] is the matcher of the rest of the pattern. *)
Fixpoint lazy_group (k : jsstring -> option (list jsstring * nat))
         (s taken : jsstring) : option (list jsstring * nat) :=
  match s with
  | [] => None
  | c :: s' =>
      if is_line_terminator c then None
      else
        match k s' with
        | Some (gs, n) => Some ((taken ++ [c]) :: gs, S (length taken) + n)
        | None => lazy_group k s' (taken ++ [c])
        end
  end.

(** Match the pattern at the head of [s]: the captures and the number of
    code units consumed. *)
Fixpoint match_here (re : regex) (s : jsstring) : option (list jsstring * nat) :=
  match re with
  | [] => Some ([], 0)
  | Lit l :: re' =>
      match strip_prefix l s with
      | Some rest =>
          match match_here re' rest with
          | Some (gs, n) => Some (gs, length l + n)
          | None => None
          end
      | None => None
      end
  | Group :: re' => lazy_group (match_here re') s []
  end.

(** The array [RegExp.prototype.exec] returns: [match.index], [match[0]] and
    the captures [match[1]], [match[2]], ... *)
Record Match := {
  index : nat;
  whole : jsstring;
  groups : list jsstring
}.

Fixpoint search (re : regex) (s : jsstring) (pos : nat) : option Match :=
  match match_here re s with
  | Some (gs, n) => Some {| index := pos; whole := firstn n s; groups := gs |}
  | None =>
      match s with
      | [] => None
      | _ :: s' => search re s' (S pos)
      end
  end.

(** [re.exec(content)] of a global regular expression whose [lastIndex] is
    [lastIndex]: the leftmost match at or behind it.  On a match the
    expression's [lastIndex] becomes [lastIndex_after]. *)
Definition exec (re : regex) (content : jsstring) (lastIndex : nat) : option Match :=
  if length content <? lastIndex then None
  else search re (skipn lastIndex content) lastIndex.

Definition lastIndex_after (m : Match) : nat := index m + length (whole m).

Lemma match_here_bound re : forall s gs n,
  match_here re s = Some (gs, n) -> n <= length s.
Proof.
  induction re as [|t re IH]; intros s gs n H; simpl in H.
  - injection H as _ <-. lia.
  - destruct t as [l|].
    + destruct (strip_prefix l s) as [rest|] eqn:E; [|discriminate].
      destruct (match_here re rest) as [[gs' n']|] eqn:E'; [|discriminate].
      injection H as _ <-. apply IH in E'.
      assert (length s = length l + length rest).
      { clear -E. revert s E. induction l as [|a l IHl]; intros [|b s] E; simpl in *;
          try discriminate; try (injection E as <-; reflexivity).
        destruct (Ascii.eqb a b); [|discriminate]. rewrite (IHl _ E). reflexivity. }
      lia.
    + assert (G : forall s taken gs n,
                 lazy_group (match_here re) s taken = Some (gs, n) ->
                 n <= length taken + length s).
      { clear -IH. induction s as [|c s IHs]; intros taken gs n H; simpl in H; [discriminate|].
        destruct (is_line_terminator c); [discriminate|].
        destruct (match_here re s) as [[gs' n']|] eqn:E.
        - injection H as _ <-. apply IH in E. simpl. lia.
        - apply IHs in H. rewrite length_app in H. simpl in *. lia. }
      apply G in H. simpl in H. lia.
Qed.

Lemma search_bound re : forall s pos m,
  search re s pos = Some m ->
  pos <= index m /\ index m + length (whole m) <= pos + length s.
Proof.
  induction s as [|c s IH]; intros pos m H; simpl in H.
  - destruct (match_here re []) as [[gs n]|] eqn:E; [|discriminate].
    injection H as <-. simpl. rewrite firstn_nil. simpl. lia.
  - destruct (match_here re (c :: s)) as [[gs n]|] eqn:E.
    + injection H as <-. simpl index. simpl whole.
      apply match_here_bound in E. rewrite length_firstn. simpl in *. lia.
    + apply IH in H. simpl. lia.
Qed.

Lemma exec_bound re content i m :
  exec re content i = Some m ->
  i <= index m /\ lastIndex_after m <= length content.
Proof.
  unfold exec, lastIndex_after. destruct (length content <? i) eqn:E; [discriminate|].
  apply Nat.ltb_ge in E. intros H. apply search_bound in H.
  rewrite length_skipn in H. lia.
Qed.

(** The successive results of [re.exec(content)] in
    [while ((match = re.exec(content)) !== null) { ... }], starting with
    [lastIndex]; the loop ends at the first [null].  A match of length zero
    would leave [lastIndex] where it is (the source loop would then spin for
    ever); none of the three patterns has one, see [exec_progress]. *)
Equations? exec_all (re : regex) (content : jsstring) (lastIndex : nat) : list Match
  by wf (length content - lastIndex) lt :=
exec_all re content lastIndex with inspect (exec re content lastIndex) := {
  | exist _ None _ => [];
  | exist _ (Some m) E with lt_dec lastIndex (lastIndex_after m) => {
      | left _ => m :: exec_all re content (lastIndex_after m);
      | right _ => [] } }.
Proof.
  apply exec_bound in E. lia.
Qed.

(** ** Plain text of the converted document *)

Definition lt_sign : ascii := ascii_of_nat 60.
Definition gt_sign : ascii := ascii_of_nat 62.

(** [.replace(/<[^>]*>/g, ' ')]: a [<] opens a tag when a [>] follows
    somewhere behind it; the tag runs up to the first such [>] and becomes
    one space.  [in_tag] says that the scan is inside a tag. *)
Fixpoint replace_tags (in_tag : bool) (s : jsstring) : jsstring :=
  match s with
  | [] => []
  | c :: s' =>
      if in_tag then
        if Ascii.eqb c gt_sign then replace_tags false s' else replace_tags true s'
      else if Ascii.eqb c lt_sign && existsb (Ascii.eqb gt_sign) s' then
        space :: replace_tags true s'
      else c :: replace_tags false s'
  end.

(** [.replace(/\s+/g, ' ')]: every maximal run of white space becomes one
    space.  [in_run] says that the previous code unit was white space. *)
Fixpoint collapse_spaces (in_run : bool) (s : jsstring) : jsstring :=
  match s with
  | [] => []
  | c :: s' =>
      if is_space c then
        if in_run then collapse_spaces true s' else space :: collapse_spaces true s'
      else c :: collapse_spaces false s'
  end.

(** [htmlContent.replace(/<[^>]*>/g, ' ').replace(/\s+/g, ' ').trim()] *)
Definition html_to_text (htmlContent : jsstring) : jsstring :=
  trim (collapse_spaces false (replace_tags false htmlContent)).

(** [s.split(/\s+/)]: the pieces between the maximal runs of white space; a
    run at either end leaves an empty piece there, and the empty string
    splits into one empty piece.  [cur] is the piece being read. *)
Fixpoint split_spaces (in_run : bool) (cur s : jsstring) : list jsstring :=
  match s with
  | [] => [cur]
  | c :: s' =>
      if is_space c then
        if in_run then split_spaces true [] s' else cur :: split_spaces true [] s'
      else split_spaces false (cur ++ [c]) s'
  end.

Definition split (s : jsstring) : list jsstring := split_spaces false [] s.

(** ** Data model ([types/redline.ts]) *)

Inductive ChangeType := Added | Deleted | Modified | Comment.

(** A [Date] object: its time value in milliseconds, or the [NaN] time
    value of an invalid date. *)
Inductive Date :=
| TimeValue (ms : Z)
| InvalidDate.

Record Location := {
  start : nat;
  end_ : nat;
  paragraph : option nat
}.

Record RedlineChange := {
  id : jsstring;
  type : ChangeType;
  text : jsstring;
  originalText : option jsstring;
  author : jsstring;
  timestamp : Date;
  location : Location;
  comment : option jsstring;
  suggestions : option (list jsstring);
  resolved : option bool
}.

Record DocumentMetadata := {
  filename : jsstring;
  uploadedAt : Date;
  lastModified : Date;
  wordCount : nat;
  changeCount : nat;
  authors : list jsstring
}.

(** What [parseDocument] resolves with. *)
Record ParseResult := {
  content : jsstring;
  changes : list RedlineChange;
  metadata : DocumentMetadata
}.

(** ** Values built by xml2js: strings, arrays and plain objects (their
    properties in enumeration order). *)

Unset Elimination Schemes.
Inductive JsValue :=
| JString (s : jsstring)
| JArray (items : list JsValue)
| JObject (props : list (jsstring * JsValue)).
Set Elimination Schemes.

(** [obj[key]] for a key that is neither an array index nor a built-in
    property ([undefined] is [None]). *)
Fixpoint lookup (props : list (jsstring * JsValue)) (key : jsstring) : option JsValue :=
  match props with
  | [] => None
  | (k, v) :: props' => if jsstring_eqb k key then Some v else lookup props' key
  end.

Definition get (obj : JsValue) (key : jsstring) : option JsValue :=
  match obj with
  | JObject props => lookup props key
  | _ => None
  end.

(** The only falsy value of the three kinds is the empty string. *)
Definition truthy (v : JsValue) : bool :=
  match v with
  | JString [] => false
  | _ => true
  end.

(** [obj[key]] when it is truthy. *)
Definition get_truthy (obj : JsValue) (key : jsstring) : option JsValue :=
  match get obj key with
  | Some v => if truthy v then Some v else None
  | None => None
  end.

(** [Array.isArray(v) ? v : [v]] *)
Definition as_array (v : JsValue) : list JsValue :=
  match v with
  | JArray items => items
  | _ => [v]
  end.

Fixpoint join (sep : jsstring) (l : list jsstring) : jsstring :=
  match l with
  | [] => []
  | [a] => a
  | a :: l' => a ++ sep ++ join sep l'
  end.

(** The string conversion that [+=] and [new Date(v)] apply to a value. *)
Fixpoint to_string (v : JsValue) : jsstring :=
  match v with
  | JString s => s
  | JArray items => join (lit ",") (map to_string items)
  | JObject _ => lit "[object Object]"
  end.

(** ** Environment: the collaborators of the parser *)

(** A thrown or rejected value, by its message. *)
Definition exn := jsstring.

(** An opened archive: [file(name)] is [null] ([None]) or an entry whose
    [async('text')] resolves with the text or rejects. *)
Definition Archive := jsstring -> option (exn + jsstring).

(** What [parseXMLPromise] gets from xml2js. *)
Inductive xml2js_outcome :=
| xml_result (result : JsValue)
| xml_err (err : exn)              (* the parse callback receives [err] *)
| xml_parser_error (error : exn).  (* creating or starting the parser throws *)

Record File := {
  (** [file.name] and [file.lastModified] *)
  name : jsstring;
  file_lastModified : Z;
  (** [mammoth.convertToHtml({ arrayBuffer: await file.arrayBuffer() })]: the
      [value] of the k-th call on this file, or its rejection *)
  convertToHtml : nat -> exn + jsstring;
  (** [new JSZip().loadAsync(file)] *)
  loadAsync : exn + Archive
}.

Record World := {
  (** the reading of the wall clock at its k-th reading, in milliseconds *)
  clock : nat -> Z;
  (** [`${Math.random()}`] at the k-th draw *)
  random : nat -> jsstring;
  (** the time value [new Date(s)] computes from a string ([None]: [NaN]) *)
  Date_parse : jsstring -> option Z;
  (** what the xml2js parser of [parseXMLPromise] makes of an XML text *)
  xml2js : jsstring -> xml2js_outcome
}.

(** ** Effects *)

Inductive event :=
| console_error (msg : jsstring)
| console_warn (msg : jsstring)
| console_info (msg : jsstring)
| console_log (msg : jsstring)
(** ghost event: [parseAlternativeTrackChanges(content)] is entered *)
| fallback_scan (content : jsstring).

Record State := {
  (** the array [changes] of the running [extractTrackChanges] *)
  st_changes : list RedlineChange;
  clock_reads : nat;
  random_draws : nat;
  conversions : nat;
  trace : list event
}.

Definition initial : State :=
  {| st_changes := []; clock_reads := 0; random_draws := 0; conversions := 0; trace := [] |}.

Inductive result (A : Type) :=
| Ok (a : A)
| Throw (e : exn).
Arguments Ok {A} a.
Arguments Throw {A} e.

Definition M (A : Type) := State -> result A * State.

Definition ret {A} (a : A) : M A := fun st => (Ok a, st).

Definition bind {A B} (m : M A) (k : A -> M B) : M B :=
  fun st => match m st with
            | (Ok a, st') => k a st'
            | (Throw e, st') => (Throw e, st')
            end.

Definition throw {A} (e : exn) : M A := fun st => (Throw e, st).

(** [try { body } catch (error) { handler }] *)
Definition try_catch {A} (body : M A) (handler : exn -> M A) : M A :=
  fun st => match body st with
            | (Ok a, st') => (Ok a, st')
            | (Throw e, st') => handler e st'
            end.

(** [await p] of a promise that is settled by the environment *)
Definition await {A} (p : exn + A) : M A :=
  match p with
  | inr a => ret a
  | inl e => throw e
  end.

Declare Scope monad_scope.
Delimit Scope monad_scope with monad.
Notation "x <- m ;; k" := (bind m (fun x => k))
  (at level 61, m at next level, right associativity) : monad_scope.
Notation "m ;; k" := (bind m (fun _ => k))
  (at level 61, right associativity) : monad_scope.
Open Scope monad_scope.

Definition emit (e : event) : M unit :=
  fun st => (Ok tt, {| st_changes := st_changes st; clock_reads := clock_reads st;
                       random_draws := random_draws st; conversions := conversions st;
                       trace := trace st ++ [e] |}).

(** [changes.push(c)] *)
Definition push (c : RedlineChange) : M unit :=
  fun st => (Ok tt, {| st_changes := st_changes st ++ [c]; clock_reads := clock_reads st;
                       random_draws := random_draws st; conversions := conversions st;
                       trace := trace st |}).

(** [const changes: RedlineChange[] = []] *)
Definition new_changes : M unit :=
  fun st => (Ok tt, {| st_changes := []; clock_reads := clock_reads st;
                       random_draws := random_draws st; conversions := conversions st;
                       trace := trace st |}).

Definition get_changes : M (list RedlineChange) := fun st => (Ok (st_changes st), st).

(** [array.forEach(callback)] *)
Definition forEach {A} (l : list A) (callback : A -> M unit) : M unit :=
  (fix each (l : list A) : M unit :=
     match l with
     | [] => ret tt
     | a :: l' => callback a ;; each l'
     end) l.

Definition set_changes (l : list RedlineChange) (st : State) : State :=
  {| st_changes := l; clock_reads := clock_reads st; random_draws := random_draws st;
     conversions := conversions st; trace := trace st |}.

Section Parser.

Variable W : World.

(** [Date.now()] *)
Definition Date_now : M Z :=
  fun st => (Ok (clock W (clock_reads st)),
             {| st_changes := st_changes st; clock_reads := S (clock_reads st);
                random_draws := random_draws st; conversions := conversions st;
                trace := trace st |}).

(** [new Date()] *)
Definition new_Date : M Date := now <- Date_now ;; ret (TimeValue now).

(** [new Date(s)] *)
Definition Date_of_string (s : jsstring) : Date :=
  match Date_parse W s with
  | Some ms => TimeValue ms
  | None => InvalidDate
  end.

(** [`${Math.random()}`] *)
Definition Math_random : M jsstring :=
  fun st => (Ok (random W (random_draws st)),
             {| st_changes := st_changes st; clock_reads := clock_reads st;
                random_draws := S (random_draws st); conversions := conversions st;
                trace := trace st |}).

(** [await mammoth.convertToHtml({ arrayBuffer: await file.arrayBuffer() })] *)
Definition mammoth_convertToHtml (file : File) : M jsstring :=
  fun st => (match convertToHtml file (conversions st) with
             | inr html => Ok html
             | inl e => Throw e
             end,
             {| st_changes := st_changes st; clock_reads := clock_reads st;
                random_draws := random_draws st; conversions := S (conversions st);
                trace := trace st |}).

(** *** Fallback pattern extractor *)

Definition span (m : Match) : Location :=
  {| start := index m; end_ := index m + length (whole m); paragraph := None |}.

(** [match[k]] for a capture the pattern has. *)
Definition capture (k : nat) (m : Match) : jsstring := nth (k - 1) (groups m) [].

Definition alt_added (idx : nat) (m : Match) (now : Date) : RedlineChange :=
  {| id := lit "alt-added-" ++ string_of_nat idx;
     type := Added;
     text := capture 1 m;
     originalText := None;
     author := lit "Document Author";
     timestamp := now;
     location := span m;
     comment := Some (lit "Added content detected");
     suggestions := None;
     resolved := None |}.

Definition alt_deleted (idx : nat) (m : Match) (now : Date) : RedlineChange :=
  {| id := lit "alt-deleted-" ++ string_of_nat idx;
     type := Deleted;
     text := [];
     originalText := Some (capture 1 m);
     author := lit "Document Author";
     timestamp := now;
     location := span m;
     comment := Some (lit "Deleted content detected");
     suggestions := None;
     resolved := None |}.

Definition alt_modified (idx : nat) (m : Match) (now : Date) : RedlineChange :=
  {| id := lit "alt-modified-" ++ string_of_nat idx;
     type := Modified;
     text := capture 2 m;
     originalText := Some (capture 1 m);
     author := lit "Document Author";
     timestamp := now;
     location := span m;
     comment := Some (lit "Modified content detected");
     suggestions := None;
     resolved := None |}.

(** One [while ((match = pattern.exec(content)) !== null) { changes.push(...) }]
    loop over the matches [exec] returns, on the local array [changes] and
    the local counter [index] (its [index++] numbers the ids). *)
Fixpoint push_matches (mk : nat -> Match -> Date -> RedlineChange) (ms : list Match)
         (acc : list RedlineChange * nat) : M (list RedlineChange * nat) :=
  match ms with
  | [] => ret acc
  | m :: ms' =>
      now <- new_Date ;;
      push_matches mk ms' (fst acc ++ [mk (snd acc) m now], S (snd acc))
  end.

Definition parseAlternativeTrackChanges (content : jsstring) : M (list RedlineChange) :=
  emit (fallback_scan content) ;;
  acc <- push_matches alt_added (exec_all addedPattern content 0) ([], 0) ;;
  acc <- push_matches alt_deleted (exec_all deletedPattern content 0) acc ;;
  acc <- push_matches alt_modified (exec_all modifiedPattern content 0) acc ;;
  ret (fst acc).

(** *** Structured extraction over the xml2js tree *)

Definition text_node (node : JsValue) : jsstring :=
  match node with
  | JString s => s
  | _ => match get_truthy node (lit "_") with
         | Some u => to_string u
         | None => []
         end
  end.

(** What [extractTextRecursive] appends to [text]. *)
Fixpoint extractTextRecursive (obj : JsValue) : jsstring :=
  match obj with
  | JString s => s
  | JArray items => concat (map extractTextRecursive items)
  | JObject props =>
      match get_truthy obj (lit "w:t") with
      | Some t => concat (map text_node (as_array t))
      | None => concat (map (fun p => extractTextRecursive (snd p)) props)
      end
  end.

Definition extractTextFromElement (element : JsValue) : jsstring :=
  if truthy element then trim (extractTextRecursive element) else [].

(** [element.$?.[name]] when it is truthy.  xml2js stores attribute values
    as strings; any other value is recorded by its string conversion. *)
Definition attribute (element : JsValue) (attr : jsstring) : option jsstring :=
  match get element (lit "$") with
  | Some bag => option_map to_string (get_truthy bag attr)
  | None => None
  end.

(** [element.$?.['w:author'] || 'Unknown'] *)
Definition author_of (element : JsValue) : jsstring :=
  match attribute element (lit "w:author") with
  | Some a => a
  | None => lit "Unknown"
  end.

(** [element.$?.['w:date'] ? new Date(element.$['w:date']) : new Date()] *)
Definition date_of (element : JsValue) : M Date :=
  match attribute element (lit "w:date") with
  | Some d => ret (Date_of_string d)
  | None => new_Date
  end.

(** The callback of the [w:ins] search. *)
Definition on_insertion (element : JsValue) : M unit :=
  let text := extractTextFromElement element in
  let author := author_of element in
  date <- date_of element ;;
  match text with
  | [] => ret tt
  | _ :: _ =>
      now <- Date_now ;;
      r <- Math_random ;;
      push {| id := lit "ins-" ++ string_of_Z now ++ lit "-" ++ r;
              type := Added;
              text := text;
              originalText := None;
              author := author;
              timestamp := date;
              location := {| start := 0; end_ := length text; paragraph := None |};
              comment := None;
              suggestions := None;
              resolved := None |}
  end.

(** The callback of the [w:del] search. *)
Definition on_deletion (element : JsValue) : M unit :=
  let text := extractTextFromElement element in
  let author := author_of element in
  date <- date_of element ;;
  match text with
  | [] => ret tt
  | _ :: _ =>
      now <- Date_now ;;
      r <- Math_random ;;
      push {| id := lit "del-" ++ string_of_Z now ++ lit "-" ++ r;
              type := Deleted;
              text := [];
              originalText := Some text;
              author := author;
              timestamp := date;
              location := {| start := 0; end_ := length text; paragraph := None |};
              comment := None;
              suggestions := None;
              resolved := None |}
  end.

(** The callback of [commentArray.forEach]. *)
Definition on_comment (c : JsValue) : M unit :=
  let text := extractTextFromElement c in
  let author := author_of c in
  date <- date_of c ;;
  match text with
  | [] => ret tt
  | _ :: _ =>
      now <- Date_now ;;
      r <- Math_random ;;
      push {| id := lit "comment-" ++ string_of_Z now ++ lit "-" ++ r;
              type := Comment;
              text := text;
              originalText := None;
              author := author;
              timestamp := date;
              location := {| start := 0; end_ := 0; paragraph := None |};
              comment := Some text;
              suggestions := None;
              resolved := None |}
  end.

Fixpoint findElementsRecursive (obj : JsValue) (tagName : jsstring)
         (callback : JsValue -> M unit) : M unit :=
  match obj with
  | JString _ => ret tt
  | JArray items =>
      forEach items (fun value => findElementsRecursive value tagName callback)
  | JObject props =>
      match get_truthy obj tagName with
      | Some found => forEach (as_array found) callback
      | None => ret tt
      end ;;
      forEach props (fun p => findElementsRecursive (snd p) tagName callback)
  end.

Definition extractChangesFromXML (xmlObj : JsValue) : M unit :=
  try_catch
    match get_truthy xmlObj (lit "w:document") with
    | None => ret tt
    | Some document =>
        findElementsRecursive document (lit "w:ins") on_insertion ;;
        findElementsRecursive document (lit "w:del") on_deletion
    end
    (fun error => emit (console_warn (lit "Error extracting changes from XML:"))).

Definition extractCommentsFromXML (xmlObj : JsValue) : M unit :=
  try_catch
    match get xmlObj (lit "w:comments") with
    | None => ret tt
    | Some wcomments =>
        match get_truthy wcomments (lit "w:comment") with
        | None => ret tt
        | Some comments => forEach (as_array comments) on_comment
        end
    end
    (fun error => emit (console_warn (lit "Error extracting comments from XML:"))).

(** *** Orchestrator *)

Definition parseXMLPromise (xml : jsstring) : M JsValue :=
  match xml2js W xml with
  | xml_result r => ret r
  | xml_err err => emit (console_error (lit "XML parsing error:")) ;; throw err
  | xml_parser_error error =>
      emit (console_error (lit "Parser creation error:")) ;; throw error
  end.

(** [await docxContents.file(name)?.async('text')] ([undefined] is [None]) *)
Definition entry_text (docxContents : Archive) (entry : jsstring) : M (option jsstring) :=
  match docxContents entry with
  | None => ret None
  | Some p => t <- await p ;; ret (Some t)
  end.

Definition getTextContent (file : File) : M jsstring :=
  try_catch
    (htmlContent <- mammoth_convertToHtml file ;;
     ret (html_to_text htmlContent))
    (fun error =>
       emit (console_warn (lit "Could not extract text content:")) ;;
       ret []).

(** The block of the outer [try] of [extractTrackChanges]: the structured
    path. *)
Definition structured_extraction (file : File) : M unit :=
  docxContents <- await (loadAsync file) ;;
  documentXml <- entry_text docxContents (lit "word/document.xml") ;;
  match documentXml with
  | None | Some [] => throw (lit "Could not find document.xml")
  | Some xml =>
      parsedXml <- parseXMLPromise xml ;;
      extractChangesFromXML parsedXml ;;
      commentsXml <- entry_text docxContents (lit "word/comments.xml") ;;
      match commentsXml with
      | None | Some [] => ret tt
      | Some cxml =>
          parsedComments <- parseXMLPromise cxml ;;
          extractCommentsFromXML parsedComments
      end ;;
      changes <- get_changes ;;
      match changes with
      | [] => emit (console_info (lit "No track changes found in document. Upload a document with track changes enabled."))
      | _ :: _ => ret tt
      end
  end.

(** The inner [try] statement, in the [catch] block of the outer one:
    [Some r] when its [return r] ends the function, [None] when control
    falls through. *)
Definition alternative_extraction (file : File) : M (option (list RedlineChange)) :=
  try_catch
    (textContent <- getTextContent file ;;
     alternativeChanges <- parseAlternativeTrackChanges textContent ;;
     match alternativeChanges with
     | [] => ret None
     | _ :: _ => ret (Some alternativeChanges)
     end)
    (fun altError =>
       emit (console_warn (lit "Alternative parsing also failed:")) ;;
       ret None).

(** The outer [try] statement of [extractTrackChanges]: [Some r] when a
    [return r] inside it ends the function, [None] when control falls through
    to the final [return changes]. *)
Definition extractTrackChanges_try (file : File) : M (option (list RedlineChange)) :=
  try_catch
    (structured_extraction file ;; ret None)
    (fun error =>
       emit (console_error (lit "Could not extract track changes from document:")) ;;
       early <- alternative_extraction file ;;
       match early with
       | Some alternativeChanges => ret (Some alternativeChanges)
       | None => ret (Some [])
       end).

Definition extractTrackChanges (file : File) : M (list RedlineChange) :=
  new_changes ;;
  returned <- extractTrackChanges_try file ;;
  match returned with
  | Some r => ret r
  | None => get_changes
  end.

(** [[...new Set(values)]]: the values in insertion order, each once. *)
Definition Set_add (s : list jsstring) (v : jsstring) : list jsstring :=
  if existsb (jsstring_eqb v) s then s else s ++ [v].

Definition Set_values (values : list jsstring) : list jsstring :=
  fold_left Set_add values [].

Definition parseDocument (file : File) : M ParseResult :=
  try_catch
    (htmlContent <- mammoth_convertToHtml file ;;
     let textContent := html_to_text htmlContent in
     changes <- extractTrackChanges file ;;
     uploaded <- new_Date ;;
     ret {| content := textContent;
            changes := changes;
            metadata := {| filename := name file;
                           uploadedAt := uploaded;
                           lastModified := TimeValue (file_lastModified file);
                           wordCount := length (split textContent);
                           changeCount := length changes;
                           authors := Set_values (map author changes) |} |})
    (fun error =>
       emit (console_error (lit "Error parsing document:")) ;;
       throw (lit "Failed to parse document. Please ensure it's a valid .docx file.")).

End Parser.

(** ** The DOM based variant of the structured extractor

    The variant of the module that parses with the browser's [DOMParser]
    and searches the document with [querySelectorAll]. *)

Module Dom.

Unset Elimination Schemes.
(** A node of a parsed XML document.  An element has a qualified name
    [prefix:localName] (or [localName] alone) and attributes keyed by their
    qualified names. *)
Inductive Node :=
| Element (prefix : option jsstring) (localName : jsstring)
          (attributes : list (jsstring * jsstring)) (childNodes : list Node)
| Text (data : jsstring).
Set Elimination Schemes.

(** [element.tagName] *)
Definition tagName (n : Node) : jsstring :=
  match n with
  | Element (Some p) l _ _ => p ++ lit ":" ++ l
  | Element None l _ _ => l
  | Text _ => []
  end.

Definition localName (n : Node) : jsstring :=
  match n with
  | Element _ l _ _ => l
  | Text _ => []
  end.

(** [element.getAttribute(qualifiedName)] ([null] is [None]) *)
Fixpoint attr_lookup (attrs : list (jsstring * jsstring)) (q : jsstring) : option jsstring :=
  match attrs with
  | [] => None
  | (k, v) :: attrs' => if jsstring_eqb k q then Some v else attr_lookup attrs' q
  end.

Definition getAttribute (n : Node) (q : jsstring) : option jsstring :=
  match n with
  | Element _ _ attrs _ => attr_lookup attrs q
  | Text _ => None
  end.

(** [a || b] on attribute values: [null] and the empty string are falsy. *)
Definition or_else (a b : option jsstring) : option jsstring :=
  match a with
  | Some (_ :: _) => a
  | _ => b
  end.

(** [node.textContent] *)
Fixpoint textContent (n : Node) : jsstring :=
  match n with
  | Text d => d
  | Element _ _ _ children => concat (map textContent children)
  end.

(** The elements of the subtree of [n], [n] first, in document order. *)
Fixpoint elements (n : Node) : list Node :=
  match n with
  | Text _ => []
  | Element _ _ _ children => n :: flat_map elements children
  end.

Definition descendants (n : Node) : list Node :=
  match n with
  | Text _ => []
  | Element _ _ _ children => flat_map elements children
  end.

(** A selector list of type selectors ([ins], [w\:ins]: a type selector
    without a namespace prefix tests the local name of the element, in any
    namespace) or the universal selector. *)
Inductive selector :=
| type_selector (ident : jsstring)
| universal.

Definition matches (sels : list selector) (n : Node) : bool :=
  existsb (fun s => match s with
                    | type_selector i => jsstring_eqb (localName n) i
                    | universal => true
                    end) sels.

(** [xmlDoc.querySelectorAll(sels)] on the document whose root element is
    [doc] *)
Definition document_querySelectorAll (doc : Node) (sels : list selector) : list Node :=
  filter (matches sels) (elements doc).

(** [element.querySelectorAll(sels)]: descendants only *)
Definition querySelectorAll (element : Node) (sels : list selector) : list Node :=
  filter (matches sels) (descendants element).

(** [array.forEach((element, index) => ...)], from the index [i] on *)
Fixpoint forEach_from {A} (i : nat) (l : list A) (callback : A -> nat -> M unit) : M unit :=
  match l with
  | [] => ret tt
  | a :: l' => callback a i ;; forEach_from (S i) l' callback
  end.

Definition forEach_indexed {A} (l : list A) (callback : A -> nat -> M unit) : M unit :=
  forEach_from 0 l callback.

(** [a] when it is truthy *)
Definition truthy_attr (a : option jsstring) : option jsstring :=
  match a with
  | Some (_ :: _) => a
  | _ => None
  end.

Definition text_selectors : list selector :=
  [type_selector (lit "t"); type_selector (lit "w:t");
   type_selector (lit "delText"); type_selector (lit "w:delText")].

Definition extractTextFromElement (element : Node) : jsstring :=
  let text := textContent element in
  let text :=
    fold_left (fun text textEl =>
                 let elementText := textContent textEl in
                 match elementText with
                 | [] => text
                 | _ :: _ => if includes text elementText then text
                             else text ++ lit " " ++ elementText
                 end)
              (querySelectorAll element text_selectors) text in
  trim text.

Section Extractor.

Variable W : World.

(** [dateStr ? new Date(dateStr) : new Date()] *)
Definition date_of (dateStr : option jsstring) : M Date :=
  match dateStr with
  | Some ((_ :: _) as d) => ret (Date_of_string W d)
  | _ => new_Date W
  end.

Definition or_unknown (a : option jsstring) : jsstring :=
  match a with
  | Some ((_ :: _) as s) => s
  | _ => lit "Unknown"
  end.

(** The callback of [insertions.forEach]. *)
Definition on_insertion (element : Node) (idx : nat) : M unit :=
  let text := extractTextFromElement element in
  let author := or_unknown (or_else (getAttribute element (lit "w:author"))
                                    (getAttribute element (lit "author"))) in
  let dateStr := or_else (getAttribute element (lit "w:date"))
                         (getAttribute element (lit "date")) in
  date <- date_of dateStr ;;
  match trim text with
  | [] => ret tt
  | _ :: _ =>
      now <- Date_now W ;;
      push {| id := lit "ins-" ++ string_of_Z now ++ lit "-" ++ string_of_nat idx;
              type := Added;
              text := trim text;
              originalText := None;
              author := author;
              timestamp := date;
              location := {| start := 0; end_ := length text; paragraph := None |};
              comment := None;
              suggestions := None;
              resolved := None |}
  end.

(** The callback of [deletions.forEach]. *)
Definition on_deletion (element : Node) (idx : nat) : M unit :=
  let text := extractTextFromElement element in
  let author := or_unknown (or_else (getAttribute element (lit "w:author"))
                                    (getAttribute element (lit "author"))) in
  let dateStr := or_else (getAttribute element (lit "w:date"))
                         (getAttribute element (lit "date")) in
  date <- date_of dateStr ;;
  match trim text with
  | [] => ret tt
  | _ :: _ =>
      now <- Date_now W ;;
      push {| id := lit "del-" ++ string_of_Z now ++ lit "-" ++ string_of_nat idx;
              type := Deleted;
              text := [];
              originalText := Some (trim text);
              author := author;
              timestamp := date;
              location := {| start := 0; end_ := length text; paragraph := None |};
              comment := None;
              suggestions := None;
              resolved := None |}
  end.

(** The callback of [allElements.forEach]: elements whose tag name contains
    [:ins] or [:del]. *)
Definition on_prefixed (element : Node) (idx : nat) : M unit :=
  if includes (tagName element) (lit ":ins") || includes (tagName element) (lit ":del") then
    let text := extractTextFromElement element in
    let author := or_unknown (getAttribute element (lit "w:author")) in
    let dateStr := getAttribute element (lit "w:date") in
    date <- date_of dateStr ;;
    match trim text with
    | [] => ret tt
    | _ :: _ =>
        let isInsertion := includes (tagName element) (lit ":ins") in
        now <- Date_now W ;;
        push {| id := (if isInsertion then lit "ins" else lit "del")
                        ++ lit "-" ++ string_of_Z now ++ lit "-" ++ string_of_nat idx;
                type := if isInsertion then Added else Deleted;
                text := if isInsertion then trim text else [];
                originalText := if isInsertion then None else Some (trim text);
                author := author;
                timestamp := date;
                location := {| start := 0; end_ := length text; paragraph := None |};
                comment := None;
                suggestions := None;
                resolved := None |}
    end
  else ret tt.

Definition extractChangesFromXML (xmlDoc : Node) : M unit :=
  try_catch
    (forEach_indexed
       (document_querySelectorAll xmlDoc [type_selector (lit "ins"); type_selector (lit "w:ins")])
       on_insertion ;;
     forEach_indexed
       (document_querySelectorAll xmlDoc [type_selector (lit "del"); type_selector (lit "w:del")])
       on_deletion ;;
     forEach_indexed (document_querySelectorAll xmlDoc [universal]) on_prefixed ;;
     changes <- get_changes ;;
     emit (console_log (lit "Found " ++ string_of_nat (length changes)
                          ++ lit " track changes in document")))
    (fun error => emit (console_warn (lit "Error extracting changes from XML:"))).

(** The callback of [comments.forEach]. *)
Definition on_comment (element : Node) (idx : nat) : M unit :=
  let text := extractTextFromElement element in
  let author := or_unknown (or_else (getAttribute element (lit "w:author"))
                                    (getAttribute element (lit "author"))) in
  let dateStr := or_else (getAttribute element (lit "w:date"))
                         (getAttribute element (lit "date")) in
  date <- date_of dateStr ;;
  match trim text with
  | [] => ret tt
  | _ :: _ =>
      now <- Date_now W ;;
      push {| id := lit "comment-" ++ string_of_Z now ++ lit "-" ++ string_of_nat idx;
              type := Comment;
              text := trim text;
              originalText := None;
              author := author;
              timestamp := date;
              location := {| start := 0; end_ := 0; paragraph := None |};
              comment := Some (trim text);
              suggestions := None;
              resolved := None |}
  end.

Definition extractCommentsFromXML (xmlDoc : Node) : M unit :=
  try_catch
    (forEach_indexed
       (document_querySelectorAll xmlDoc
          [type_selector (lit "comment"); type_selector (lit "w:comment")])
       on_comment)
    (fun error => emit (console_warn (lit "Error extracting comments from XML:"))).

(** [new DOMParser().parseFromString(xml, 'text/xml')], by the root element
    of the document it returns.  The call does not throw: for a text that
    is not well formed it returns a document that holds a [parsererror]
    element. *)
Variable parseFromString : jsstring -> Node.

(** The block of the outer [try] of [extractTrackChanges]. *)
Definition structured_extraction (file : File) : M unit :=
  docxContents <- await (loadAsync file) ;;
  documentXml <- entry_text docxContents (lit "word/document.xml") ;;
  match documentXml with
  | None | Some [] => throw (lit "Could not find document.xml")
  | Some xml =>
      let xmlDoc := parseFromString xml in
      extractChangesFromXML xmlDoc ;;
      commentsXml <- entry_text docxContents (lit "word/comments.xml") ;;
      match commentsXml with
      | None | Some [] => ret tt
      | Some cxml =>
          let commentsDoc := parseFromString cxml in
          extractCommentsFromXML commentsDoc
      end ;;
      changes <- get_changes ;;
      match changes with
      | [] => emit (console_info (lit "No track changes found in document. Upload a document with track changes enabled."))
      | _ :: _ => ret tt
      end
  end.

Definition extractTrackChanges_try (file : File) : M (option (list RedlineChange)) :=
  try_catch
    (structured_extraction file ;; ret None)
    (fun error =>
       emit (console_error (lit "Could not extract track changes from document:")) ;;
       early <- alternative_extraction W file ;;
       match early with
       | Some alternativeChanges => ret (Some alternativeChanges)
       | None => ret (Some [])
       end).

Definition extractTrackChanges (file : File) : M (list RedlineChange) :=
  new_changes ;;
  returned <- extractTrackChanges_try file ;;
  match returned with
  | Some r => ret r
  | None => get_changes
  end.

End Extractor.

End Dom.

(** ** The review page

    The page [pages/Index.tsx] and its components [DocumentUpload],
    [RedlinePanel] and [DocumentViewer].  The state variables of the
    components ([useState]) and the notifications shown ([toast]) make up
    the state of the user interface; a handler runs on that state and on
    the state of the parser, and may raise.  The state of a component is
    its state while it is mounted. *)

Module CollaborationComment.
Record t := {
  id : jsstring;
  changeId : jsstring;
  author : jsstring;
  content : jsstring;
  timestamp : Date;
  resolved : option bool
}.
End CollaborationComment.

Module DocumentState.
Record t := {
  metadata : DocumentMetadata;
  changes : list RedlineChange;
  collaborationComments : list CollaborationComment.t;
  selectedChangeId : option jsstring;
  documentContent : jsstring;
  originalContent : jsstring
}.
End DocumentState.

(** A notification of [sonner]. *)
Inductive toast :=
| toast_success (message : jsstring)
| toast_error (message : jsstring).

Record UI := {
  (** [Index] *)
  documentState : option DocumentState.t;
  isUploading : bool;
  (** [DocumentUpload] *)
  uploadedFile : option File;
  (** [RedlinePanel] *)
  newSuggestion : jsstring;
  newComment : jsstring;
  (** [DocumentViewer] *)
  zoom : Z;
  isEditing : bool;
  (** the notifications shown so far *)
  toasts : list toast
}.

(** The setters of the state variables, applied to an updater. *)
Definition setDocumentState (f : option DocumentState.t -> option DocumentState.t)
           (ui : UI) : UI :=
  {| documentState := f (documentState ui); isUploading := isUploading ui;
     uploadedFile := uploadedFile ui; newSuggestion := newSuggestion ui;
     newComment := newComment ui; zoom := zoom ui; isEditing := isEditing ui;
     toasts := toasts ui |}.

Definition setIsUploading (b : bool) (ui : UI) : UI :=
  {| documentState := documentState ui; isUploading := b;
     uploadedFile := uploadedFile ui; newSuggestion := newSuggestion ui;
     newComment := newComment ui; zoom := zoom ui; isEditing := isEditing ui;
     toasts := toasts ui |}.

Definition setUploadedFile (f : option File) (ui : UI) : UI :=
  {| documentState := documentState ui; isUploading := isUploading ui;
     uploadedFile := f; newSuggestion := newSuggestion ui;
     newComment := newComment ui; zoom := zoom ui; isEditing := isEditing ui;
     toasts := toasts ui |}.

Definition setNewSuggestion (s : jsstring) (ui : UI) : UI :=
  {| documentState := documentState ui; isUploading := isUploading ui;
     uploadedFile := uploadedFile ui; newSuggestion := s;
     newComment := newComment ui; zoom := zoom ui; isEditing := isEditing ui;
     toasts := toasts ui |}.

Definition setNewComment (s : jsstring) (ui : UI) : UI :=
  {| documentState := documentState ui; isUploading := isUploading ui;
     uploadedFile := uploadedFile ui; newSuggestion := newSuggestion ui;
     newComment := s; zoom := zoom ui; isEditing := isEditing ui;
     toasts := toasts ui |}.

Definition setZoom (f : Z -> Z) (ui : UI) : UI :=
  {| documentState := documentState ui; isUploading := isUploading ui;
     uploadedFile := uploadedFile ui; newSuggestion := newSuggestion ui;
     newComment := newComment ui; zoom := f (zoom ui); isEditing := isEditing ui;
     toasts := toasts ui |}.

Definition setIsEditing (b : bool) (ui : UI) : UI :=
  {| documentState := documentState ui; isUploading := isUploading ui;
     uploadedFile := uploadedFile ui; newSuggestion := newSuggestion ui;
     newComment := newComment ui; zoom := zoom ui; isEditing := b;
     toasts := toasts ui |}.

Definition show_toast (t : toast) (ui : UI) : UI :=
  {| documentState := documentState ui; isUploading := isUploading ui;
     uploadedFile := uploadedFile ui; newSuggestion := newSuggestion ui;
     newComment := newComment ui; zoom := zoom ui; isEditing := isEditing ui;
     toasts := toasts ui ++ [t] |}.

(** A handler: it runs on the state of the interface and of the parser. *)
Definition Eff (A : Type) := UI -> State -> result A * UI * State.

Definition eret {A} (a : A) : Eff A := fun ui st => (Ok a, ui, st).

Definition ebind {A B} (m : Eff A) (k : A -> Eff B) : Eff B :=
  fun ui st => match m ui st with
               | (Ok a, ui', st') => k a ui' st'
               | (Throw e, ui', st') => (Throw e, ui', st')
               end.

(** [try { body } catch (error) { handler }] *)
Definition etry {A} (body : Eff A) (handler : exn -> Eff A) : Eff A :=
  fun ui st => match body ui st with
               | (Ok a, ui', st') => (Ok a, ui', st')
               | (Throw e, ui', st') => handler e ui' st'
               end.

(** [try { body } finally { final }] *)
Definition efinally {A} (body : Eff A) (final : Eff unit) : Eff A :=
  fun ui st => match body ui st with
               | (r, ui', st') =>
                   match final ui' st' with
                   | (Ok _, ui'', st'') => (r, ui'', st'')
                   | (Throw e, ui'', st'') => (Throw e, ui'', st'')
                   end
               end.

(** [await] of a call into the parser *)
Definition lift {A} (m : M A) : Eff A :=
  fun ui st => match m st with
               | (r, st') => (r, ui, st')
               end.

(** A call of a setter, or of [toast]. *)
Definition update (f : UI -> UI) : Eff unit := fun ui st => (Ok tt, f ui, st).

(** The state variables as the handler sees them. *)
Definition read : Eff UI := fun ui st => (Ok ui, ui, st).

Declare Scope eff_scope.
Delimit Scope eff_scope with eff.
Notation "x <- m ;; k" := (ebind m (fun x => k))
  (at level 61, m at next level, right associativity) : eff_scope.
Notation "m ;; k" := (ebind m (fun _ => k))
  (at level 61, right associativity) : eff_scope.

(** [s.endsWith(suffix)] *)
Definition endsWith (s suffix : jsstring) : bool :=
  match strip_prefix (rev suffix) (rev s) with
  | Some _ => true
  | None => false
  end.

(** [change.suggestions || []] *)
Definition suggestions_or_empty (change : RedlineChange) : list jsstring :=
  match suggestions change with
  | Some l => l
  | None => []
  end.

(** [!c.resolved] *)
Definition unresolved (c : RedlineChange) : bool :=
  match resolved c with
  | Some true => false
  | _ => true
  end.

Section Page.

Variable W : World.

(** *** [Index] *)

Definition handleFileUpload (file : File) : Eff unit :=
  (update (setIsUploading true) ;;
   efinally
     (etry
        (r <- lift (parseDocument W file) ;;
         update (setDocumentState (fun _ =>
           Some {| DocumentState.metadata := metadata r;
                   DocumentState.changes := changes r;
                   DocumentState.collaborationComments := [];
                   DocumentState.selectedChangeId := None;
                   DocumentState.documentContent := content r;
                   DocumentState.originalContent := content r |})) ;;
         update (show_toast (toast_success
           (lit "Document loaded with " ++ string_of_nat (length (changes r))
              ++ lit " changes detected"))))
        (fun error =>
           update (show_toast (toast_error (lit "Failed to process document: " ++ error)))))
     (update (setIsUploading false)))%eff.

Definition handleChangeSelect (changeId : jsstring) : Eff unit :=
  update (setDocumentState (option_map (fun prev =>
    {| DocumentState.metadata := DocumentState.metadata prev;
       DocumentState.changes := DocumentState.changes prev;
       DocumentState.collaborationComments := DocumentState.collaborationComments prev;
       DocumentState.selectedChangeId := Some changeId;
       DocumentState.documentContent := DocumentState.documentContent prev;
       DocumentState.originalContent := DocumentState.originalContent prev |}))).

(** [{ ...change, suggestions: [...(change.suggestions || []), suggestion] }] *)
Definition with_suggestion (suggestion : jsstring) (change : RedlineChange) : RedlineChange :=
  {| id := id change; type := type change; text := text change;
     originalText := originalText change; author := author change;
     timestamp := timestamp change; location := location change;
     comment := comment change;
     suggestions := Some (suggestions_or_empty change ++ [suggestion]);
     resolved := resolved change |}.

(** [{ ...change, resolved: true }] *)
Definition as_resolved (change : RedlineChange) : RedlineChange :=
  {| id := id change; type := type change; text := text change;
     originalText := originalText change; author := author change;
     timestamp := timestamp change; location := location change;
     comment := comment change; suggestions := suggestions change;
     resolved := Some true |}.

(** [{ ...prev, changes: prev.changes.map(f) }] *)
Definition map_changes (f : RedlineChange -> RedlineChange) (prev : DocumentState.t)
  : DocumentState.t :=
  {| DocumentState.metadata := DocumentState.metadata prev;
     DocumentState.changes := map f (DocumentState.changes prev);
     DocumentState.collaborationComments := DocumentState.collaborationComments prev;
     DocumentState.selectedChangeId := DocumentState.selectedChangeId prev;
     DocumentState.documentContent := DocumentState.documentContent prev;
     DocumentState.originalContent := DocumentState.originalContent prev |}.

Definition handleSuggestionAdd (changeId suggestion : jsstring) : Eff unit :=
  update (setDocumentState (option_map (map_changes (fun change =>
    if jsstring_eqb (id change) changeId then with_suggestion suggestion change
    else change)))).

Definition handleCommentAdd (changeId comment : jsstring) : Eff unit :=
  (now <- lift (Date_now W) ;;
   timestamp <- lift (new_Date W) ;;
   let newComment :=
     {| CollaborationComment.id := lit "comment-" ++ string_of_Z now;
        CollaborationComment.changeId := changeId;
        CollaborationComment.author := lit "Contract Manager";
        CollaborationComment.content := comment;
        CollaborationComment.timestamp := timestamp;
        CollaborationComment.resolved := None |} in
   update (setDocumentState (option_map (fun prev =>
     {| DocumentState.metadata := DocumentState.metadata prev;
        DocumentState.changes := DocumentState.changes prev;
        DocumentState.collaborationComments :=
          DocumentState.collaborationComments prev ++ [newComment];
        DocumentState.selectedChangeId := DocumentState.selectedChangeId prev;
        DocumentState.documentContent := DocumentState.documentContent prev;
        DocumentState.originalContent := DocumentState.originalContent prev |}))))%eff.

Definition handleChangeResolve (changeId : jsstring) : Eff unit :=
  update (setDocumentState (option_map (map_changes (fun change =>
    if jsstring_eqb (id change) changeId then as_resolved change else change)))).

Definition handleContentChange (newContent : jsstring) : Eff unit :=
  update (setDocumentState (option_map (fun prev =>
    {| DocumentState.metadata := DocumentState.metadata prev;
       DocumentState.changes := DocumentState.changes prev;
       DocumentState.collaborationComments := DocumentState.collaborationComments prev;
       DocumentState.selectedChangeId := DocumentState.selectedChangeId prev;
       DocumentState.documentContent := newContent;
       DocumentState.originalContent := DocumentState.originalContent prev |}))).

(** [documentState.changes.filter(c => !c.resolved).length], the number the
    header shows as pending *)
Definition pending (changes : list RedlineChange) : nat :=
  length (filter unresolved changes).

(** *** [DocumentUpload] *)

Definition onDrop (onFileUpload : File -> Eff unit) (acceptedFiles : list File) : Eff unit :=
  match acceptedFiles with
  | [] => eret tt
  | file :: _ =>
      if negb (endsWith (name file) (lit ".docx")) then
        update (show_toast (toast_error (lit "Please upload a .docx file")))
      else
        (update (setUploadedFile (Some file)) ;;
         etry
           (onFileUpload file ;;
            update (show_toast (toast_success (lit "Document uploaded successfully!"))))
           (fun error =>
              update (show_toast (toast_error (lit "Failed to upload document"))) ;;
              update (setUploadedFile None)))%eff
  end.

Definition removeFile : Eff unit := update (setUploadedFile None).

(** *** [RedlinePanel] *)

Definition handleSuggestionSubmit (onSuggestionAdd : jsstring -> jsstring -> Eff unit)
           (changeId : jsstring) : Eff unit :=
  (ui <- read ;;
   match trim (newSuggestion ui) with
   | [] => eret tt
   | _ :: _ =>
       onSuggestionAdd changeId (newSuggestion ui) ;;
       update (setNewSuggestion []) ;;
       update (show_toast (toast_success (lit "Suggestion added")))
   end)%eff.

Definition handleCommentSubmit (onCommentAdd : jsstring -> jsstring -> Eff unit)
           (changeId : jsstring) : Eff unit :=
  (ui <- read ;;
   match trim (newComment ui) with
   | [] => eret tt
   | _ :: _ =>
       onCommentAdd changeId (newComment ui) ;;
       update (setNewComment []) ;;
       update (show_toast (toast_success (lit "Comment added")))
   end)%eff.

Definition getCommentsForChange (comments : list CollaborationComment.t)
           (changeId : jsstring) : list CollaborationComment.t :=
  filter (fun comment => jsstring_eqb (CollaborationComment.changeId comment) changeId)
         comments.

(** *** [DocumentViewer] *)

Definition handleZoomIn : Eff unit := update (setZoom (fun prev => Z.min (prev + 10) 200)).

Definition handleZoomOut : Eff unit := update (setZoom (fun prev => Z.max (prev - 10) 50)).

Definition handleRefresh : Eff unit :=
  (update (setZoom (fun _ => 100%Z)) ;; update (setIsEditing false))%eff.

End Page.

(** * Vocabulary of the properties *)

(** ** The elements a search visits *)

(** [tagged tagName obj]: the values on which
    [findElementsRecursive(obj, tagName, callback)] calls [callback], in the
    order of the calls. *)
Fixpoint tagged (tagName : jsstring) (obj : JsValue) : list JsValue :=
  match obj with
  | JString _ => []
  | JArray items => flat_map (tagged tagName) items
  | JObject props =>
      match get_truthy obj tagName with
      | Some found => as_array found
      | None => []
      end ++ flat_map (fun p => tagged tagName (snd p)) props
  end.

(** ** A frame for the extraction steps *)

(** Console output, as opposed to a scan of the fallback extractor. *)
Definition is_console (e : event) : Prop :=
  match e with
  | fallback_scan _ => False
  | _ => True
  end.

(** [extends P st st']: from [st] to [st'] the array [changes] only grew, by
    changes that satisfy [P]; no conversion took place; the trace grew by
    console output only; the clock was read some more times. *)
Record extends (P : RedlineChange -> Prop) (st st' : State) : Prop := {
  ext_changes : exists new, st_changes st' = st_changes st ++ new /\ Forall P new;
  ext_conversions : conversions st' = conversions st;
  ext_trace : exists evs, trace st' = trace st ++ evs /\ Forall is_console evs;
  ext_clock : clock_reads st <= clock_reads st'
}.

(** Whatever its result, [m] extends the state in that way. *)
Definition preserves {A} (P : RedlineChange -> Prop) (m : M A) : Prop :=
  forall st, extends P st (snd (m st)).

(** [m] completes normally from every state. *)
Definition never_throws {A} (m : M A) : Prop :=
  forall st, exists a, fst (m st) = Ok a.

(** ** Matches of a pattern *)

(** The text a pattern matches with given captures. *)
Fixpoint render (re : regex) (gs : list jsstring) : jsstring :=
  match re with
  | [] => []
  | Lit l :: re' => l ++ render re' gs
  | Group :: re' =>
      match gs with
      | g :: gs' => g ++ render re' gs'
      | [] => []
      end
  end.

(** The number of capture groups. *)
Fixpoint num_groups (re : regex) : nat :=
  match re with
  | [] => 0
  | Lit _ :: re' => num_groups re'
  | Group :: re' => S (num_groups re')
  end.

(** The least length of a match. *)
Fixpoint min_length (re : regex) : nat :=
  match re with
  | [] => 0
  | Lit l :: re' => length l + min_length re'
  | Group :: re' => S (min_length re')
  end.

(** A code unit [.] matches. *)
Definition dot (c : ascii) : Prop := is_line_terminator c = false.

(** [m] is a match of [re] in [content]: the pattern matches at [index m],
    with the captures of [m], and [whole m] is the matched text. *)
Definition is_match (re : regex) (content : jsstring) (m : Match) : Prop :=
  match_here re (skipn (index m) content) = Some (groups m, length (whole m)) /\
  firstn (length (whole m)) (skipn (index m) content) = whole m.

(** Matches in scan order: each starts at or behind the end of the one
    before, the first at or behind [i]. *)
Fixpoint in_scan_order (i : nat) (ms : list Match) : Prop :=
  match ms with
  | [] => True
  | m :: ms' => i <= index m /\ in_scan_order (lastIndex_after m) ms'
  end.

(** No match is passed over: the pattern matches nowhere between [i] and the
    first match, nor between the end of a match and the start of the next,
    nor behind the last match. *)
Fixpoint nothing_skipped (re : regex) (content : jsstring) (i : nat) (ms : list Match) : Prop :=
  match ms with
  | [] => forall j, i <= j <= length content -> match_here re (skipn j content) = None
  | m :: ms' =>
      (forall j, i <= j < index m -> match_here re (skipn j content) = None) /\
      nothing_skipped re content (lastIndex_after m) ms'
  end.

(** ** States and results of a run *)

(** The changes one loop pushes for the matches [ms], numbered from [idx],
    the clock being read for the [tick]-th time at the first of them. *)
Fixpoint stamp (W : World) (mk : nat -> Match -> Date -> RedlineChange) (ms : list Match)
         (idx tick : nat) : list RedlineChange :=
  match ms with
  | [] => []
  | m :: ms' => mk idx m (TimeValue (clock W tick)) :: stamp W mk ms' (S idx) (S tick)
  end.

(** [st] after [n] more readings of the clock. *)
Definition advance (n : nat) (st : State) : State :=
  {| st_changes := st_changes st; clock_reads := clock_reads st + n;
     random_draws := random_draws st; conversions := conversions st;
     trace := trace st |}.

(** [st] after the event [e]. *)
Definition logged (e : event) (st : State) : State :=
  {| st_changes := st_changes st; clock_reads := clock_reads st;
     random_draws := random_draws st; conversions := conversions st;
     trace := trace st ++ [e] |}.

(** [st] after one more call of the converter. *)
Definition converted (st : State) : State :=
  {| st_changes := st_changes st; clock_reads := clock_reads st;
     random_draws := random_draws st; conversions := S (conversions st);
     trace := trace st |}.

(** The console output of the two [catch] blocks. *)
Definition extraction_failed : event :=
  console_error (lit "Could not extract track changes from document:").

Definition parse_failed : event := console_error (lit "Error parsing document:").

(** The metadata [parseDocument] assembles. *)
Definition metadata_of (file : File) (textContent : jsstring)
           (l : list RedlineChange) (uploaded : Date) : DocumentMetadata :=
  {| filename := name file;
     uploadedAt := uploaded;
     lastModified := TimeValue (file_lastModified file);
     wordCount := length (split textContent);
     changeCount := length l;
     authors := Set_values (map author l) |}.

(** The list a run returns ([[]] when it throws). *)
Definition returned {A} (r : result (list A) * State) : list A :=
  match fst r with
  | Ok l => l
  | Throw _ => []
  end.

(** ** Changes of the fallback extractor *)

(** [s.substring(a, b)] for [a <= b] *)
Definition substring (s : jsstring) (a b : nat) : jsstring := firstn (b - a) (skipn a s).

(** The bracket expression a fallback change stands for. *)
Definition bracketed (c : RedlineChange) : jsstring :=
  let original := match originalText c with Some o => o | None => [] end in
  match type c with
  | Added => lit "[Added: " ++ text c ++ lit "]"
  | Deleted => lit "[Deleted: " ++ original ++ lit "]"
  | Modified => lit "[Modified: " ++ original ++ lit " -> " ++ text c ++ lit "]"
  | Comment => []
  end.

(** The location of [c] is the span of its bracket expression in [content]. *)
Definition literal_span (content : jsstring) (c : RedlineChange) : Prop :=
  end_ (location c) = start (location c) + length (bracketed c) /\
  substring content (start (location c)) (end_ (location c)) = bracketed c.

(** [c] is the change the loop of kind [kind] pushes for the match [m]. *)
Definition fallback_change (kind : ChangeType) (c : RedlineChange) (m : Match) : Prop :=
  type c = kind /\ author c = lit "Document Author" /\
  location c = {| start := index m; end_ := index m + length (whole m); paragraph := None |}.

(** The spans of the changes follow each other in the text, from [i] on. *)
Fixpoint spans_in_order (i : nat) (l : list RedlineChange) : Prop :=
  match l with
  | [] => True
  | c :: l' => i <= start (location c) /\ start (location c) < end_ (location c) /\
               spans_in_order (end_ (location c)) l'
  end.

(** ** Changes by their origin *)

(** What the callback of the [w:ins] search pushes. *)
Definition insertion_change (c : RedlineChange) : Prop :=
  type c = Added /\ text c <> [] /\ originalText c = None /\
  comment c = None /\ suggestions c = None /\ resolved c = None.

(** What the callback of the [w:del] search pushes. *)
Definition deletion_change (c : RedlineChange) : Prop :=
  type c = Deleted /\ text c = [] /\
  (exists o, originalText c = Some o /\ o <> []) /\
  comment c = None /\ suggestions c = None /\ resolved c = None.

(** What the comment extractor pushes. *)
Definition comment_change (c : RedlineChange) : Prop :=
  type c = Comment /\ text c <> [] /\ originalText c = None /\
  comment c = Some (text c) /\ suggestions c = None /\ resolved c = None.

(** The note the fallback extractor attaches to a change. *)
Definition detected (kind : ChangeType) : jsstring :=
  match kind with
  | Added => lit "Added content detected"
  | Deleted => lit "Deleted content detected"
  | Modified => lit "Modified content detected"
  | Comment => []
  end.

(** What the loops of the fallback extractor push. *)
Definition fallback_made (c : RedlineChange) : Prop :=
  match type c with
  | Added => text c <> [] /\ originalText c = None
  | Deleted => text c = [] /\ exists o, originalText c = Some o /\ o <> []
  | Modified => text c <> [] /\ exists o, originalText c = Some o /\ o <> []
  | Comment => False
  end /\
  comment c = Some (detected (type c)) /\ suggestions c = None /\ resolved c = None.

Definition structured_change (c : RedlineChange) : Prop :=
  insertion_change c \/ deletion_change c \/ comment_change c.

Definition engine_change (c : RedlineChange) : Prop :=
  structured_change c \/ fallback_made c.

(** The shape invariant of [deleted] and [added] changes. *)
Definition shape_ok (c : RedlineChange) : Prop :=
  match type c with
  | Deleted => text c = [] /\ exists o, originalText c = Some o /\ o <> []
  | Added => text c <> [] /\ originalText c = None
  | _ => True
  end.

(** A change without [comment], [suggestions] and [resolved]. *)
Definition unannotated (c : RedlineChange) : Prop :=
  comment c = None /\ suggestions c = None /\ resolved c = None.

(** ** Authors and words *)

(** The values of [l] with duplicates removed, in the order of their first
    appearance. *)
Fixpoint first_occurrences (l : list jsstring) : list jsstring :=
  match l with
  | [] => []
  | a :: l' => a :: filter (fun b => negb (jsstring_eqb b a)) (first_occurrences l')
  end.

(** The number of white-space separated tokens of [s]: its maximal runs of
    code units that are not white space.  [in_token] says that the previous
    code unit belongs to a token. *)
Fixpoint count_tokens (in_token : bool) (s : jsstring) : nat :=
  match s with
  | [] => 0
  | c :: s' =>
      if is_space c then count_tokens false s'
      else (if in_token then 0 else 1) + count_tokens true s'
  end.

(** The number of tokens of [s]. *)
Definition tokens (s : jsstring) : nat := count_tokens false s.

(** The last code unit of [s] is white space. *)
Fixpoint ends_with_space (s : jsstring) : bool :=
  match s with
  | [] => false
  | c :: s' =>
      match s' with
      | [] => is_space c
      | _ :: _ => ends_with_space s'
      end
  end.

(** ** The change of a matched element *)

(** [c] is the change a structured callback pushes for an element of kind
    [kind] with the recovered text [recovered], whose author and date
    attributes read [author_attr] and [date_attr] ([None]: absent or empty),
    the clock having been read [k] times before. *)
Definition reads (W : World) (kind : ChangeType) (recovered : jsstring)
           (author_attr date_attr : option jsstring) (k : nat)
           (c : RedlineChange) : Prop :=
  type c = kind /\
  match kind with
  | Deleted => text c = [] /\ originalText c = Some recovered
  | _ => text c = recovered /\ originalText c = None
  end /\
  author c = match author_attr with
             | Some a => a
             | None => lit "Unknown"
             end /\
  timestamp c = match date_attr with
                | Some d => Date_of_string W d
                | None => TimeValue (clock W k)
                end.

(** ** Sample documents *)

Module Samples.

(** A parsed [document.xml] without any change markup. *)
Definition plain_tree : JsValue :=
  JObject [(lit "w:document",
            JObject [(lit "w:body",
                      JObject [(lit "w:p",
                                JObject [(lit "w:r",
                                          JObject [(lit "w:t", JString (lit "Hello"))])])])])].

(** A parsed [document.xml] with one insertion that has an author and a
    date, and one deletion without attributes.  The parser is configured
    with [mergeAttrs: true]: the attributes of an element are properties
    of the element, beside its children. *)
Definition marked_tree : JsValue :=
  JObject [(lit "w:document",
            JObject [(lit "w:body",
                      JObject [(lit "w:ins",
                                JObject [(lit "w:author", JString (lit "Bob"));
                                         (lit "w:date", JString (lit "not a date"));
                                         (lit "w:t", JString (lit "new fee"))]);
                               (lit "w:del",
                                JObject [(lit "w:t", JString (lit "old fee"))])])])].

(** A parsed [document.xml] whose insertion element is unprefixed. *)
Definition unprefixed_tree : JsValue :=
  JObject [(lit "w:document",
            JObject [(lit "ins", JObject [(lit "w:t", JString (lit "new fee"))])])].

(** A parsed [comments.xml] with one comment (its author merged into the
    element). *)
Definition comments_tree : JsValue :=
  JObject [(lit "w:comments",
            JObject [(lit "w:comment",
                      JObject [(lit "w:author", JString (lit "Ann"));
                               (lit "w:t", JString (lit "please check"))])])].

Definition plain_xml : jsstring :=
  lit "<pkg><w:document><w:body><w:p><w:r><w:t>Hello</w:t></w:r></w:p></w:body></w:document></pkg>".

Definition marked_xml : jsstring :=
  lit "<pkg><w:document><w:body><w:ins w:author='Bob' w:date='not a date'><w:t>new fee</w:t></w:ins><w:del><w:t>old fee</w:t></w:del></w:body></w:document></pkg>".

Definition unprefixed_xml : jsstring :=
  lit "<pkg><w:document><ins><w:t>new fee</w:t></ins></w:document></pkg>".

Definition comments_xml : jsstring :=
  lit "<pkg><w:comments><w:comment w:author='Ann'><w:t>please check</w:t></w:comment></w:comments></pkg>".

(** A world whose parser works as [parseXMLPromise] configures it: the
    result is the content of the root element ([explicitRoot: false]), and
    the attributes of an element are merged into its properties
    ([mergeAttrs: true]). *)
Definition world : World :=
  {| clock := fun k => (1700000000000 + Z.of_nat k)%Z;
     random := fun k => lit "0." ++ string_of_nat (S k);
     Date_parse := fun s =>
       if jsstring_eqb s (lit "2024-01-15T10:30:00Z") then Some 1705314600000%Z else None;
     xml2js := fun xml =>
       if jsstring_eqb xml plain_xml then xml_result plain_tree
       else if jsstring_eqb xml marked_xml then xml_result marked_tree
       else if jsstring_eqb xml unprefixed_xml then xml_result unprefixed_tree
       else if jsstring_eqb xml comments_xml then xml_result comments_tree
       else xml_err (lit "Unexpected end") |}.

Definition archive_of (documentXml : jsstring) (commentsXml : option jsstring) : Archive :=
  fun entry =>
    if jsstring_eqb entry (lit "word/document.xml") then Some (inr documentXml)
    else if jsstring_eqb entry (lit "word/comments.xml") then option_map inr commentsXml
    else None.

Definition annotated_html : jsstring :=
  lit "<p>The fee is [Modified: $100 -> $150] per month.</p><p>[Added: plus tax]</p>".

(** A file that is not a ZIP archive but converts to annotated text. *)
Definition not_an_archive : File :=
  {| name := lit "draft.docx"; file_lastModified := 1699999999000%Z;
     convertToHtml := fun _ => inr annotated_html;
     loadAsync := inl (lit "Can't find end of central directory") |}.


(** A document with change markup and comments. *)
Definition marked_document : File :=
  {| name := lit "redline.docx"; file_lastModified := 1699999999000%Z;
     convertToHtml := fun _ => inr (lit "<p>new fee</p>");
     loadAsync := inr (archive_of marked_xml (Some comments_xml)) |}.

(** A file that converts once and can be read no more, and is no archive. *)
Definition read_once : File :=
  {| name := lit "gone.docx"; file_lastModified := 1699999999000%Z;
     convertToHtml := fun k => match k with
                               | 0 => inr (lit "<p>[Added: x]</p>")
                               | S _ => inl (lit "NotReadableError")
                               end;
     loadAsync := inl (lit "NotReadableError") |}.

(** A document without any text. *)
Definition empty_document : File :=
  {| name := lit "empty.docx"; file_lastModified := 1699999999000%Z;
     convertToHtml := fun _ => inr (lit "<p></p>");
     loadAsync := inr (archive_of plain_xml None) |}.

(** A file mammoth cannot convert. *)
Definition unconvertible : File :=
  {| name := lit "notes.txt"; file_lastModified := 1699999999000%Z;
     convertToHtml := fun _ => inl (lit "Could not find main document part");
     loadAsync := inl (lit "Can't find end of central directory") |}.

End Samples.

(** A DOM document: an insertion with a qualified tag whose attributes are
    written [author] and [date], and a deletion with an unprefixed tag
    whose [w:date] is not a date. *)
Definition sample_dom : Dom.Node :=
  Dom.Element (Some (lit "w")) (lit "document") []
    [Dom.Element (Some (lit "w")) (lit "body") []
       [Dom.Element (Some (lit "w")) (lit "ins")
          [(lit "author", lit "Ann"); (lit "date", lit "2024-01-15T10:30:00Z")]
          [Dom.Element (Some (lit "w")) (lit "r") []
             [Dom.Element (Some (lit "w")) (lit "t") [] [Dom.Text (lit "new fee")]]];
        Dom.Element None (lit "del")
          [(lit "w:date", lit "not a date")]
          [Dom.Text (lit "old fee")]]].

(** The value under [ins] in [Samples.unprefixed_tree]. *)
Definition sample_unprefixed_insertion : JsValue :=
  JObject [(lit "w:t", JString (lit "new fee"))].

(** ** The plain text, code unit by code unit *)

(** Some [<] of [s] has a [>] somewhere behind it: [s] contains a tag
    [/<[^>]*>/]. *)
Fixpoint has_tag (s : jsstring) : bool :=
  match s with
  | [] => false
  | c :: s' => (Ascii.eqb c lt_sign && existsb (Ascii.eqb gt_sign) s') || has_tag s'
  end.

(** Every white-space code unit of [s] is a space and is not preceded by
    white space ([prev] says that the code unit before [s] is white
    space). *)
Fixpoint single_spaced (prev : bool) (s : jsstring) : bool :=
  match s with
  | [] => true
  | c :: s' =>
      if is_space c then Ascii.eqb c space && negb prev && single_spaced true s'
      else single_spaced false s'
  end.

(** [sub] occurs in [s] as a contiguous piece. *)
Definition occurs_in (sub s : jsstring) : Prop := exists a b, s = a ++ sub ++ b.

(** [s] is white space only. *)
Definition blank (s : jsstring) : bool := forallb is_space s.

(** An element whose attributes xml2js merged into its properties, and whose
    text sits one level down, in a run. *)
Definition merged_attributes_insertion : JsValue :=
  JObject [(lit "w:author", JString (lit "Bob"));
           (lit "w:r", JObject [(lit "w:t", JString (lit "new fee"))])].

(** ** Identifiers and captures of the fallback extractor *)

(** The word of a kind of change in a fallback identifier. *)
Definition kind_word (kind : ChangeType) : jsstring :=
  match kind with
  | Added => lit "added"
  | Deleted => lit "deleted"
  | Modified => lit "modified"
  | Comment => lit "comment"
  end.

(** [`alt-${kind}-${k}`] *)
Definition fallback_id (kind : ChangeType) (k : nat) : jsstring :=
  lit "alt-" ++ kind_word kind ++ lit "-" ++ string_of_nat k.

Definition lbracket : ascii := ascii_of_nat 91.
Definition rbracket : ascii := ascii_of_nat 93.

(** What a lazy group [(.+?)] in front of a closing bracket captures: at
    least one code unit, no line terminator, and no closing bracket behind
    the first code unit. *)
Definition lazy_capture (g : jsstring) : Prop :=
  g <> [] /\ Forall dot g /\ ~ In rbracket (tl g).

(** The captures of a fallback change are lazy. *)
Definition lazily_captured (c : RedlineChange) : Prop :=
  match type c with
  | Added => lazy_capture (text c)
  | Deleted => exists o, originalText c = Some o /\ lazy_capture o
  | Modified => lazy_capture (text c) /\
                exists o, originalText c = Some o /\ o <> [] /\ Forall dot o
  | Comment => False
  end.

(** ** The changes of the structured path, element by element *)

(** The text recovered below [element] is not empty. *)
Definition has_text (element : JsValue) : bool :=
  match extractTextFromElement element with
  | [] => false
  | _ :: _ => true
  end.

(** The recovered text a change carries: the original text of a deletion,
    the text of any other change. *)
Definition recovered (c : RedlineChange) : jsstring :=
  match type c with
  | Deleted => match originalText c with
               | Some o => o
               | None => []
               end
  | _ => text c
  end.

(** [c] is the change of kind [kind] that a structured callback pushes for
    [element]. *)
Definition pushed_for (kind : ChangeType) (element : JsValue) (c : RedlineChange) : Prop :=
  type c = kind /\ recovered c = extractTextFromElement element /\
  author c = author_of element /\
  location c = {| start := 0;
                  end_ := match kind with
                          | Comment => 0
                          | _ => length (extractTextFromElement element)
                          end;
                  paragraph := None |}.

(** The values with text that are stored under the key [tagName] anywhere
    below the [w:document] of a parsed [document.xml], in the order of the
    search. *)
Definition change_elements (tagName : jsstring) (xmlObj : JsValue) : list JsValue :=
  match get_truthy xmlObj (lit "w:document") with
  | Some document => filter has_text (tagged tagName document)
  | None => []
  end.

(** The comments with text of a parsed [comments.xml]: the values directly
    under [w:comments], [w:comment]. *)
Definition comment_elements (xmlObj : JsValue) : list JsValue :=
  match get xmlObj (lit "w:comments") with
  | Some wcomments =>
      match get_truthy wcomments (lit "w:comment") with
      | Some comments => filter has_text (as_array comments)
      | None => []
      end
  | None => []
  end.

(** ** Runs of the orchestrator *)

(** The text the fallback extractor scans: the plain text of the
    conversion, or the empty text when the conversion fails. *)
Definition fallback_text (p : exn + jsstring) : jsstring :=
  match p with
  | inr html => html_to_text html
  | inl _ => []
  end.

(** The number of conversions a run of [parseDocument] makes from [st]. *)
Definition conversions_of (W : World) (file : File) (st : State) : nat :=
  match convertToHtml file (conversions st) with
  | inl _ => 1
  | inr _ =>
      match fst (structured_extraction W file (set_changes [] (converted st))) with
      | Ok _ => 1
      | Throw _ => 2
      end
  end.

(** A document with change markup whose comments part is not well formed. *)
Definition broken_comments : File :=
  {| name := lit "redline.docx"; file_lastModified := 1699999999000%Z;
     convertToHtml := fun _ => inr (lit "<p>new fee</p>");
     loadAsync := inr (Samples.archive_of Samples.marked_xml (Some (lit "<w:comments>"))) |}.

(** ** The changes of the DOM variant, element by element *)

(** The text content of [element] is not white space only. *)
Definition dom_has_text (element : Dom.Node) : bool :=
  match trim (Dom.textContent element) with
  | [] => false
  | _ :: _ => true
  end.

(** [c] is a change of kind [kind] for [element]: it carries the trimmed
    text content of the element, and its location runs from [0] to the
    length of that text ([0] for a comment). *)
Definition dom_pushed_for (kind : ChangeType) (element : Dom.Node) (c : RedlineChange) : Prop :=
  type c = kind /\ recovered c = trim (Dom.textContent element) /\
  location c = {| start := 0;
                  end_ := match kind with
                          | Comment => 0
                          | _ => length (trim (Dom.textContent element))
                          end;
                  paragraph := None |}.

(** The test of the third pass: the tag name contains [:ins] or [:del]. *)
Definition is_prefixed (element : Dom.Node) : bool :=
  includes (Dom.tagName element) (lit ":ins") || includes (Dom.tagName element) (lit ":del").

(** The kind the third pass gives an element. *)
Definition prefixed_kind (element : Dom.Node) : ChangeType :=
  if includes (Dom.tagName element) (lit ":ins") then Added else Deleted.

(** The elements the three passes of [extractChangesFromXML] push a change
    for, and those of the comment extractor. *)
Definition dom_insertions (xmlDoc : Dom.Node) : list Dom.Node :=
  filter dom_has_text
         (Dom.document_querySelectorAll
            xmlDoc [Dom.type_selector (lit "ins"); Dom.type_selector (lit "w:ins")]).

Definition dom_deletions (xmlDoc : Dom.Node) : list Dom.Node :=
  filter dom_has_text
         (Dom.document_querySelectorAll
            xmlDoc [Dom.type_selector (lit "del"); Dom.type_selector (lit "w:del")]).

Definition dom_prefixed (xmlDoc : Dom.Node) : list Dom.Node :=
  filter (fun element => is_prefixed element && dom_has_text element)
         (Dom.document_querySelectorAll xmlDoc [Dom.universal]).

Definition dom_comments (xmlDoc : Dom.Node) : list Dom.Node :=
  filter dom_has_text
         (Dom.document_querySelectorAll
            xmlDoc [Dom.type_selector (lit "comment"); Dom.type_selector (lit "w:comment")]).

(** A document whose only change is an insertion with a qualified tag. *)
Definition qualified_insertion_dom : Dom.Node :=
  Dom.Element (Some (lit "w")) (lit "body") []
    [Dom.Element (Some (lit "w")) (lit "ins") [(lit "w:author", lit "Bob")]
       [Dom.Element (Some (lit "w")) (lit "t") [] [Dom.Text (lit "new fee")]]].

(** An insertion element with a qualified tag [p:ins]. *)
Definition qualified_insertion (p : jsstring) (attrs : list (jsstring * jsstring))
           (children : list Dom.Node) : Dom.Node :=
  Dom.Element (Some p) (lit "ins") attrs children.

(** ** Archives the DOM variant can read *)

(** The archive opens, it has a non-empty [word/document.xml] that can be
    read, and its [word/comments.xml], if any, can be read. *)
Definition archive_readable (file : File) : bool :=
  match loadAsync file with
  | inl _ => false
  | inr archive =>
      match archive (lit "word/document.xml") with
      | Some (inr (_ :: _)) =>
          match archive (lit "word/comments.xml") with
          | Some (inl _) => false
          | _ => true
          end
      | _ => false
      end
  end.

(** The text of an entry of the archive (empty when there is none). *)
Definition entry_of (file : File) (entry : jsstring) : jsstring :=
  match loadAsync file with
  | inl _ => []
  | inr archive =>
      match archive entry with
      | Some (inr t) => t
      | _ => []
      end
  end.

(** The comment elements with text of the comments part, as the parser
    [parseFromString] reads it. *)
Definition dom_comments_of (parseFromString : jsstring -> Dom.Node) (file : File)
  : list Dom.Node :=
  match entry_of file (lit "word/comments.xml") with
  | [] => []
  | (_ :: _) as cxml => dom_comments (parseFromString cxml)
  end.

(** A DOM parser for the sample documents: whatever the text, the document
    with one qualified insertion. *)
Definition sample_parseFromString (xml : jsstring) : Dom.Node := qualified_insertion_dom.

(** A document with a part that is not well formed. *)
Definition ill_formed_document : File :=
  {| name := lit "broken.docx"; file_lastModified := 1699999999000%Z;
     convertToHtml := fun _ => inr (lit "<p>[Added: x]</p>");
     loadAsync := inr (Samples.archive_of (lit "<w:document>") None) |}.

(** The rest of the structured path of the DOM variant behind
    [extractChangesFromXML]. *)
Definition dom_comments_and_notice (W : World) (parseFromString : jsstring -> Dom.Node)
           (docxContents : Archive) : M unit :=
  commentsXml <- entry_text docxContents (lit "word/comments.xml") ;;
  match commentsXml with
  | None | Some [] => ret tt
  | Some cxml =>
      let commentsDoc := parseFromString cxml in
      Dom.extractCommentsFromXML W commentsDoc
  end ;;
  changes <- get_changes ;;
  match changes with
  | [] => emit (console_info (lit "No track changes found in document. Upload a document with track changes enabled."))
  | _ :: _ => ret tt
  end.

(** ** The review page: uploads *)

(** The message of the error [parseDocument] throws. *)
Definition parse_error : jsstring :=
  lit "Failed to parse document. Please ensure it's a valid .docx file.".

(** What [handleFileUpload] shows for a document with [n] changes. *)
Definition loaded_toast (n : nat) : toast :=
  toast_success (lit "Document loaded with " ++ string_of_nat n ++ lit " changes detected").

Definition process_failed_toast : toast :=
  toast_error (lit "Failed to process document: " ++ parse_error).

Definition uploaded_toast : toast := toast_success (lit "Document uploaded successfully!").

(** The page before anything is uploaded. *)
Definition initial_ui : UI :=
  {| documentState := None; isUploading := false; uploadedFile := None;
     newSuggestion := []; newComment := []; zoom := 100%Z; isEditing := false;
     toasts := [] |}.

(** A file with the right name that mammoth cannot convert. *)
Definition unconvertible_docx : File :=
  {| name := lit "notes.docx"; file_lastModified := 1699999999000%Z;
     convertToHtml := fun _ => inl (lit "Could not find main document part");
     loadAsync := inl (lit "Can't find end of central directory") |}.

(** ** The review page: work on a loaded document *)

(** What the user can do on a loaded document, with the handlers as
    [Index] wires them to the components.  (The page offers the two submit
    buttons and the resolve button for the selected, unresolved change
    only; the handlers themselves do not look at that.) *)
Inductive action :=
| Select (changeId : jsstring)
| TypeSuggestion (value : jsstring)
| TypeComment (value : jsstring)
| SubmitSuggestion (changeId : jsstring)
| SubmitComment (changeId : jsstring)
| Resolve (changeId : jsstring)
| Edit (newContent : jsstring)
| ZoomIn
| ZoomOut
| Refresh.

Definition perform (W : World) (a : action) : Eff unit :=
  match a with
  | Select changeId => handleChangeSelect changeId
  | TypeSuggestion value => update (setNewSuggestion value)
  | TypeComment value => update (setNewComment value)
  | SubmitSuggestion changeId => handleSuggestionSubmit handleSuggestionAdd changeId
  | SubmitComment changeId => handleCommentSubmit (handleCommentAdd W) changeId
  | Resolve changeId => handleChangeResolve changeId
  | Edit newContent => handleContentChange newContent
  | ZoomIn => handleZoomIn
  | ZoomOut => handleZoomOut
  | Refresh => handleRefresh
  end.

Fixpoint session (W : World) (l : list action) : Eff unit :=
  match l with
  | [] => eret tt
  | a :: l' => ebind (perform W a) (fun _ => session W l')
  end.

(** [c'] is [c] with more suggestions, and resolved if [c] is: everything
    the parser extracted is as it was. *)
Definition change_evolves (c c' : RedlineChange) : Prop :=
  id c' = id c /\ type c' = type c /\ text c' = text c /\
  originalText c' = originalText c /\ author c' = author c /\
  timestamp c' = timestamp c /\ location c' = location c /\ comment c' = comment c /\
  (exists more, suggestions_or_empty c' = suggestions_or_empty c ++ more) /\
  (unresolved c = false -> unresolved c' = false).

(** [ds'] is [ds] with the same metadata and original content, the same
    changes in the same order up to suggestions and resolution, and more
    collaboration comments. *)
Definition evolves (ds ds' : DocumentState.t) : Prop :=
  DocumentState.metadata ds' = DocumentState.metadata ds /\
  DocumentState.originalContent ds' = DocumentState.originalContent ds /\
  Forall2 change_evolves (DocumentState.changes ds) (DocumentState.changes ds') /\
  exists more,
    DocumentState.collaborationComments ds'
    = DocumentState.collaborationComments ds ++ more.

Definition ui_evolves (ui ui' : UI) : Prop :=
  match documentState ui, documentState ui' with
  | Some ds, Some ds' => evolves ds ds'
  | None, None => True
  | _, _ => False
  end.

(** No suggestion and no collaboration comment of the document is white
    space only. *)
Definition no_blank_text (ui : UI) : Prop :=
  match documentState ui with
  | Some ds =>
      Forall (fun c => Forall (fun s => blank s = false) (suggestions_or_empty c))
             (DocumentState.changes ds) /\
      Forall (fun c => blank (CollaborationComment.content c) = false)
             (DocumentState.collaborationComments ds)
  | None => True
  end.

(** The zoom is a multiple of ten between 50 and 200 per cent. *)
Definition zoom_in_range (z : Z) : Prop :=
  (50 <= z <= 200)%Z /\ exists k, z = (10 * k)%Z.

(** A page that shows the changes of [Samples.marked_document]. *)
Definition loaded_ui : UI :=
  snd (fst (handleFileUpload Samples.world Samples.marked_document initial_ui initial)).

(** A step of a session: it completes, the document evolves, and the
    parser is not called. *)
Definition steps (m : Eff unit) : Prop :=
  forall ui st, exists ui' st',
    m ui st = (Ok tt, ui', st') /\ ui_evolves ui ui' /\
    conversions st' = conversions st /\ st_changes st' = st_changes st.

(** [m] keeps the property [I] of the interface, whether it completes or
    raises. *)
Definition keeps (I : UI -> Prop) (m : Eff unit) : Prop :=
  forall ui st, I ui -> I (snd (fst (m ui st))).

(** The page after a handler ran. *)
Definition page_after (r : result unit * UI * State) : UI := snd (fst r).

(** ** Occurrences of the bracket expressions *)

(** What a group [(.+?)] can capture: at least one code unit, none of them
    a line terminator. *)
Definition capturable (g : jsstring) : Prop := g <> [] /\ Forall dot g.

(** An expression [[Added: X]] stands at position [j] of [content]. *)
Definition added_at (content : jsstring) (j : nat) : Prop :=
  exists pre x post,
    content = pre ++ lit "[Added: " ++ x ++ lit "]" ++ post /\
    length pre = j /\ capturable x.

(** An expression [[Deleted: X]] stands at position [j] of [content]. *)
Definition deleted_at (content : jsstring) (j : nat) : Prop :=
  exists pre x post,
    content = pre ++ lit "[Deleted: " ++ x ++ lit "]" ++ post /\
    length pre = j /\ capturable x.

(** An expression [[Modified: X -> Y]] stands at position [j] of
    [content]. *)
Definition modified_at (content : jsstring) (j : nat) : Prop :=
  exists pre x y post,
    content = pre ++ lit "[Modified: " ++ x ++ lit " -> " ++ y ++ lit "]" ++ post /\
    length pre = j /\ capturable x /\ capturable y.

(** Position [j] lies in the span of one of the changes [l]. *)
Definition covered (l : list RedlineChange) (j : nat) : Prop :=
  exists c, In c l /\ start (location c) <= j < end_ (location c).

(** A text that some pattern matches with some captures stands at position
    [j] of [content]. *)
Definition occurs (re : regex) (content : jsstring) (j : nat) : Prop :=
  exists pre gs rest,
    content = pre ++ render re gs ++ rest /\ length pre = j /\
    length gs = num_groups re /\ Forall capturable gs.

(** A text with annotations of the three kinds, not in the order of the
    kinds. *)
Definition annotated_text : jsstring :=
  lit "[Deleted: a] x [Modified: b -> c] [Added: d] [Added: e]".

(** ** What the passes of the DOM variant read *)

(** The author attribute a pass of the DOM variant reads: [w:author] or
    else [author] in the passes over the elements a selector matches
    ([both]), [w:author] alone in the pass over the tag names.  [None]: the
    attribute is absent or empty. *)
Definition dom_author_attr (both : bool) (element : Dom.Node) : option jsstring :=
  Dom.truthy_attr
    (if both then Dom.or_else (Dom.getAttribute element (lit "w:author"))
                              (Dom.getAttribute element (lit "author"))
     else Dom.getAttribute element (lit "w:author")).

(** The date attribute a pass of the DOM variant reads. *)
Definition dom_date_attr (both : bool) (element : Dom.Node) : option jsstring :=
  Dom.truthy_attr
    (if both then Dom.or_else (Dom.getAttribute element (lit "w:date"))
                              (Dom.getAttribute element (lit "date"))
     else Dom.getAttribute element (lit "w:date")).

(** [c] is the change of kind [kind] a pass emits for [element]: it carries
    the trimmed text content of the element, the author and the date the
    pass reads from the element, or else "Unknown" and a reading of the
    clock taken between the readings [lo] and [hi]. *)
Definition dom_emitted (W : World) (both : bool) (kind : ChangeType) (lo hi : nat)
           (element : Dom.Node) (c : RedlineChange) : Prop :=
  exists k, lo <= k < hi /\
            reads W kind (trim (Dom.textContent element))
                  (dom_author_attr both element) (dom_date_attr both element) k c.

(** The timestamp of the change [c] of kind [kind] a pass emits for
    [element]: the parsed date attribute when it is present and parseable,
    an invalid date when it is present and not parseable, a reading of the
    clock taken between the readings [lo] and [hi] when it is absent or
    empty. *)
Definition dom_stamped (W : World) (both : bool) (kind : ChangeType) (lo hi : nat)
           (element : Dom.Node) (c : RedlineChange) : Prop :=
  type c = kind /\ recovered c = trim (Dom.textContent element) /\
  match dom_date_attr both element with
  | Some d => match Date_parse W d with
              | Some ms => timestamp c = TimeValue ms
              | None => timestamp c = InvalidDate
              end
  | None => exists k, lo <= k < hi /\ timestamp c = TimeValue (clock W k)
  end.

(** [c] is a change of kind [kind] with the text recovered below the xml2js
    value [element]. *)
Definition recognized (kind : ChangeType) (element : JsValue) (c : RedlineChange) : Prop :=
  type c = kind /\ recovered c = extractTextFromElement element.

(** The insertion and the deletion of [sample_dom]. *)
Definition sample_dom_insertion : Dom.Node :=
  Dom.Element (Some (lit "w")) (lit "ins")
    [(lit "author", lit "Ann"); (lit "date", lit "2024-01-15T10:30:00Z")]
    [Dom.Element (Some (lit "w")) (lit "r") []
       [Dom.Element (Some (lit "w")) (lit "t") [] [Dom.Text (lit "new fee")]]].

Definition sample_dom_deletion : Dom.Node :=
  Dom.Element None (lit "del") [(lit "w:date", lit "not a date")]
    [Dom.Text (lit "old fee")].

(** ** Values of the configured parser *)

(** No object of the value has a property [$]: [parseXMLPromise] configures
    the parser with [mergeAttrs: true], which stores the attributes of an
    element among the properties of the element and builds no [$] object
    (and [$] is no name of an XML element or attribute). *)
Fixpoint attr_free (v : JsValue) : bool :=
  match v with
  | JString _ => true
  | JArray items => forallb attr_free items
  | JObject props =>
      negb (existsb (fun p => jsstring_eqb (fst p) (lit "$")) props) &&
      forallb (fun p => attr_free (snd p)) props
  end.

(** A change with the author "Unknown" and a reading of the clock, taken
    between the readings [lo] and [hi], as its timestamp. *)
Definition unattributed (W : World) (lo hi : nat) (c : RedlineChange) : Prop :=
  author c = lit "Unknown" /\
  exists k, lo <= k < hi /\ timestamp c = TimeValue (clock W k).

(** * Properties *)

(** ** Induction over xml2js values *)

Lemma JsValue_ind (P : JsValue -> Prop) :
  (forall s, P (JString s)) ->
  (forall items, Forall P items -> P (JArray items)) ->
  (forall props, Forall (fun p => P (snd p)) props -> P (JObject props)) ->
  forall v, P v.
Proof.
  intros Hs Ha Ho. fix IH 1. intros [s|items|props].
  - apply Hs.
  - apply Ha. induction items as [|v items IHi]; constructor; [apply IH | exact IHi].
  - apply Ho. induction props as [|[k v] props IHp]; constructor; [apply IH | exact IHp].
Qed.

(** ** The monad *)

Lemma bind_ext {A B} (m : M A) (k k' : A -> M B) st :
  (forall a st', k a st' = k' a st') -> bind m k st = bind m k' st.
Proof.
  intros H. unfold bind. destruct (m st) as [[a|e] st']; [apply H | reflexivity].
Qed.

Lemma bind_assoc {A B C} (m : M A) (k : A -> M B) (h : B -> M C) st :
  bind (bind m k) h st = bind m (fun a => bind (k a) h) st.
Proof.
  unfold bind. destruct (m st) as [[a|e] st']; reflexivity.
Qed.

Lemma forEach_cons {A} (a : A) l cb :
  forEach (a :: l) cb = bind (cb a) (fun _ => forEach l cb).
Proof. reflexivity. Qed.

Lemma forEach_app {A} (l1 l2 : list A) cb : forall st,
  forEach (l1 ++ l2) cb st = bind (forEach l1 cb) (fun _ => forEach l2 cb) st.
Proof.
  induction l1 as [|a l1 IH]; intros st.
  - reflexivity.
  - simpl app. rewrite !forEach_cons, bind_assoc. apply bind_ext. intros _ st'. apply IH.
Qed.

Lemma forEach_ext {A} (l : list A) cb cb' :
  (forall a, In a l -> forall st, cb a st = cb' a st) ->
  forall st, forEach l cb st = forEach l cb' st.
Proof.
  induction l as [|a l IH]; intros H st.
  - reflexivity.
  - rewrite !forEach_cons. unfold bind. rewrite (H a (or_introl eq_refl)).
    destruct (cb' a st) as [[u|e] st']; [|reflexivity].
    apply IH. intros b Hb. apply H. right. exact Hb.
Qed.

Lemma forEach_flat_map {A B} (f : A -> list B) (l : list A) cb : forall st,
  forEach (flat_map f l) cb st = forEach l (fun a => forEach (f a) cb) st.
Proof.
  induction l as [|a l IH]; intros st.
  - reflexivity.
  - simpl flat_map. rewrite forEach_app, forEach_cons. apply bind_ext. intros _ st'. apply IH.
Qed.

(** ** The elements a search visits *)

(** The search calls [callback] on the elements of [tagged], in order. *)
Lemma findElementsRecursive_tagged tagName cb : forall obj st,
  findElementsRecursive obj tagName cb st = forEach (tagged tagName obj) cb st.
Proof.
  induction obj as [s|items IH|props IH] using JsValue_ind; intros st.
  - reflexivity.
  - simpl. rewrite forEach_flat_map. apply forEach_ext.
    intros v Hv st'. rewrite Forall_forall in IH. apply IH. exact Hv.
  - simpl findElementsRecursive. simpl tagged.
    rewrite forEach_app.
    destruct (get_truthy (JObject props) tagName) as [found|].
    + apply bind_ext. intros _ st'. rewrite forEach_flat_map. apply forEach_ext.
      intros p Hp st''. rewrite Forall_forall in IH. apply IH. exact Hp.
    + apply bind_ext. intros _ st'. rewrite forEach_flat_map. apply forEach_ext.
      intros p Hp st''. rewrite Forall_forall in IH. apply IH. exact Hp.
Qed.

(** ** A frame for the extraction steps *)

Create HintDb frame.

Section Frame.

Variable P : RedlineChange -> Prop.

Lemma extends_refl st : extends P st st.
Proof.
  split; [exists [] | reflexivity | exists [] | apply le_n]; rewrite app_nil_r; auto.
Qed.

Lemma extends_trans st1 st2 st3 :
  extends P st1 st2 -> extends P st2 st3 -> extends P st1 st3.
Proof.
  intros [[n1 [E1 F1]] C1 [t1 [T1 G1]] L1] [[n2 [E2 F2]] C2 [t2 [T2 G2]] L2]. split.
  - exists (n1 ++ n2). rewrite E2, E1, app_assoc. split; [reflexivity|].
    apply Forall_app; auto.
  - congruence.
  - exists (t1 ++ t2). rewrite T2, T1, app_assoc. split; [reflexivity|].
    apply Forall_app; auto.
  - lia.
Qed.

Lemma preserves_ret {A} (a : A) : preserves P (ret a).
Proof. intros st. apply extends_refl. Qed.

Lemma preserves_throw {A} e : preserves P (@throw A e).
Proof. intros st. apply extends_refl. Qed.

Lemma preserves_bind {A B} (m : M A) (k : A -> M B) :
  preserves P m -> (forall a, preserves P (k a)) -> preserves P (bind m k).
Proof.
  intros Hm Hk st. specialize (Hm st). unfold bind.
  destruct (m st) as [[a|e] st']; simpl in *; [|exact Hm].
  eapply extends_trans; [exact Hm | apply Hk].
Qed.

Lemma preserves_try_catch {A} (body : M A) handler :
  preserves P body -> (forall e, preserves P (handler e)) ->
  preserves P (try_catch body handler).
Proof.
  intros Hm Hk st. specialize (Hm st). unfold try_catch.
  destruct (body st) as [[a|e] st']; simpl in *; [exact Hm|].
  eapply extends_trans; [exact Hm | apply Hk].
Qed.

Lemma preserves_forEach {A} (l : list A) cb :
  (forall a, In a l -> preserves P (cb a)) -> preserves P (forEach l cb).
Proof.
  induction l as [|a l IH]; intros H.
  - apply preserves_ret.
  - rewrite forEach_cons. apply preserves_bind.
    + apply H. left. reflexivity.
    + intros _. apply IH. intros b Hb. apply H. right. exact Hb.
Qed.

Lemma preserves_await {A} (p : exn + A) : preserves P (await p).
Proof. destruct p; [apply preserves_throw | apply preserves_ret]. Qed.

Lemma preserves_emit e : is_console e -> preserves P (emit e).
Proof.
  intros He st. split; simpl; [exists [] | reflexivity | exists [e] | apply le_n];
    rewrite ?app_nil_r; auto.
Qed.

Lemma preserves_push c : P c -> preserves P (push c).
Proof.
  intros Hc st. split; simpl; [exists [c] | reflexivity | exists [] | apply le_n];
    rewrite ?app_nil_r; auto.
Qed.

Lemma preserves_get_changes : preserves P get_changes.
Proof. intros st. apply extends_refl. Qed.

Lemma preserves_Date_now W : preserves P (Date_now W).
Proof.
  intros st. split; simpl; [exists [] | reflexivity | exists [] | lia];
    rewrite ?app_nil_r; auto.
Qed.

Lemma preserves_Math_random W : preserves P (Math_random W).
Proof.
  intros st. split; simpl; [exists [] | reflexivity | exists [] | lia];
    rewrite ?app_nil_r; auto.
Qed.

Lemma preserves_new_Date W : preserves P (new_Date W).
Proof.
  apply preserves_bind; [apply preserves_Date_now | intros; apply preserves_ret].
Qed.

End Frame.

Lemma never_throws_ret {A} (a : A) : never_throws (ret a).
Proof. intros st. exists a. reflexivity. Qed.

Lemma never_throws_bind {A B} (m : M A) (k : A -> M B) :
  never_throws m -> (forall a, never_throws (k a)) -> never_throws (bind m k).
Proof.
  intros Hm Hk st. destruct (Hm st) as [a Ha]. unfold bind.
  destruct (m st) as [[a'|e] st']; simpl in Ha; [|discriminate].
  apply Hk.
Qed.

Lemma never_throws_try_catch {A} (body : M A) handler :
  (forall e, never_throws (handler e)) -> never_throws (try_catch body handler).
Proof.
  intros Hk st. unfold try_catch.
  destruct (body st) as [[a|e] st']; [exists a; reflexivity | apply Hk].
Qed.

Lemma never_throws_forEach {A} (l : list A) cb :
  (forall a, never_throws (cb a)) -> never_throws (forEach l cb).
Proof.
  intros H. induction l as [|a l IH].
  - apply never_throws_ret.
  - rewrite forEach_cons. apply never_throws_bind; [apply H | intros _; exact IH].
Qed.

Lemma never_throws_emit e : never_throws (emit e).
Proof. intros st. exists tt. reflexivity. Qed.

Lemma never_throws_push c : never_throws (push c).
Proof. intros st. exists tt. reflexivity. Qed.

Lemma never_throws_get_changes : never_throws get_changes.
Proof. intros st. eexists. reflexivity. Qed.

Lemma never_throws_Date_now W : never_throws (Date_now W).
Proof. intros st. eexists. reflexivity. Qed.

Lemma never_throws_Math_random W : never_throws (Math_random W).
Proof. intros st. eexists. reflexivity. Qed.

Lemma never_throws_new_Date W : never_throws (new_Date W).
Proof.
  apply never_throws_bind; [apply never_throws_Date_now | intros; apply never_throws_ret].
Qed.

#[export] Hint Resolve preserves_ret preserves_throw preserves_await preserves_get_changes
  preserves_Date_now preserves_Math_random preserves_new_Date
  never_throws_ret never_throws_emit never_throws_push never_throws_get_changes
  never_throws_Date_now never_throws_Math_random never_throws_new_Date : frame.

(** Break a monadic program into its steps. *)
Ltac frame_step :=
  match goal with
  | |- preserves _ (bind _ _) => apply preserves_bind; [|intros ?]
  | |- preserves _ (try_catch _ _) => apply preserves_try_catch; [|intros ?]
  | |- preserves _ (forEach _ _) => apply preserves_forEach; intros ? ?
  | |- preserves _ (emit _) => apply preserves_emit; exact I
  | |- preserves _ (match ?x with _ => _ end) => destruct x
  | |- preserves _ (if ?x then _ else _) => destruct x
  | |- never_throws (bind _ _) => apply never_throws_bind; [|intros ?]
  | |- never_throws (try_catch _ _) => apply never_throws_try_catch; intros ?
  | |- never_throws (forEach _ _) => apply never_throws_forEach; intros ?
  | |- never_throws (match ?x with _ => _ end) => destruct x
  | |- never_throws (if ?x then _ else _) => destruct x
  | |- _ => solve [auto with frame]
  end.

Ltac frame := repeat frame_step.

(** ** Regular expression matching *)

Lemma strip_prefix_app l : forall s rest,
  strip_prefix l s = Some rest -> s = l ++ rest.
Proof.
  induction l as [|a l IH]; intros [|b s] rest H; simpl in H;
    try discriminate; try (injection H as <-; reflexivity).
  destruct (Ascii.eqb_spec a b) as [<-|]; [|discriminate].
  simpl. f_equal. apply IH. exact H.
Qed.

Lemma firstn_add {A} (a b : nat) : forall (s : list A),
  firstn (a + b) s = firstn a s ++ firstn b (skipn a s).
Proof.
  induction a as [|a IH]; intros [|c s]; simpl; try reflexivity.
  - rewrite firstn_nil. reflexivity.
  - rewrite IH. reflexivity.
Qed.

Lemma lazy_group_sound k : forall s taken gs n,
  lazy_group k s taken = Some (gs, n) ->
  exists g gs' m,
    gs = (taken ++ g) :: gs' /\ g <> [] /\ Forall dot g /\
    n = length taken + length g + m /\
    firstn (length g) s = g /\ k (skipn (length g) s) = Some (gs', m).
Proof.
  induction s as [|c s IH]; intros taken gs n H; simpl in H; [discriminate|].
  destruct (is_line_terminator c) eqn:Ec; [discriminate|].
  destruct (k s) as [[gs' m]|] eqn:Ek.
  - injection H as <- <-. exists [c], gs', m. simpl. repeat split; auto; try lia.
    discriminate.
  - apply IH in H. destruct H as (g & gs' & m & -> & Hg & Hd & -> & Hf & Hk).
    exists (c :: g), gs', m. rewrite <- app_assoc. simpl.
    split; [reflexivity|]. split; [discriminate|].
    split; [constructor; assumption|].
    split; [rewrite length_app; simpl; lia|].
    split; [rewrite Hf; reflexivity | exact Hk].
Qed.

Lemma match_here_sound re : forall s gs n,
  match_here re s = Some (gs, n) ->
  firstn n s = render re gs /\ length gs = num_groups re /\
  Forall (fun g => g <> [] /\ Forall dot g) gs /\ min_length re <= n.
Proof.
  induction re as [|t re IH]; intros s gs n H; simpl in H.
  - injection H as <- <-. simpl. repeat split; auto.
  - destruct t as [l|].
    + destruct (strip_prefix l s) as [rest|] eqn:E; [|discriminate].
      destruct (match_here re rest) as [[gs' n']|] eqn:E'; [|discriminate].
      injection H as <- <-. apply strip_prefix_app in E. subst s.
      apply IH in E'. destruct E' as (Hf & Hl & Hg & Hm). simpl.
      rewrite firstn_app_2, Hf. repeat split; auto. lia.
    + apply lazy_group_sound in H.
      destruct H as (g & gs' & m & -> & Hg & Hd & -> & Hf & Hk).
      apply IH in Hk. destruct Hk as (Hf' & Hl & Hgs & Hm). simpl.
      split; [rewrite firstn_add, Hf, Hf'; reflexivity|].
      split; [congruence|]. split.
      * constructor; [split; assumption | exact Hgs].
      * destruct g; [contradiction | simpl; lia].
Qed.

Lemma search_sound re : forall s pos m,
  search re s pos = Some m ->
  exists k, index m = pos + k /\
            match_here re (skipn k s) = Some (groups m, length (whole m)) /\
            firstn (length (whole m)) (skipn k s) = whole m.
Proof.
  induction s as [|c s IH]; intros pos m H; simpl in H.
  - destruct (match_here re []) as [[gs n]|] eqn:E; [|discriminate].
    injection H as <-. exists 0. simpl. rewrite firstn_nil. simpl.
    pose proof (match_here_bound _ _ E) as Hn. simpl in Hn.
    assert (n = 0) by lia. subst n. auto using Nat.add_0_r.
  - destruct (match_here re (c :: s)) as [[gs n]|] eqn:E.
    + injection H as <-. exists 0. simpl index. simpl whole. simpl groups.
      pose proof (match_here_bound _ _ E) as Hn.
      rewrite skipn_0, length_firstn, Nat.min_l by exact Hn.
      auto using Nat.add_0_r.
    + apply IH in H. destruct H as (k & Hi & Hm & Hf).
      exists (S k). simpl. split; [lia | auto].
Qed.

Lemma exec_sound re content i m :
  exec re content i = Some m -> is_match re content m.
Proof.
  unfold exec. destruct (length content <? i); [discriminate|].
  intros H. apply search_sound in H. destruct H as (k & Hi & Hm & Hf).
  rewrite skipn_skipn in Hm, Hf. rewrite Nat.add_comm in Hi.
  rewrite <- Hi in Hm, Hf. split; assumption.
Qed.

Lemma exec_progress re content i m :
  0 < min_length re -> exec re content i = Some m -> i < lastIndex_after m.
Proof.
  intros Hre H. pose proof (exec_bound _ _ _ H) as [Hi _].
  apply exec_sound in H. destruct H as [H _].
  apply match_here_sound in H. unfold lastIndex_after. lia.
Qed.

(** For a pattern without empty matches, [exec_all] is the loop. *)
Lemma exec_all_loop re content i :
  0 < min_length re ->
  exec_all re content i =
  match exec re content i with
  | None => []
  | Some m => m :: exec_all re content (lastIndex_after m)
  end.
Proof.
  intros Hre. funelim (exec_all re content i).
  - match goal with Hn : exec _ _ _ = None |- _ => rewrite Hn end. reflexivity.
  - match goal with Hs : exec _ _ _ = Some _ |- _ => rewrite Hs end. reflexivity.
  - match goal with
    | Hs : exec _ _ _ = Some _, Hn : ~ _ < _ |- _ =>
        exfalso; apply Hn; eapply exec_progress; [exact Hre | exact Hs]
    end.
Qed.

Lemma exec_all_matches re content i :
  Forall (is_match re content) (exec_all re content i) /\
  in_scan_order i (exec_all re content i).
Proof.
  funelim (exec_all re content i); simpl; auto.
  match goal with
  | IH : Forall _ _ /\ in_scan_order _ _, Hs : exec _ _ _ = Some _ |- _ =>
      destruct IH as [HF HS]; split;
      [ constructor; [eapply exec_sound; exact Hs | exact HF]
      | split; [eapply exec_bound; exact Hs | exact HS] ]
  end.
Qed.

Lemma search_leftmost re : forall s pos,
  match search re s pos with
  | Some m => forall j, j < index m - pos -> match_here re (skipn j s) = None
  | None => forall j, j <= length s -> match_here re (skipn j s) = None
  end.
Proof.
  induction s as [|c s IH]; intros pos; simpl.
  - destruct (match_here re []) as [[gs n]|] eqn:E; simpl.
    + intros j Hj. lia.
    + intros j Hj. rewrite skipn_nil. exact E.
  - destruct (match_here re (c :: s)) as [[gs n]|] eqn:E; simpl.
    + intros j Hj. lia.
    + specialize (IH (S pos)). destruct (search re s (S pos)) as [m|] eqn:Es.
      * pose proof (search_bound _ _ _ Es) as [Hpos _].
        intros [|j] Hj; [exact E|]. simpl. apply IH. lia.
      * intros [|j] Hj; [exact E|]. simpl. apply IH. lia.
Qed.

Lemma exec_leftmost re content i :
  i <= length content ->
  match exec re content i with
  | Some m => forall j, i <= j < index m -> match_here re (skipn j content) = None
  | None => forall j, i <= j <= length content -> match_here re (skipn j content) = None
  end.
Proof.
  intros Hi. unfold exec. destruct (length content <? i) eqn:E.
  - apply Nat.ltb_lt in E. lia.
  - pose proof (search_leftmost re (skipn i content) i) as H.
    destruct (search re (skipn i content) i) as [m|].
    + intros j Hj. replace j with ((j - i) + i) by lia. rewrite <- skipn_skipn.
      apply H. lia.
    + intros j Hj. replace j with ((j - i) + i) by lia. rewrite <- skipn_skipn.
      apply H. rewrite length_skipn. lia.
Qed.

Lemma exec_all_complete re txt i :
  0 < min_length re -> i <= length txt ->
  nothing_skipped re txt i (exec_all re txt i).
Proof.
  intros Hre. funelim (exec_all re txt i); intros Hi; simpl.
  - match goal with
    | Hn : exec _ _ _ = None |- _ =>
        pose proof (exec_leftmost re _ Hi) as Hl; rewrite Hn in Hl; exact Hl
    end.
  - match goal with
    | Hs : exec _ _ _ = Some _, IH : _ -> _ -> nothing_skipped _ _ _ _ |- _ =>
        pose proof (exec_leftmost re _ Hi) as Hl; rewrite Hs in Hl;
        split; [exact Hl | apply IH; [exact Hre | eapply exec_bound; exact Hs]]
    end.
  - match goal with
    | Hs : exec _ _ _ = Some _, Hn : ~ _ < _ |- _ =>
        exfalso; apply Hn; eapply exec_progress; [exact Hre | exact Hs]
    end.
Qed.

(** ** The fallback extractor in closed form *)

Section Fallback.

Variable W : World.

Lemma push_matches_eq mk : forall ms acc idx st,
  push_matches W mk ms (acc, idx) st =
  (Ok (acc ++ stamp W mk ms idx (clock_reads st), idx + length ms),
   advance (length ms) st).
Proof.
  induction ms as [|m ms IH]; intros acc idx st.
  - simpl. unfold ret, advance. rewrite app_nil_r, !Nat.add_0_r.
    destruct st; reflexivity.
  - simpl push_matches. unfold new_Date, bind, Date_now, ret. simpl fst. simpl snd.
    rewrite IH. simpl. rewrite <- app_assoc. simpl. unfold advance. simpl.
    rewrite <- !plus_n_Sm. reflexivity.
Qed.

Lemma parseAlternativeTrackChanges_eq content st :
  let A := exec_all addedPattern content 0 in
  let D := exec_all deletedPattern content 0 in
  let C := exec_all modifiedPattern content 0 in
  let t := clock_reads st in
  parseAlternativeTrackChanges W content st =
  (Ok (stamp W alt_added A 0 t
       ++ stamp W alt_deleted D (length A) (t + length A)
       ++ stamp W alt_modified C (length A + length D) (t + length A + length D)),
   advance (length A + length D + length C) (logged (fallback_scan content) st)).
Proof.
  intros A D C t. unfold parseAlternativeTrackChanges.
  unfold bind at 1. unfold emit at 1.
  unfold bind at 1. rewrite push_matches_eq. fold A.
  unfold bind at 1. rewrite push_matches_eq. fold D.
  unfold bind at 1. rewrite push_matches_eq. fold C.
  unfold ret. simpl. rewrite <- app_assoc. unfold advance, logged. simpl.
  f_equal. f_equal. lia.
Qed.

Lemma stamp_Forall2 mk (R : RedlineChange -> Match -> Prop) :
  (forall idx m now, R (mk idx m now) m) ->
  forall ms idx tick, Forall2 R (stamp W mk ms idx tick) ms.
Proof.
  intros H. induction ms as [|m ms IH]; intros idx tick; simpl; constructor; auto.
Qed.

End Fallback.

(** ** Fallback extraction: order, author and span of the changes *)

Lemma is_match_one_group re content m :
  num_groups re = 1 -> is_match re content m ->
  exists x, groups m = [x] /\ x <> [] /\ whole m = render re [x].
Proof.
  intros Hn [Hm Hw]. apply match_here_sound in Hm.
  destruct Hm as (Hf & Hl & Hg & _). rewrite Hn in Hl.
  destruct (groups m) as [|x [|y gs]]; try discriminate.
  exists x. inversion Hg as [|? ? [Hx _] _]; subst. repeat split; auto. congruence.
Qed.

Lemma is_match_two_groups re content m :
  num_groups re = 2 -> is_match re content m ->
  exists x y, groups m = [x; y] /\ x <> [] /\ y <> [] /\ whole m = render re [x; y].
Proof.
  intros Hn [Hm Hw]. apply match_here_sound in Hm.
  destruct Hm as (Hf & Hl & Hg & _). rewrite Hn in Hl.
  destruct (groups m) as [|x [|y [|z gs]]]; try discriminate.
  exists x, y. inversion Hg as [|? ? [Hx _] Hg']; subst.
  inversion Hg' as [|? ? [Hy _] _]; subst. repeat split; auto. congruence.
Qed.

Lemma is_match_positive re content m :
  0 < min_length re -> is_match re content m -> 0 < length (whole m).
Proof.
  intros Hre [Hm _]. apply match_here_sound in Hm. lia.
Qed.

Lemma substring_span content m :
  substring content (index m) (index m + length (whole m))
  = firstn (length (whole m)) (skipn (index m) content).
Proof.
  unfold substring. f_equal. lia.
Qed.

Lemma alt_added_span content idx m now :
  is_match addedPattern content m -> literal_span content (alt_added idx m now).
Proof.
  intros Hm. destruct (is_match_one_group (re := addedPattern) eq_refl Hm)
    as (x & Hg & Hx & Hw).
  destruct Hm as [_ Hf]. unfold literal_span, bracketed. simpl.
  unfold capture. rewrite Hg. simpl nth. rewrite substring_span, Hf, Hw.
  split; reflexivity.
Qed.

Lemma alt_deleted_span content idx m now :
  is_match deletedPattern content m -> literal_span content (alt_deleted idx m now).
Proof.
  intros Hm. destruct (is_match_one_group (re := deletedPattern) eq_refl Hm)
    as (x & Hg & Hx & Hw).
  destruct Hm as [_ Hf]. unfold literal_span, bracketed. simpl.
  unfold capture. rewrite Hg. simpl nth. rewrite substring_span, Hf, Hw.
  split; reflexivity.
Qed.

Lemma alt_modified_span content idx m now :
  is_match modifiedPattern content m -> literal_span content (alt_modified idx m now).
Proof.
  intros Hm. destruct (is_match_two_groups (re := modifiedPattern) eq_refl Hm)
    as (x & y & Hg & Hx & Hy & Hw).
  destruct Hm as [_ Hf]. unfold literal_span, bracketed. simpl.
  unfold capture. rewrite Hg. simpl nth. rewrite substring_span, Hf, Hw.
  split; reflexivity.
Qed.

Lemma stamp_Forall W mk (Q : Match -> Prop) (R : RedlineChange -> Prop) :
  (forall idx m now, Q m -> R (mk idx m now)) ->
  forall ms idx tick, Forall Q ms -> Forall R (stamp W mk ms idx tick).
Proof.
  intros H. induction ms as [|m ms IH]; intros idx tick HQ; simpl; constructor;
    inversion HQ; subst; auto.
Qed.

Lemma stamp_in_order W mk re content :
  0 < min_length re ->
  (forall idx m now, location (mk idx m now) = span m) ->
  forall ms i idx tick,
    Forall (is_match re content) ms -> in_scan_order i ms ->
    spans_in_order i (stamp W mk ms idx tick).
Proof.
  intros Hre Hloc. induction ms as [|m ms IH]; intros i idx tick HF HS; simpl; auto.
  inversion HF as [|? ? Hm HF']; subst. destruct HS as [Hi HS].
  rewrite Hloc. simpl. pose proof (is_match_positive Hre Hm).
  split; [exact Hi|]. split; [lia|]. apply IH; assumption.
Qed.

Lemma addedPattern_progress : 0 < min_length addedPattern.
Proof. simpl. lia. Qed.

Lemma deletedPattern_progress : 0 < min_length deletedPattern.
Proof. simpl. lia. Qed.

Lemma modifiedPattern_progress : 0 < min_length modifiedPattern.
Proof. simpl. lia. Qed.

(** ** What the extractors push *)

Section Extractors.

Variable W : World.
Variable P : RedlineChange -> Prop.

Lemma date_of_preserves element : preserves P (date_of W element).
Proof. unfold date_of. frame. Qed.

Lemma date_of_never_throws element : never_throws (date_of W element).
Proof. unfold date_of. frame. Qed.

Lemma on_insertion_preserves element :
  (forall c, insertion_change c -> P c) -> preserves P (on_insertion W element).
Proof.
  intros HP. unfold on_insertion.
  apply preserves_bind; [apply date_of_preserves | intros date].
  destruct (extractTextFromElement element) as [|a t] eqn:E; frame.
  apply preserves_push, HP. repeat split. discriminate.
Qed.

Lemma on_deletion_preserves element :
  (forall c, deletion_change c -> P c) -> preserves P (on_deletion W element).
Proof.
  intros HP. unfold on_deletion.
  apply preserves_bind; [apply date_of_preserves | intros date].
  destruct (extractTextFromElement element) as [|a t] eqn:E; frame.
  apply preserves_push, HP. repeat split. simpl. eexists. split; [reflexivity|discriminate].
Qed.

Lemma on_comment_preserves element :
  (forall c, comment_change c -> P c) -> preserves P (on_comment W element).
Proof.
  intros HP. unfold on_comment.
  apply preserves_bind; [apply date_of_preserves | intros date].
  destruct (extractTextFromElement element) as [|a t] eqn:E; frame.
  apply preserves_push, HP. repeat split. discriminate.
Qed.

Lemma callbacks_never_throw element :
  never_throws (on_insertion W element) /\ never_throws (on_deletion W element) /\
  never_throws (on_comment W element).
Proof.
  unfold on_insertion, on_deletion, on_comment.
  repeat split; (apply never_throws_bind; [apply date_of_never_throws | intros date]);
    frame.
Qed.

Lemma findElementsRecursive_preserves obj tagName cb :
  (forall element, preserves P (cb element)) ->
  preserves P (findElementsRecursive obj tagName cb).
Proof.
  intros H st. rewrite findElementsRecursive_tagged.
  apply preserves_forEach. intros; apply H.
Qed.

Lemma extractChangesFromXML_preserves xmlObj :
  (forall c, insertion_change c -> P c) -> (forall c, deletion_change c -> P c) ->
  preserves P (extractChangesFromXML W xmlObj).
Proof.
  intros Hi Hd. unfold extractChangesFromXML. frame.
  - apply findElementsRecursive_preserves. intros. apply on_insertion_preserves, Hi.
  - apply findElementsRecursive_preserves. intros. apply on_deletion_preserves, Hd.
Qed.

Lemma extractCommentsFromXML_preserves xmlObj :
  (forall c, comment_change c -> P c) -> preserves P (extractCommentsFromXML W xmlObj).
Proof.
  intros Hc. unfold extractCommentsFromXML. frame.
  apply on_comment_preserves, Hc.
Qed.

Lemma parseXMLPromise_preserves xml : preserves P (parseXMLPromise W xml).
Proof. unfold parseXMLPromise. frame. Qed.

Lemma entry_text_preserves docxContents entry :
  preserves P (entry_text docxContents entry).
Proof. unfold entry_text. frame. Qed.

Lemma structured_extraction_preserves file :
  (forall c, structured_change c -> P c) ->
  preserves P (structured_extraction W file).
Proof.
  intros HP. unfold structured_extraction.
  apply preserves_bind; [apply preserves_await | intros docxContents].
  apply preserves_bind; [apply entry_text_preserves | intros documentXml].
  destruct documentXml as [[|a xml]|]; try apply preserves_throw.
  apply preserves_bind; [apply parseXMLPromise_preserves | intros parsedXml].
  apply preserves_bind; [|intros _].
  { apply extractChangesFromXML_preserves; intros c Hc; apply HP;
      [left | right; left]; exact Hc. }
  apply preserves_bind; [apply entry_text_preserves | intros commentsXml].
  apply preserves_bind; [|intros _].
  { destruct commentsXml as [[|b cxml]|]; try apply preserves_ret.
    apply preserves_bind; [apply parseXMLPromise_preserves | intros parsedComments].
    apply extractCommentsFromXML_preserves. intros c Hc. apply HP. right; right; exact Hc. }
  frame.
Qed.

End Extractors.

(** ** The orchestrator, case by case *)

Section Orchestrator.

Variable W : World.

Lemma getTextContent_cases file st :
  getTextContent file st =
  match convertToHtml file (conversions st) with
  | inr html => (Ok (html_to_text html), converted st)
  | inl _ => (Ok [], logged (console_warn (lit "Could not extract text content:"))
                            (converted st))
  end.
Proof.
  unfold getTextContent, try_catch, bind, mammoth_convertToHtml.
  destruct (convertToHtml file (conversions st)); reflexivity.
Qed.

Lemma getTextContent_returns file st :
  exists textContent st',
    getTextContent file st = (Ok textContent, st') /\
    st_changes st' = st_changes st /\ conversions st' = S (conversions st).
Proof.
  rewrite getTextContent_cases.
  destruct (convertToHtml file (conversions st)); do 2 eexists; repeat split.
Qed.

Lemma alternative_extraction_eq file st textContent st2 l st3 :
  getTextContent file st = (Ok textContent, st2) ->
  parseAlternativeTrackChanges W textContent st2 = (Ok l, st3) ->
  alternative_extraction W file st =
  (Ok match l with [] => None | _ :: _ => Some l end, st3).
Proof.
  intros Hg Hp. unfold alternative_extraction, try_catch.
  unfold bind at 1. rewrite Hg. unfold bind at 1. rewrite Hp.
  destruct l; reflexivity.
Qed.

Lemma extractTrackChanges_structured file st st1 :
  structured_extraction W file (set_changes [] st) = (Ok tt, st1) ->
  extractTrackChanges W file st = (Ok (st_changes st1), st1).
Proof.
  intros H. unfold extractTrackChanges. unfold bind at 1. unfold new_changes.
  fold (set_changes [] st). unfold bind at 1. unfold extractTrackChanges_try, try_catch.
  unfold bind at 1. rewrite H. reflexivity.
Qed.

Lemma extractTrackChanges_fallback file st e st1 textContent st2 l st3 :
  structured_extraction W file (set_changes [] st) = (Throw e, st1) ->
  getTextContent file (logged extraction_failed st1) = (Ok textContent, st2) ->
  parseAlternativeTrackChanges W textContent st2 = (Ok l, st3) ->
  extractTrackChanges W file st = (Ok l, st3).
Proof.
  intros H Hg Hp. unfold extractTrackChanges. unfold bind at 1. unfold new_changes.
  fold (set_changes [] st). unfold bind at 1. unfold extractTrackChanges_try, try_catch.
  unfold bind at 1. rewrite H.
  unfold bind at 1. unfold emit at 1. fold extraction_failed. fold (logged extraction_failed st1).
  unfold bind at 1. rewrite alternative_extraction_eq with (1 := Hg) (2 := Hp).
  destruct l; reflexivity.
Qed.

(** [extractTrackChanges] always returns: the array of the structured path
    when that path completes, the result of the fallback scan of the
    plain text when it raises. *)
Lemma extractTrackChanges_cases file st :
  (exists st1, structured_extraction W file (set_changes [] st) = (Ok tt, st1) /\
               extractTrackChanges W file st = (Ok (st_changes st1), st1)) \/
  (exists e st1 textContent st2 l st3,
      structured_extraction W file (set_changes [] st) = (Throw e, st1) /\
      getTextContent file (logged extraction_failed st1) = (Ok textContent, st2) /\
      parseAlternativeTrackChanges W textContent st2 = (Ok l, st3) /\
      extractTrackChanges W file st = (Ok l, st3)).
Proof.
  destruct (structured_extraction W file (set_changes [] st)) as [[[]|e] st1] eqn:H.
  - left. exists st1. split; [reflexivity|]. apply extractTrackChanges_structured, H.
  - right.
    destruct (getTextContent_returns file (logged extraction_failed st1))
      as (textContent & st2 & Hg & _).
    pose proof (parseAlternativeTrackChanges_eq W textContent st2) as Hp.
    cbv zeta in Hp.
    do 6 eexists. split; [reflexivity|]. split; [exact Hg|]. split; [exact Hp|].
    eapply extractTrackChanges_fallback; eassumption.
Qed.

End Orchestrator.

(** ** Every change of the engine *)

Lemma alt_added_made content idx m now :
  is_match addedPattern content m -> fallback_made (alt_added idx m now).
Proof.
  intros Hm. destruct (is_match_one_group (re := addedPattern) eq_refl Hm)
    as (x & Hg & Hx & _).
  unfold fallback_made, alt_added, capture. simpl. rewrite Hg. simpl. auto.
Qed.

Lemma alt_deleted_made content idx m now :
  is_match deletedPattern content m -> fallback_made (alt_deleted idx m now).
Proof.
  intros Hm. destruct (is_match_one_group (re := deletedPattern) eq_refl Hm)
    as (x & Hg & Hx & _).
  unfold fallback_made, alt_deleted, capture. simpl. rewrite Hg. simpl.
  repeat split. exists x. auto.
Qed.

Lemma alt_modified_made content idx m now :
  is_match modifiedPattern content m -> fallback_made (alt_modified idx m now).
Proof.
  intros Hm. destruct (is_match_two_groups (re := modifiedPattern) eq_refl Hm)
    as (x & y & Hg & Hx & Hy & _).
  unfold fallback_made, alt_modified, capture. simpl. rewrite Hg. simpl.
  repeat split; auto. exists x. auto.
Qed.

Lemma parseAlternativeTrackChanges_made W content st l st' :
  parseAlternativeTrackChanges W content st = (Ok l, st') -> Forall fallback_made l.
Proof.
  rewrite parseAlternativeTrackChanges_eq. intros H. injection H as <- _.
  destruct (exec_all_matches addedPattern content 0) as [HA _].
  destruct (exec_all_matches deletedPattern content 0) as [HD _].
  destruct (exec_all_matches modifiedPattern content 0) as [HC _].
  apply Forall_app. split; [|apply Forall_app; split].
  - eapply stamp_Forall; [|exact HA]. intros. eapply alt_added_made; eassumption.
  - eapply stamp_Forall; [|exact HD]. intros. eapply alt_deleted_made; eassumption.
  - eapply stamp_Forall; [|exact HC]. intros. eapply alt_modified_made; eassumption.
Qed.

Lemma structured_extraction_changes W file st r st1 :
  structured_extraction W file (set_changes [] st) = (r, st1) ->
  Forall structured_change (st_changes st1).
Proof.
  intros H.
  pose proof (@structured_extraction_preserves W structured_change file
                (fun c Hc => Hc) (set_changes [] st)) as Hext.
  rewrite H in Hext. destruct Hext as [[new [E F]] _ _ _]. simpl in E.
  rewrite E. exact F.
Qed.

(** [extractTrackChanges] never throws, and what it returns was pushed by
    the structured callbacks (when the structured path completes) or made by
    the fallback loops (when it raises). *)
Lemma extractTrackChanges_engine W file st :
  exists l st',
    extractTrackChanges W file st = (Ok l, st') /\
    ((exists st1, structured_extraction W file (set_changes [] st) = (Ok tt, st1)) /\
     Forall structured_change l
     \/
     (exists e st1, structured_extraction W file (set_changes [] st) = (Throw e, st1)) /\
     Forall fallback_made l).
Proof.
  destruct (extractTrackChanges_cases W file st)
    as [(st1 & Hs & He) | (e & st1 & textContent & st2 & l & st3 & Hs & Hg & Hp & He)].
  - exists (st_changes st1), st1. split; [exact He|]. left. split; [eauto|].
    eapply structured_extraction_changes; eassumption.
  - exists l, st3. split; [exact He|]. right. split; [eauto|].
    eapply parseAlternativeTrackChanges_made; eassumption.
Qed.

(** ** C4: the shape of added and deleted changes *)

Lemma engine_change_shape c : engine_change c -> shape_ok c.
Proof.
  unfold shape_ok.
  intros [[(T & H & O & _) | [(T & H & O & _) | (T & _)]] | [H _]].
  - rewrite T. auto.
  - rewrite T. auto.
  - rewrite T. exact I.
  - destruct (type c); auto.
Qed.

(** C4. Every change the engine returns satisfies the shape invariant, on
    the structured and on the fallback path: [extractTrackChanges] always
    returns a list, and in it a change of kind [deleted] has the empty
    [text] and a non-empty [originalText], a change of kind [added] has a
    non-empty [text] and no [originalText]. *)
Theorem returned_changes_have_shape W file st :
  exists l st',
    extractTrackChanges W file st = (Ok l, st') /\ Forall shape_ok l.
Proof.
  destruct (extractTrackChanges_engine W file st) as (l & st' & He & H).
  exists l, st'. split; [exact He|].
  destruct H as [[_ H] | [_ H]]; eapply Forall_impl; try exact H;
    intros c Hc; apply engine_change_shape; [left | right]; exact Hc.
Qed.

(** ** C5: the annotation fields of extracted changes *)

(** C5, as stated, fails: the fallback extractor attaches the note
    "Added content detected" to the change of an [[Added: X]] annotation,
    and the comment extractor stores the text of a comment in its [comment]
    field as well. *)
Lemma extracted_changes_carry_comments :
  ~ Forall unannotated
      (returned (extractTrackChanges Samples.world Samples.not_an_archive initial)) /\
  ~ Forall unannotated
      (returned (extractTrackChanges Samples.world Samples.marked_document initial)).
Proof.
  split; intros H.
  - vm_compute in H. inversion H as [|c l [Hc _] _]. discriminate Hc.
  - vm_compute in H. inversion H as [|c1 l1 _ H1]; subst.
    inversion H1 as [|c2 l2 _ H2]; subst.
    inversion H2 as [|c3 l3 [Hc _] _]. discriminate Hc.
Qed.

(** C5, amended. No change the engine returns carries [suggestions] or
    [resolved].  The [comment] field is set by the extractor itself on two
    kinds of changes: when the structured path completes, a change of kind
    [comment] carries its own text as [comment] and an insertion or deletion
    carries none; when the structured path raises, every change of the
    fallback extractor carries the note "<Kind> content detected". *)
Theorem extracted_annotations W file st :
  exists l st',
    extractTrackChanges W file st = (Ok l, st') /\
    Forall (fun c => suggestions c = None /\ resolved c = None) l /\
    ((exists st1, structured_extraction W file (set_changes [] st) = (Ok tt, st1)) /\
     Forall (fun c => comment c = match type c with
                                  | Comment => Some (text c)
                                  | _ => None
                                  end) l
     \/
     (exists e st1, structured_extraction W file (set_changes [] st) = (Throw e, st1)) /\
     Forall (fun c => comment c = Some (detected (type c))) l).
Proof.
  destruct (extractTrackChanges_engine W file st) as (l & st' & He & H).
  exists l, st'. split; [exact He|].
  destruct H as [[Hs H] | [Hs H]].
  - split.
    + eapply Forall_impl; [|exact H].
      intros c [Hc | [Hc | Hc]]; destruct Hc as (_ & _ & _ & _ & S & R); auto.
    + left. split; [exact Hs|]. eapply Forall_impl; [|exact H].
      intros c [Hc | [Hc | Hc]]; destruct Hc as (T & _ & _ & C & _); rewrite T; exact C.
  - split.
    + eapply Forall_impl; [|exact H]. intros c (_ & _ & S & R); auto.
    + right. split; [exact Hs|]. eapply Forall_impl; [|exact H].
      intros c (_ & C & _); exact C.
Qed.

(** ** [parseDocument], case by case *)

Section ParseDocument.

Variable W : World.

Lemma parseDocument_ok file st html l st1 :
  convertToHtml file (conversions st) = inr html ->
  extractTrackChanges W file (converted st) = (Ok l, st1) ->
  parseDocument W file st =
  (Ok {| content := html_to_text html;
         changes := l;
         metadata := metadata_of file (html_to_text html) l
                                 (TimeValue (clock W (clock_reads st1))) |},
   advance 1 st1).
Proof.
  intros Hc He. unfold parseDocument, try_catch.
  unfold bind at 1. unfold mammoth_convertToHtml. rewrite Hc. fold (converted st).
  unfold bind at 1. rewrite He.
  unfold bind, new_Date, Date_now, ret, advance, metadata_of. simpl.
  rewrite Nat.add_1_r. reflexivity.
Qed.

Lemma parseDocument_failed file st e :
  convertToHtml file (conversions st) = inl e ->
  parseDocument W file st =
  (Throw (lit "Failed to parse document. Please ensure it's a valid .docx file."),
   logged parse_failed (converted st)).
Proof.
  intros Hc. unfold parseDocument, try_catch.
  unfold bind at 1. unfold mammoth_convertToHtml. rewrite Hc. reflexivity.
Qed.

Lemma structured_extraction_conversions file st r st1 :
  structured_extraction W file st = (r, st1) -> conversions st1 = conversions st.
Proof.
  intros H.
  pose proof (@structured_extraction_preserves W (fun _ => True) file
                (fun _ _ => I) st) as Hext.
  rewrite H in Hext. apply Hext.
Qed.

End ParseDocument.

(** ** C3: the one propagated error *)

(** C3. For every file, [parseDocument] propagates an error exactly when the
    initial plain-text conversion of the file fails.  When that conversion
    succeeds the call returns a result object with the converted text,
    whatever happens on opening the archive, parsing the XML or extracting
    changes and comments (all of which the environment may let fail). *)
Theorem parseDocument_throws_iff_conversion_fails W file st :
  ((exists e st', parseDocument W file st = (Throw e, st')) <->
   (exists e, convertToHtml file (conversions st) = inl e)) /\
  match convertToHtml file (conversions st) with
  | inl _ => exists e st', parseDocument W file st = (Throw e, st')
  | inr html => exists r st', parseDocument W file st = (Ok r, st') /\
                              content r = html_to_text html
  end.
Proof.
  destruct (convertToHtml file (conversions st)) as [e|html] eqn:Hc.
  - rewrite (parseDocument_failed W _ _ Hc). split; [split; intros _|]; eauto.
  - destruct (extractTrackChanges_engine W file (converted st)) as (l & st1 & He & _).
    rewrite (parseDocument_ok W _ _ Hc He). split; [split|].
    + intros (e & st' & H). discriminate H.
    + intros (e & H). discriminate H.
    + eauto.
Qed.

(** ** C1: when the fallback extractor runs *)




(** ** C10: a second failing conversion *)

(** C10. Given that the initial plain-text conversion of the file succeeds,
    [parseDocument] returns a result and does not reject; and if
    structured extraction then fails and the conversion attempted for the
    fallback path fails as well, the text getter returns the empty string,
    the fallback extractor scans the empty string and the result carries an
    empty change list. *)
Theorem second_conversion_failure_is_swallowed W file st html
        (Hfirst : convertToHtml file (conversions st) = inr html) :
  exists r st',
    parseDocument W file st = (Ok r, st') /\
    content r = html_to_text html /\
    forall e1 st1 e2,
      structured_extraction W file (set_changes [] (converted st)) = (Throw e1, st1) ->
      convertToHtml file (S (conversions st)) = inl e2 ->
      getTextContent file (logged extraction_failed st1)
      = (Ok [], logged (console_warn (lit "Could not extract text content:"))
                       (converted (logged extraction_failed st1))) /\
      In (fallback_scan []) (trace st') /\
      changes r = [].
Proof.
  destruct (extractTrackChanges_engine W file (converted st)) as (l & st1' & He & _).
  do 2 eexists. split; [apply (parseDocument_ok W _ _ Hfirst He)|].
  split; [reflexivity|].
  intros e1 st1 e2 Hs Hsecond.
  pose proof (structured_extraction_conversions _ _ _ Hs) as Hconv. simpl in Hconv.
  assert (Hg : getTextContent file (logged extraction_failed st1)
               = (Ok [], logged (console_warn (lit "Could not extract text content:"))
                                (converted (logged extraction_failed st1)))).
  { rewrite getTextContent_cases. simpl conversions. rewrite Hconv, Hsecond. reflexivity. }
  split; [exact Hg|].
  pose proof (parseAlternativeTrackChanges_eq W []
                (logged (console_warn (lit "Could not extract text content:"))
                        (converted (logged extraction_failed st1)))) as Hp.
  cbv zeta in Hp.
  replace (exec_all addedPattern [] 0) with (@nil Match) in Hp by reflexivity.
  replace (exec_all deletedPattern [] 0) with (@nil Match) in Hp by reflexivity.
  replace (exec_all modifiedPattern [] 0) with (@nil Match) in Hp by reflexivity.
  simpl in Hp.
  pose proof (extractTrackChanges_fallback W _ _ Hs Hg Hp) as He'.
  rewrite He in He'. injection He' as -> ->.
  split; [|reflexivity]. simpl. rewrite in_app_iff. right. left. reflexivity.
Qed.

Lemma second_conversion_failure_is_swallowed_witness :
  exists r st',
    parseDocument Samples.world Samples.read_once initial = (Ok r, st') /\
    In (fallback_scan []) (trace st') /\ changes r = [].
Proof.
  destruct (@second_conversion_failure_is_swallowed Samples.world Samples.read_once
              initial (lit "<p>[Added: x]</p>") eq_refl) as (r & st' & Hrun & _ & H).
  exists r, st'. split; [exact Hrun|].
  eapply H; vm_compute; reflexivity.
Defined.

(** ** C7: the authors of the metadata *)

Lemma jsstring_eqb_spec a b : jsstring_eqb a b = true <-> a = b.
Proof.
  unfold jsstring_eqb. destruct (list_eq_dec ascii_dec a b); split; congruence.
Qed.

Lemma jsstring_eqb_refl a : jsstring_eqb a a = true.
Proof. apply jsstring_eqb_spec. reflexivity. Qed.

Lemma filter_filter {A} (f g : A -> bool) l :
  filter f (filter g l) = filter (fun x => g x && f x) l.
Proof.
  induction l as [|a l IH]; simpl; [reflexivity|].
  destruct (g a); simpl; [destruct (f a)|]; rewrite IH; reflexivity.
Qed.

Lemma fold_Set_add l : forall acc,
  fold_left Set_add l acc
  = acc ++ filter (fun b => negb (existsb (jsstring_eqb b) acc)) (first_occurrences l).
Proof.
  induction l as [|a l IH]; intros acc; simpl.
  - rewrite app_nil_r. reflexivity.
  - rewrite IH. unfold Set_add. destruct (existsb (jsstring_eqb a) acc) eqn:E; simpl.
    + f_equal. rewrite filter_filter. apply filter_ext. intros b.
      destruct (jsstring_eqb b a) eqn:Eb; simpl; [|reflexivity].
      apply jsstring_eqb_spec in Eb. subst b. rewrite E. reflexivity.
    + rewrite <- app_assoc. simpl. f_equal. f_equal.
      rewrite filter_filter. apply filter_ext. intros b.
      rewrite existsb_app. simpl. rewrite orb_false_r, negb_orb.
      apply andb_comm.
Qed.

Lemma Set_values_first_occurrences l : Set_values l = first_occurrences l.
Proof.
  unfold Set_values. rewrite fold_Set_add. simpl.
  induction (first_occurrences l) as [|a l' IH]; simpl; congruence.
Qed.

Lemma first_occurrences_In l : forall a, In a (first_occurrences l) <-> In a l.
Proof.
  induction l as [|b l IH]; intros a; simpl; [reflexivity|].
  rewrite filter_In, IH. split.
  - intros [H|[H _]]; auto.
  - intros [H|H]; [auto|].
    destruct (jsstring_eqb a b) eqn:E.
    + left. apply jsstring_eqb_spec in E. congruence.
    + right. auto.
Qed.

Lemma first_occurrences_NoDup l : NoDup (first_occurrences l).
Proof.
  induction l as [|b l IH]; simpl; constructor.
  - rewrite filter_In. intros [_ H]. rewrite jsstring_eqb_refl in H. discriminate H.
  - apply NoDup_filter. exact IH.
Qed.

Lemma parseDocument_inv W file st r st' :
  parseDocument W file st = (Ok r, st') ->
  exists html l st1,
    convertToHtml file (conversions st) = inr html /\
    extractTrackChanges W file (converted st) = (Ok l, st1) /\
    r = {| content := html_to_text html;
           changes := l;
           metadata := metadata_of file (html_to_text html) l
                                   (TimeValue (clock W (clock_reads st1))) |}.
Proof.
  intros H. destruct (convertToHtml file (conversions st)) as [e|html] eqn:Hc.
  - rewrite (parseDocument_failed W _ _ Hc) in H. discriminate H.
  - destruct (extractTrackChanges_engine W file (converted st)) as (l & st1 & He & _).
    rewrite (parseDocument_ok W _ _ Hc He) in H. injection H as <- _.
    exists html, l, st1. auto.
Qed.

(** C7. For every result of [parseDocument], [metadata.authors] is the
    projection of [author] over the returned change list with duplicates
    removed, in the order of first appearance: it has no duplicates and the
    same members as the projection.  The statement does not depend on the
    path the changes came from. *)
Theorem authors_are_first_occurrences W file st r st'
        (Hrun : parseDocument W file st = (Ok r, st')) :
  authors (metadata r) = first_occurrences (map author (changes r)) /\
  NoDup (authors (metadata r)) /\
  forall a, In a (authors (metadata r)) <-> In a (map author (changes r)).
Proof.
  apply parseDocument_inv in Hrun. destruct Hrun as (html & l & st1 & _ & _ & ->).
  simpl. rewrite Set_values_first_occurrences.
  split; [reflexivity|]. split; [apply first_occurrences_NoDup|].
  apply first_occurrences_In.
Qed.

Lemma authors_are_first_occurrences_witness :
  exists r st',
    parseDocument Samples.world Samples.not_an_archive initial = (Ok r, st') /\
    map author (changes r) = [lit "Document Author"; lit "Document Author"] /\
    authors (metadata r) = [lit "Document Author"].
Proof.
  destruct (parseDocument Samples.world Samples.not_an_archive initial) as [[r|e] st'] eqn:Hrun;
    [|vm_compute in Hrun; discriminate Hrun].
  exists r, st'. split; [reflexivity|].
  destruct (authors_are_first_occurrences _ _ _ Hrun) as [Ha _].
  rewrite Ha. vm_compute in Hrun. injection Hrun as <- _. split; vm_compute; reflexivity.
Defined.

(** ** C8: the counts of the metadata *)

Lemma ends_with_space_rev s :
  ends_with_space s = match rev s with c :: _ => is_space c | [] => false end.
Proof.
  induction s as [|c s IH]; [reflexivity|].
  destruct s as [|d s']; [reflexivity|].
  change (ends_with_space (c :: d :: s')) with (ends_with_space (d :: s')).
  rewrite IH. change (rev (c :: d :: s')) with (rev (d :: s') ++ [c]).
  destruct (rev (d :: s')) as [|x r] eqn:E; [|reflexivity].
  apply (f_equal (@length ascii)) in E. rewrite length_rev in E. discriminate E.
Qed.

Lemma split_spaces_tokens s :
  ends_with_space s = false ->
  (forall cur, length (split_spaces false cur s) = 1 + count_tokens true s) /\
  (s <> [] -> length (split_spaces true [] s) = count_tokens false s).
Proof.
  induction s as [|c s IH]; intros He.
  - split; [reflexivity | congruence].
  - destruct s as [|d s'].
    + simpl in He. simpl. rewrite He. split; reflexivity.
    + change (ends_with_space (c :: d :: s')) with (ends_with_space (d :: s')) in He.
      destruct (IH He) as [IH1 IH2].
      assert (Hne : d :: s' <> []) by discriminate.
      specialize (IH2 Hne). remember (d :: s') as t.
      split; [intros cur | intros _];
        cbn [split_spaces count_tokens]; destruct (is_space c);
        cbn [length]; rewrite ?IH1, ?IH2; reflexivity.
Qed.

Lemma trimStart_suffix s : exists p, s = p ++ trimStart s.
Proof.
  induction s as [|c s [p IH]]; [exists []; reflexivity|].
  simpl. destruct (is_space c).
  - exists (c :: p). simpl. f_equal. exact IH.
  - exists []. reflexivity.
Qed.

Lemma trimStart_head s c t : trimStart s = c :: t -> is_space c = false.
Proof.
  induction s as [|d s IH]; simpl; [discriminate|].
  destruct (is_space d) eqn:E; [exact IH|].
  intros H. injection H as <- _. exact E.
Qed.

(** A trimmed string neither starts nor ends with white space. *)
Lemma trim_clean s :
  match trim s with
  | [] => True
  | c :: _ => is_space c = false
  end /\ ends_with_space (trim s) = false.
Proof.
  unfold trim, trimEnd. set (t := trimStart s). set (u := trimStart (rev t)).
  split.
  - destruct (rev u) as [|c w] eqn:E; [exact I|].
    destruct (trimStart_suffix (rev t)) as [p Hp]. fold u in Hp.
    apply (f_equal (@rev ascii)) in Hp. rewrite rev_involutive, rev_app_distr, E in Hp.
    simpl in Hp. apply (trimStart_head s Hp).
  - rewrite ends_with_space_rev, rev_involutive.
    destruct u as [|c w] eqn:E; [reflexivity|].
    apply (trimStart_head (rev t) E).
Qed.

(** What [textContent.split(/\s+/).length] is for the trimmed text: the
    number of its tokens, but [1] for the empty text. *)
Lemma split_length_trimmed s :
  length (split (trim s)) = match trim s with
                            | [] => 1
                            | _ :: _ => tokens (trim s)
                            end.
Proof.
  destruct (trim_clean s) as [Hh He].
  destruct (trim s) as [|c t] eqn:E; [reflexivity|].
  destruct (split_spaces_tokens _ He) as [H1 _].
  unfold split, tokens. rewrite H1. cbn [count_tokens]. rewrite Hh. reflexivity.
Qed.

(** The counts of every result: [changeCount] is the length of the change
    list; [wordCount] is the number of tokens of a non-empty [content], and
    [1] for the empty [content]. *)
Lemma metadata_counts W file st r st' :
  parseDocument W file st = (Ok r, st') ->
  changeCount (metadata r) = length (changes r) /\
  wordCount (metadata r) = match content r with
                           | [] => 1
                           | _ :: _ => tokens (content r)
                           end.
Proof.
  intros Hrun. apply parseDocument_inv in Hrun.
  destruct Hrun as (html & l & st1 & _ & _ & ->). simpl.
  split; [reflexivity|]. unfold html_to_text. apply split_length_trimmed.
Qed.

(** C8 at the failing input: for a document without text the returned
    [content] is the empty string, which has no token, and
    [metadata.wordCount] is [1]; [metadata.changeCount] is the length of the
    change list. *)
Theorem empty_document_counts_one_word :
  exists r st',
    parseDocument Samples.world Samples.empty_document initial = (Ok r, st') /\
    content r = [] /\ tokens (content r) = 0 /\ wordCount (metadata r) = 1 /\
    changeCount (metadata r) = length (changes r).
Proof.
  do 2 eexists. split; [vm_compute; reflexivity|].
  repeat split.
Qed.

(** ** The DOM variant: the selectors and the tag names *)

Module DomFacts.

Import Dom.

(** An element whose tag is [w:name] or [name] is matched by the selector
    list [name, w\:name]. *)
Lemma no_colon_prefix (p l name : jsstring) :
  existsb (Ascii.eqb ":"%char) name = false -> p ++ lit ":" ++ l <> name.
Proof.
  intros Hn H. rewrite <- H, existsb_app in Hn. simpl in Hn.
  rewrite orb_true_r in Hn. discriminate Hn.
Qed.

Lemma qualified_tag_local (p l name : jsstring) :
  existsb (Ascii.eqb ":"%char) name = false ->
  p ++ lit ":" ++ l = lit "w:" ++ name -> l = name.
Proof.
  intros Hn H. unfold lit in H. destruct p as [|a [|b p]]; simpl in H.
  - discriminate H.
  - injection H as _ H. exact H.
  - injection H as _ _ H. exfalso. revert H. apply no_colon_prefix. exact Hn.
Qed.

Lemma tag_matches name element :
  existsb (Ascii.eqb ":"%char) name = false -> name <> [] ->
  tagName element = lit "w:" ++ name \/ tagName element = name ->
  matches [type_selector name; type_selector (lit "w:" ++ name)] element = true.
Proof.
  intros Hn Hne Htag. unfold matches. simpl.
  destruct element as [[p|] l attrs children|d]; simpl in *.
  - destruct Htag as [H|H].
    + apply qualified_tag_local in H; [|exact Hn]. subst l.
      rewrite jsstring_eqb_refl. reflexivity.
    + apply no_colon_prefix in H; [destruct H | exact Hn].
  - destruct Htag as [->| ->]; rewrite jsstring_eqb_refl, ?orb_true_r; reflexivity.
  - destruct Htag as [H|H]; [discriminate H | congruence].
Qed.

End DomFacts.

(** * Further properties of the parser *)

(** ** The plain text of a document *)

Lemma trimEnd_prefix s : exists q, s = trimEnd s ++ q.
Proof.
  unfold trimEnd. destruct (trimStart_suffix (rev s)) as [p Hp].
  exists (rev p). apply (f_equal (@rev ascii)) in Hp.
  rewrite rev_involutive, rev_app_distr in Hp. exact Hp.
Qed.

(** The trimmed string is a piece of the string. *)
Lemma trim_infix s : exists p q, s = p ++ trim s ++ q.
Proof.
  unfold trim. destruct (trimStart_suffix s) as [p Hp].
  destruct (trimEnd_prefix (trimStart s)) as [q Hq].
  exists p, q. rewrite <- Hq. exact Hp.
Qed.

Lemma space_is_no_bracket c :
  is_space c = true -> Ascii.eqb c lt_sign = false /\ Ascii.eqb c gt_sign = false.
Proof.
  intros H. split.
  - destruct (Ascii.eqb_spec c lt_sign) as [->|]; [discriminate H | reflexivity].
  - destruct (Ascii.eqb_spec c gt_sign) as [->|]; [discriminate H | reflexivity].
Qed.

Lemma replace_tags_gt : forall s in_tag,
  existsb (Ascii.eqb gt_sign) s = false ->
  existsb (Ascii.eqb gt_sign) (replace_tags in_tag s) = false.
Proof.
  induction s as [|c s IH]; intros in_tag H; [reflexivity|].
  cbn [existsb] in H. apply orb_false_iff in H. destruct H as [Hc Hs].
  cbn [replace_tags]. rewrite Ascii.eqb_sym in Hc. rewrite Hc, Hs, andb_false_r.
  destruct in_tag; [apply IH; exact Hs|].
  cbn [existsb]. rewrite Ascii.eqb_sym, Hc. apply IH. exact Hs.
Qed.

Lemma replace_tags_no_tag : forall s in_tag, has_tag (replace_tags in_tag s) = false.
Proof.
  induction s as [|c s IH]; intros in_tag; [reflexivity|].
  cbn [replace_tags]. destruct in_tag.
  - destruct (Ascii.eqb c gt_sign); apply IH.
  - destruct (Ascii.eqb c lt_sign) eqn:Ec; cbn [andb].
    + destruct (existsb (Ascii.eqb gt_sign) s) eqn:Es.
      * cbn [has_tag]. rewrite IH.
        destruct (space_is_no_bracket space eq_refl) as [Hl _].
        rewrite Hl. reflexivity.
      * cbn [has_tag]. rewrite Ec, IH, (replace_tags_gt s false Es). reflexivity.
    + cbn [has_tag]. rewrite Ec, IH. reflexivity.
Qed.

Lemma collapse_spaces_gt : forall s in_run,
  existsb (Ascii.eqb gt_sign) (collapse_spaces in_run s) = existsb (Ascii.eqb gt_sign) s.
Proof.
  induction s as [|c s IH]; intros in_run; [reflexivity|].
  cbn [collapse_spaces existsb]. destruct (is_space c) eqn:Ec.
  - destruct (space_is_no_bracket c Ec) as [_ Hg]. rewrite Ascii.eqb_sym in Hg. rewrite Hg.
    destruct (space_is_no_bracket space eq_refl) as [_ Hs]. rewrite Ascii.eqb_sym in Hs.
    destruct in_run; cbn [existsb orb]; [|rewrite Hs]; apply IH.
  - cbn [existsb]. rewrite IH. reflexivity.
Qed.

Lemma collapse_spaces_tag : forall s in_run,
  has_tag (collapse_spaces in_run s) = has_tag s.
Proof.
  induction s as [|c s IH]; intros in_run; [reflexivity|].
  cbn [collapse_spaces has_tag]. destruct (is_space c) eqn:Ec.
  - destruct (space_is_no_bracket c Ec) as [Hl _]. rewrite Hl.
    destruct (space_is_no_bracket space eq_refl) as [Hs _].
    destruct in_run; cbn [has_tag andb orb]; [|rewrite Hs]; apply IH.
  - cbn [has_tag]. rewrite IH, collapse_spaces_gt. reflexivity.
Qed.

Lemma has_tag_app_lt : forall a b,
  has_tag (a ++ lt_sign :: b) = false -> existsb (Ascii.eqb gt_sign) b = false.
Proof.
  induction a as [|c a IH]; intros b H; cbn [app has_tag] in H.
  - rewrite Ascii.eqb_refl in H. cbn [andb] in H.
    apply orb_false_iff in H. apply H.
  - apply orb_false_iff in H. apply IH, H.
Qed.

(** X1. No markup tag is left in the plain text: behind a [<] of the text there
    is no [>] any more. *)
Theorem html_to_text_has_no_tag htmlContent a b :
  html_to_text htmlContent = a ++ lt_sign :: b -> ~ In gt_sign b.
Proof.
  intros H Hin. unfold html_to_text in H.
  destruct (trim_infix (collapse_spaces false (replace_tags false htmlContent)))
    as (p & q & Hpq).
  rewrite H in Hpq.
  assert (Ht : has_tag ((p ++ a) ++ lt_sign :: (b ++ q)) = false).
  { rewrite <- app_assoc. simpl. rewrite <- app_assoc in Hpq. simpl in Hpq.
    rewrite <- Hpq, collapse_spaces_tag. apply replace_tags_no_tag. }
  apply has_tag_app_lt in Ht. rewrite existsb_app in Ht.
  apply orb_false_iff in Ht. destruct Ht as [Ht _].
  assert (Hex : existsb (Ascii.eqb gt_sign) b = true).
  { apply existsb_exists. exists gt_sign. split; [exact Hin | apply Ascii.eqb_refl]. }
  congruence.
Qed.

Lemma html_to_text_has_no_tag_witness :
  html_to_text (lit "<p>a</p> < b") = lit "a " ++ lt_sign :: lit " b" /\
  ~ In gt_sign (lit " b").
Proof.
  split; [reflexivity|].
  apply (@html_to_text_has_no_tag (lit "<p>a</p> < b") (lit "a ") (lit " b")).
  reflexivity.
Defined.

Lemma collapse_spaces_single : forall s in_run,
  single_spaced in_run (collapse_spaces in_run s) = true.
Proof.
  induction s as [|c s IH]; intros in_run; [reflexivity|].
  simpl. destruct (is_space c) eqn:Ec.
  - destruct in_run; [apply IH|]. simpl. apply IH.
  - simpl. rewrite Ec. apply IH.
Qed.

Lemma single_spaced_weaken s : single_spaced true s = true -> single_spaced false s = true.
Proof.
  destruct s as [|c s]; [reflexivity|]. simpl.
  destruct (is_space c); [|auto]. rewrite andb_false_r. discriminate.
Qed.

Lemma single_spaced_suffix : forall p prev s,
  single_spaced prev (p ++ s) = true -> single_spaced false s = true.
Proof.
  induction p as [|c p IH]; intros prev s H.
  - destruct prev; [apply single_spaced_weaken|]; exact H.
  - simpl in H. destruct (is_space c).
    + apply andb_true_iff in H. destruct H as [_ H]. apply (IH _ _ H).
    + apply (IH _ _ H).
Qed.

Lemma single_spaced_prefix : forall s prev q,
  single_spaced prev (s ++ q) = true -> single_spaced prev s = true.
Proof.
  induction s as [|x s IH]; intros prev q H; [reflexivity|].
  simpl in *. destruct (is_space x).
  - apply andb_true_iff in H. destruct H as [Hx Hs]. rewrite Hx. simpl. eapply IH, Hs.
  - eapply IH, H.
Qed.

Lemma single_spaced_at : forall a prev c b,
  single_spaced prev (a ++ c :: b) = true -> is_space c = true ->
  c = space /\ match b with
               | [] => True
               | y :: _ => is_space y = false
               end.
Proof.
  induction a as [|x a IH]; intros prev c b H Hc.
  - simpl in H. rewrite Hc in H.
    apply andb_true_iff in H. destruct H as [H Hb].
    apply andb_true_iff in H. destruct H as [He _].
    split; [apply Ascii.eqb_eq; exact He|].
    destruct b as [|y b]; [exact I|]. simpl in Hb.
    destruct (is_space y); [|reflexivity].
    rewrite andb_false_r in Hb. discriminate Hb.
  - simpl in H. destruct (is_space x).
    + apply andb_true_iff in H. destruct H as [_ H]. apply (IH _ _ _ H Hc).
    + apply (IH _ _ _ H Hc).
Qed.

Lemma single_spaced_before : forall a prev c b,
  single_spaced prev (a ++ c :: b) = true -> is_space c = true ->
  match rev a with
  | [] => prev = false
  | x :: _ => is_space x = false
  end.
Proof.
  induction a as [|x a IH]; intros prev c b H Hc.
  - simpl in H. rewrite Hc in H. destruct prev; [|reflexivity].
    rewrite andb_false_r in H. discriminate H.
  - simpl in H. simpl rev.
    assert (Hrest : exists prev', single_spaced prev' (a ++ c :: b) = true /\
                                  prev' = is_space x).
    { destruct (is_space x).
      - apply andb_true_iff in H. destruct H as [_ H]. eauto.
      - eauto. }
    destruct Hrest as (prev' & Hr & Hp). specialize (IH _ _ _ Hr Hc).
    destruct (rev a) as [|y r]; simpl; [congruence | exact IH].
Qed.

(** X2. The plain text is normalized: each of its white-space code units is a
    single space that stands between two code units that are not white
    space. *)
Theorem html_to_text_single_spaced htmlContent a c b :
  html_to_text htmlContent = a ++ c :: b -> is_space c = true ->
  c = space /\
  (exists a' x, a = a' ++ [x] /\ is_space x = false) /\
  (exists y b', b = y :: b' /\ is_space y = false).
Proof.
  intros H Hc. unfold html_to_text in H.
  set (t := collapse_spaces false (replace_tags false htmlContent)) in *.
  destruct (trim_infix t) as (p & q & Hpq).
  destruct (trim_clean t) as [Hhead Hend].
  assert (Hs : single_spaced false (a ++ c :: b) = true).
  { rewrite <- H. pose proof (collapse_spaces_single (replace_tags false htmlContent) false) as Ht.
    fold t in Ht. rewrite Hpq in Ht. apply single_spaced_suffix in Ht.
    apply single_spaced_prefix in Ht. exact Ht. }
  destruct (single_spaced_at _ _ _ _ Hs Hc) as [Heq Hnext].
  pose proof (single_spaced_before _ _ _ _ Hs Hc) as Hprev.
  split; [exact Heq|]. split.
  - destruct (rev a) as [|x r] eqn:Er.
    + apply (f_equal (@rev ascii)) in Er. rewrite rev_involutive in Er. simpl in Er.
      subst a. rewrite H in Hhead. simpl in Hhead. congruence.
    + exists (rev r), x. split; [|exact Hprev].
      apply (f_equal (@rev ascii)) in Er. rewrite rev_involutive in Er. exact Er.
  - destruct b as [|y b'].
    + rewrite H, ends_with_space_rev, rev_app_distr in Hend. simpl in Hend. congruence.
    + exists y, b'. split; [reflexivity | exact Hnext].
Qed.

Lemma html_to_text_single_spaced_witness :
  html_to_text (lit "<p>a  </p> <b>b</b>") = lit "a" ++ space :: lit "b" /\
  (exists y b', lit "b" = y :: b' /\ is_space y = false).
Proof.
  split; [reflexivity|].
  apply (@html_to_text_single_spaced (lit "<p>a  </p> <b>b</b>") (lit "a") space (lit "b"));
    reflexivity.
Defined.

(** ** White space and recovered text *)

Lemma trimStart_blank s : trimStart s = [] <-> blank s = true.
Proof.
  unfold blank. induction s as [|c s IH]; simpl; [tauto|].
  destruct (is_space c); simpl; [exact IH|]. split; discriminate.
Qed.

Lemma blank_rev s : blank (rev s) = blank s.
Proof.
  unfold blank. destruct (forallb is_space s) eqn:E.
  - apply forallb_forall. intros x Hx. apply in_rev in Hx.
    rewrite forallb_forall in E. apply E, Hx.
  - destruct (forallb is_space (rev s)) eqn:E'; [|reflexivity].
    rewrite <- E. symmetry. apply forallb_forall. intros x Hx.
    rewrite forallb_forall in E'. apply E'. apply in_rev in Hx. exact Hx.
Qed.

Lemma blank_trimStart s : blank (trimStart s) = blank s.
Proof.
  unfold blank. induction s as [|c s IH]; [reflexivity|].
  simpl. destruct (is_space c) eqn:Ec; [exact IH|]. simpl. rewrite Ec. reflexivity.
Qed.

(** [trim] leaves nothing exactly of the strings that are white space
    only. *)
Lemma trim_blank s : trim s = [] <-> blank s = true.
Proof.
  unfold trim, trimEnd. rewrite <- (blank_trimStart s), <- (blank_rev (trimStart s)).
  rewrite <- trimStart_blank. split.
  - intros H. apply (f_equal (@rev ascii)) in H. rewrite rev_involutive in H. exact H.
  - intros ->. reflexivity.
Qed.

(** X3. The structured callbacks of the xml2js parser test the recovered text
    for emptiness: an element yields no change exactly when the text
    gathered below it is white space only. *)
Theorem extractTextFromElement_empty_iff_blank element :
  extractTextFromElement element = [] <-> blank (extractTextRecursive element) = true.
Proof.
  unfold extractTextFromElement. destruct (truthy element) eqn:Et.
  - apply trim_blank.
  - destruct element as [[|c s]|items|props]; try discriminate Et.
    simpl. split; reflexivity.
Qed.

Lemma includes_eq s sub :
  includes s sub = match strip_prefix sub s with
                   | Some _ => true
                   | None => match s with
                             | [] => false
                             | _ :: s' => includes s' sub
                             end
                   end.
Proof. destruct s; reflexivity. Qed.

Lemma strip_prefix_self l : forall b, strip_prefix l (l ++ b) = Some b.
Proof.
  induction l as [|a l IH]; intros b; [reflexivity|].
  simpl. rewrite Ascii.eqb_refl. apply IH.
Qed.

Lemma includes_occurs s sub : includes s sub = true <-> occurs_in sub s.
Proof.
  split.
  - induction s as [|c s IH]; rewrite includes_eq.
    + destruct (strip_prefix sub []) as [rest|] eqn:E; [|discriminate].
      intros _. apply strip_prefix_app in E. exists [], rest. exact E.
    + destruct (strip_prefix sub (c :: s)) as [rest|] eqn:E.
      * intros _. apply strip_prefix_app in E. exists [], rest. exact E.
      * intros H. destruct (IH H) as (a & b & ->). exists (c :: a), b. reflexivity.
  - intros (a & b & ->). induction a as [|c a IH]; rewrite includes_eq.
    + simpl. rewrite strip_prefix_self. reflexivity.
    + destruct (strip_prefix sub ((c :: a) ++ sub ++ b)); [reflexivity | exact IH].
Qed.

Lemma occurs_in_refl s : occurs_in s s.
Proof. exists [], []. rewrite app_nil_r. reflexivity. Qed.

Lemma occurs_in_trans a b c : occurs_in a b -> occurs_in b c -> occurs_in a c.
Proof.
  intros (p & q & ->) (p' & q' & ->). exists (p' ++ p), (q ++ q').
  rewrite <- !app_assoc. reflexivity.
Qed.

Lemma occurs_in_concat {A} (f : A -> jsstring) l x :
  In x l -> occurs_in (f x) (concat (map f l)).
Proof.
  induction l as [|y l IH]; intros H; [contradiction|].
  destruct H as [->|H]; simpl.
  - exists [], (concat (map f l)). reflexivity.
  - destruct (IH H) as (a & b & ->). exists (f y ++ a), b.
    rewrite <- app_assoc. reflexivity.
Qed.

(** X4. The text gathered below an object that has no [w:t] of its own takes in
    everything below every property of the object, whatever the property is
    called: a string-valued property (an attribute that xml2js merged into
    the element, the author's name for one) becomes part of the text. *)
Theorem every_property_joins_the_text props k v :
  get_truthy (JObject props) (lit "w:t") = None -> In (k, v) props ->
  occurs_in (extractTextRecursive v) (extractTextRecursive (JObject props)).
Proof.
  intros Ht Hin. cbn [extractTextRecursive]. rewrite Ht.
  apply (occurs_in_concat (fun p => extractTextRecursive (snd p)) props (k, v) Hin).
Qed.

Lemma every_property_joins_the_text_witness :
  extractTextFromElement merged_attributes_insertion = lit "Bobnew fee" /\
  occurs_in (lit "Bob") (extractTextRecursive merged_attributes_insertion).
Proof.
  split; [reflexivity|].
  apply (@every_property_joins_the_text
           [(lit "w:author", JString (lit "Bob"));
            (lit "w:r", JObject [(lit "w:t", JString (lit "new fee"))])]
           (lit "w:author") (JString (lit "Bob"))).
  - reflexivity.
  - simpl. left. reflexivity.
Defined.

(** ** The fallback extractor: identifiers, clock and captures *)

Lemma to_uint_not_Nil n : Nat.to_uint n <> Decimal.Nil.
Proof.
  intros H. pose proof (DecimalNat.Unsigned.of_to n) as Hn. rewrite H in Hn.
  simpl in Hn. subst n. discriminate H.
Qed.

Lemma lit_inj a b : lit a = lit b -> a = b.
Proof.
  unfold lit. intros H. apply (f_equal string_of_list_ascii) in H.
  rewrite !string_of_list_ascii_of_string in H. exact H.
Qed.

(** The decimal numeral of a number determines the number. *)
Lemma string_of_nat_inj a b : string_of_nat a = string_of_nat b -> a = b.
Proof.
  unfold string_of_nat. intros H. apply lit_inj in H.
  apply (f_equal NilZero.uint_of_string) in H.
  rewrite !NilZero.usu in H by apply to_uint_not_Nil.
  injection H as H. apply DecimalNat.Unsigned.to_uint_inj, H.
Qed.

Lemma fallback_id_inj k1 k2 i j : fallback_id k1 i = fallback_id k2 j -> i = j.
Proof.
  unfold fallback_id. intros H.
  destruct k1, k2; try (cbn in H; congruence);
    do 3 apply app_inv_head in H; apply string_of_nat_inj; exact H.
Qed.

Lemma stamp_length W mk : forall ms idx tick, length (stamp W mk ms idx tick) = length ms.
Proof.
  induction ms as [|m ms IH]; intros idx tick; simpl; [reflexivity | rewrite IH; reflexivity].
Qed.

Lemma stamp_nth W mk : forall ms idx tick k c,
  nth_error (stamp W mk ms idx tick) k = Some c ->
  exists m, nth_error ms k = Some m /\
            c = mk (idx + k) m (TimeValue (clock W (tick + k))).
Proof.
  induction ms as [|m ms IH]; intros idx tick [|k] c H; simpl in H; try discriminate H.
  - injection H as <-. exists m. rewrite !Nat.add_0_r. split; reflexivity.
  - apply IH in H. destruct H as (m' & Hm & ->). exists m'.
    rewrite <- !plus_n_Sm. split; [exact Hm | reflexivity].
Qed.

Lemma parseAlternativeTrackChanges_nth W content st k c :
  nth_error (returned (parseAlternativeTrackChanges W content st)) k = Some c ->
  id c = fallback_id (type c) k /\
  timestamp c = TimeValue (clock W (clock_reads st + k)).
Proof.
  rewrite parseAlternativeTrackChanges_eq. unfold returned. cbn [fst].
  set (A := exec_all addedPattern content 0).
  set (D := exec_all deletedPattern content 0).
  set (C := exec_all modifiedPattern content 0).
  intros H.
  destruct (Nat.lt_ge_cases k (length A)) as [HA|HA].
  - rewrite nth_error_app1 in H by (rewrite stamp_length; exact HA).
    apply stamp_nth in H. destruct H as (m & _ & ->). split; reflexivity.
  - rewrite nth_error_app2, stamp_length in H by (rewrite stamp_length; exact HA).
    destruct (Nat.lt_ge_cases (k - length A) (length D)) as [HD|HD].
    + rewrite nth_error_app1 in H by (rewrite stamp_length; exact HD).
      apply stamp_nth in H. destruct H as (m & _ & ->).
      replace (length A + (k - length A)) with k by lia.
      replace (clock_reads st + length A + (k - length A)) with (clock_reads st + k) by lia.
      split; reflexivity.
    + rewrite nth_error_app2, stamp_length in H by (rewrite stamp_length; exact HD).
      apply stamp_nth in H. destruct H as (m & _ & ->).
      replace (length A + length D + (k - length A - length D)) with k by lia.
      replace (clock_reads st + length A + length D + (k - length A - length D))
        with (clock_reads st + k) by lia.
      split; reflexivity.
Qed.

(** X5. The three loops of the fallback extractor share one counter and read
    the clock once for each change: the change at position [k] of the
    result has the identifier [alt-<type>-k] and the time of the [k]-th
    reading of the clock from the start of the scan. *)
Theorem fallback_changes_are_numbered W content st k c :
  nth_error (returned (parseAlternativeTrackChanges W content st)) k = Some c ->
  id c = fallback_id (type c) k /\
  timestamp c = TimeValue (clock W (clock_reads st + k)).
Proof. apply parseAlternativeTrackChanges_nth. Qed.

Lemma fallback_changes_are_numbered_witness :
  exists c,
    nth_error (returned (parseAlternativeTrackChanges Samples.world
                           (lit "[Deleted: a] [Added: b]") initial)) 1 = Some c /\
    id c = lit "alt-deleted-1".
Proof.
  eexists. split; [vm_compute; reflexivity|].
  apply (@fallback_changes_are_numbered Samples.world (lit "[Deleted: a] [Added: b]")
           initial 1).
  vm_compute. reflexivity.
Defined.

Lemma NoDup_by_position {A} (l : list A) :
  (forall i j a, nth_error l i = Some a -> nth_error l j = Some a -> i = j) -> NoDup l.
Proof.
  intros H. apply NoDup_nth_error. intros i j Hi E.
  destruct (nth_error l i) as [a|] eqn:Ei.
  - apply (H i j a); [exact Ei | symmetry; exact E].
  - apply nth_error_None in Ei. lia.
Qed.

(** X6. No two changes of one fallback result share an identifier. *)
Theorem fallback_ids_are_distinct W content st :
  NoDup (map id (returned (parseAlternativeTrackChanges W content st))).
Proof.
  apply NoDup_by_position. intros i j a Hi Hj.
  rewrite nth_error_map in Hi, Hj.
  destruct (nth_error (returned (parseAlternativeTrackChanges W content st)) i)
    as [ci|] eqn:Ei; [|discriminate Hi].
  destruct (nth_error (returned (parseAlternativeTrackChanges W content st)) j)
    as [cj|] eqn:Ej; [|discriminate Hj].
  cbn in Hi, Hj. injection Hi as Hi. injection Hj as Hj.
  destruct (parseAlternativeTrackChanges_nth _ _ _ _ Ei) as [Hci _].
  destruct (parseAlternativeTrackChanges_nth _ _ _ _ Ej) as [Hcj _].
  apply (@fallback_id_inj (type ci) (type cj)). congruence.
Qed.

Lemma In_skipn {A} (x : A) : forall n l, In x (skipn n l) -> In x l.
Proof.
  induction n as [|n IH]; intros [|a l] H; simpl in H; auto.
  right. apply IH, H.
Qed.

Lemma exec_needs_opening c l re content i m :
  exec (Lit (c :: l) :: re) content i = Some m -> In c content.
Proof.
  intros H. apply exec_sound in H. destruct H as [H _]. cbn [match_here] in H.
  destruct (strip_prefix (c :: l) (skipn (index m) content)) as [rest|] eqn:E;
    [|discriminate H].
  apply strip_prefix_app in E. apply In_skipn with (n := index m).
  rewrite E. left. reflexivity.
Qed.

Lemma exec_all_needs_opening c l re txt i :
  ~ In c txt -> exec_all (Lit (c :: l) :: re) txt i = [].
Proof.
  intros Hc. funelim (exec_all (Lit (c :: l) :: re) txt i); try reflexivity.
  match goal with
  | Hs : exec _ _ _ = Some _ |- _ => exfalso; apply Hc; eapply exec_needs_opening; exact Hs
  end.
Qed.

(** X7. A text without an opening square bracket yields no fallback change; the
    empty text that [getTextContent] returns when the conversion fails is
    such a text. *)
Theorem no_bracket_no_fallback_change W txt st :
  ~ In lbracket txt -> returned (parseAlternativeTrackChanges W txt st) = [].
Proof.
  intros H. rewrite parseAlternativeTrackChanges_eq. unfold returned. cbn [fst].
  unfold addedPattern, deletedPattern, modifiedPattern.
  change (lit "[Added: ") with (lbracket :: lit "Added: ").
  change (lit "[Deleted: ") with (lbracket :: lit "Deleted: ").
  change (lit "[Modified: ") with (lbracket :: lit "Modified: ").
  rewrite !(@exec_all_needs_opening lbracket) by exact H. reflexivity.
Qed.

Lemma no_bracket_no_fallback_change_witness :
  ~ In lbracket [] /\ returned (parseAlternativeTrackChanges Samples.world [] initial) = [].
Proof.
  split; [simpl; tauto|].
  apply (@no_bracket_no_fallback_change Samples.world [] initial). simpl. tauto.
Defined.

(** The lazy group stops at the first length at which the rest of the
    pattern matches. *)
Lemma lazy_group_shortest k : forall s taken gs n,
  lazy_group k s taken = Some (gs, n) ->
  exists g gs', gs = (taken ++ g) :: gs' /\ g <> [] /\ Forall dot g /\
                firstn (length g) s = g /\
                forall j, 0 < j < length g -> k (skipn j s) = None.
Proof.
  induction s as [|c s IH]; intros taken gs n H; simpl in H; [discriminate|].
  destruct (is_line_terminator c) eqn:Ec; [discriminate|].
  destruct (k s) as [[gs' m]|] eqn:Ek.
  - injection H as <- _. exists [c], gs'.
    split; [reflexivity|]. split; [discriminate|].
    split; [constructor; [exact Ec | constructor]|].
    split; [reflexivity|]. simpl. intros j Hj. lia.
  - apply IH in H. destruct H as (g & gs' & -> & Hg & Hd & Hf & Hmin).
    exists (c :: g), gs'. rewrite <- app_assoc.
    split; [reflexivity|]. split; [discriminate|].
    split; [constructor; assumption|].
    split; [simpl; rewrite Hf; reflexivity|].
    intros [|[|j]] Hj; simpl in Hj; [lia | exact Ek |].
    simpl. apply (Hmin (S j)). lia.
Qed.

Lemma closing_group_lazy s gs n :
  lazy_group (match_here [Lit (lit "]")]) s [] = Some (gs, n) ->
  exists g, gs = [g] /\ lazy_capture g.
Proof.
  intros H. destruct (lazy_group_shortest _ _ _ H) as (g & gs' & -> & Hg & Hd & Hf & Hmin).
  apply lazy_group_sound in H.
  destruct H as (g0 & gs0 & m & Hgs & _ & _ & _ & _ & Hk).
  injection Hgs as _ <-.
  assert (gs' = []) as ->.
  { cbn [match_here] in Hk.
    destruct (strip_prefix (lit "]") (skipn (length g0) s)); [|discriminate Hk].
    injection Hk as <- _. reflexivity. }
  exists g. split; [reflexivity|]. split; [exact Hg|]. split; [exact Hd|].
  intros Hin. apply In_nth with (d := rbracket) in Hin.
  destruct Hin as (j & Hj & Hnth).
  assert (Hlen : S j < length g) by (destruct g; simpl in *; [lia | lia]).
  specialize (Hmin (S j) (conj (Nat.lt_0_succ j) Hlen)).
  assert (Hs : exists r, skipn (S j) s = rbracket :: r).
  { rewrite <- Hf in Hnth, Hlen. rewrite length_firstn in Hlen.
    assert (Hsj : S j < length s) by lia.
    destruct (skipn (S j) s) as [|x r] eqn:Es.
    - apply (f_equal (@length ascii)) in Es. rewrite length_skipn in Es. simpl in Es. lia.
    - exists r. f_equal.
      assert (Hx : nth (S j) s rbracket = x).
      { rewrite <- (firstn_skipn (S j) s) at 1. rewrite Es.
        rewrite app_nth2; rewrite length_firstn, Nat.min_l by lia; [|lia].
        rewrite Nat.sub_diag. reflexivity. }
      rewrite <- Hx. rewrite <- Hnth.
      destruct s as [|y s']; [simpl in Hsj; lia|].
      destruct (length g) as [|lg] eqn:Elg; [lia|].
      simpl. clear -Hlen Hsj. simpl in Hsj.
      assert (Hj' : j < lg) by lia. clear Hlen.
      revert j lg Hj' Hsj. induction s' as [|z s' IHs]; intros j lg Hj' Hsj; [simpl in Hsj; lia|].
      destruct lg as [|lg]; [lia|]. destruct j as [|j]; [reflexivity|].
      simpl. apply IHs; simpl in Hsj; lia. }
  destruct Hs as (r & Hs). rewrite Hs in Hmin. discriminate Hmin.
Qed.

Lemma match_here_Lit l re s :
  match_here (Lit l :: re) s =
  match strip_prefix l s with
  | Some rest => match match_here re rest with
                 | Some (gs, n) => Some (gs, length l + n)
                 | None => None
                 end
  | None => None
  end.
Proof. reflexivity. Qed.

Lemma match_here_Group re s :
  match_here (Group :: re) s = lazy_group (match_here re) s [].
Proof. reflexivity. Qed.

Lemma one_group_lazy l content m :
  is_match [Lit l; Group; Lit (lit "]")] content m ->
  exists g, groups m = [g] /\ lazy_capture g.
Proof.
  intros [H _]. rewrite match_here_Lit in H.
  destruct (strip_prefix l (skipn (index m) content)) as [rest|]; [|discriminate H].
  rewrite match_here_Group in H.
  destruct (lazy_group (match_here [Lit (lit "]")]) rest []) as [[gs n]|] eqn:E;
    [|discriminate H].
  injection H as <- _. eapply closing_group_lazy. exact E.
Qed.

Lemma two_groups_lazy l l' content m :
  is_match [Lit l; Group; Lit l'; Group; Lit (lit "]")] content m ->
  exists g1 g2, groups m = [g1; g2] /\ g1 <> [] /\ Forall dot g1 /\ lazy_capture g2.
Proof.
  intros [H _]. rewrite match_here_Lit in H.
  destruct (strip_prefix l (skipn (index m) content)) as [rest|]; [|discriminate H].
  rewrite match_here_Group in H.
  destruct (lazy_group (match_here [Lit l'; Group; Lit (lit "]")]) rest [])
    as [[gs n]|] eqn:E; [|discriminate H].
  injection H as <- _. apply lazy_group_sound in E.
  destruct E as (g1 & gs' & k & -> & Hg1 & Hd1 & _ & _ & Hk).
  rewrite match_here_Lit in Hk.
  destruct (strip_prefix l' (skipn (length g1) rest)) as [rest'|]; [|discriminate Hk].
  rewrite match_here_Group in Hk.
  destruct (lazy_group (match_here [Lit (lit "]")]) rest' []) as [[gs2 n2]|] eqn:E2;
    [|discriminate Hk].
  injection Hk as <- _. apply closing_group_lazy in E2. destruct E2 as (g2 & -> & Hg2).
  exists g1, g2. auto.
Qed.

(** X8. The captures of the fallback changes are lazy: the text of an [added]
    or [modified] change and the original text of a [deleted] change have at
    least one code unit, no line terminator, and no closing bracket behind
    their first code unit. *)
Theorem fallback_captures_are_lazy W content st :
  Forall lazily_captured (returned (parseAlternativeTrackChanges W content st)).
Proof.
  rewrite parseAlternativeTrackChanges_eq. unfold returned. cbn [fst].
  destruct (exec_all_matches addedPattern content 0) as [HA _].
  destruct (exec_all_matches deletedPattern content 0) as [HD _].
  destruct (exec_all_matches modifiedPattern content 0) as [HC _].
  apply Forall_app. split; [|apply Forall_app; split].
  - eapply stamp_Forall; [|exact HA]. intros idx m now Hm.
    destruct (one_group_lazy Hm) as (g & Hg & Hl).
    unfold lazily_captured, alt_added, capture. cbn. rewrite Hg. exact Hl.
  - eapply stamp_Forall; [|exact HD]. intros idx m now Hm.
    destruct (one_group_lazy Hm) as (g & Hg & Hl).
    unfold lazily_captured, alt_deleted, capture. cbn. rewrite Hg.
    exists g. split; [reflexivity | exact Hl].
  - eapply stamp_Forall; [|exact HC]. intros idx m now Hm.
    destruct (two_groups_lazy Hm) as (g1 & g2 & Hg & Hn1 & Hd1 & Hl).
    unfold lazily_captured, alt_modified, capture. cbn. rewrite Hg.
    split; [exact Hl|]. exists g1. auto.
Qed.

(** ** The structured path pushes one change for each element with text *)

Lemma forEach_pushes {A} (keep : A -> bool) (R : A -> RedlineChange -> Prop)
      (cb : A -> M unit) :
  (forall x st, exists st' new,
      cb x st = (Ok tt, st') /\ st_changes st' = st_changes st ++ new /\
      Forall2 R (if keep x then [x] else []) new) ->
  forall l st, exists st' new,
    forEach l cb st = (Ok tt, st') /\ st_changes st' = st_changes st ++ new /\
    Forall2 R (filter keep l) new.
Proof.
  intros Hcb. induction l as [|x l IH]; intros st.
  - exists st, []. rewrite app_nil_r. repeat split. constructor.
  - rewrite forEach_cons. unfold bind.
    destruct (Hcb x st) as (st1 & new1 & -> & E1 & F1).
    destruct (IH st1) as (st2 & new2 & -> & E2 & F2).
    exists st2, (new1 ++ new2). split; [reflexivity|].
    split; [rewrite E2, E1, app_assoc; reflexivity|].
    cbn [filter]. destruct (keep x); [|inversion F1; subst; exact F2].
    apply (Forall2_app F1 F2).
Qed.

Section Pushes.

Variable W : World.

Lemma on_insertion_pushes element st :
  exists st' new,
    on_insertion W element st = (Ok tt, st') /\ st_changes st' = st_changes st ++ new /\
    Forall2 (pushed_for Added) (if has_text element then [element] else []) new.
Proof.
  unfold on_insertion, date_of, has_text, pushed_for, recovered.
  destruct (extractTextFromElement element) as [|a t] eqn:E;
    destruct (attribute element (lit "w:date")) as [d|];
    do 2 eexists; (split; [reflexivity|]); cbn.
  1,2: split; [symmetry; apply app_nil_r | constructor].
  all: split; [reflexivity|]; apply Forall2_cons; [|apply Forall2_nil];
    rewrite E; split; [|split; [|split]]; reflexivity.
Qed.

Lemma on_deletion_pushes element st :
  exists st' new,
    on_deletion W element st = (Ok tt, st') /\ st_changes st' = st_changes st ++ new /\
    Forall2 (pushed_for Deleted) (if has_text element then [element] else []) new.
Proof.
  unfold on_deletion, date_of, has_text, pushed_for, recovered.
  destruct (extractTextFromElement element) as [|a t] eqn:E;
    destruct (attribute element (lit "w:date")) as [d|];
    do 2 eexists; (split; [reflexivity|]); cbn.
  1,2: split; [symmetry; apply app_nil_r | constructor].
  all: split; [reflexivity|]; apply Forall2_cons; [|apply Forall2_nil];
    rewrite E; split; [|split; [|split]]; reflexivity.
Qed.

Lemma on_comment_pushes element st :
  exists st' new,
    on_comment W element st = (Ok tt, st') /\ st_changes st' = st_changes st ++ new /\
    Forall2 (pushed_for Comment) (if has_text element then [element] else []) new.
Proof.
  unfold on_comment, date_of, has_text, pushed_for, recovered.
  destruct (extractTextFromElement element) as [|a t] eqn:E;
    destruct (attribute element (lit "w:date")) as [d|];
    do 2 eexists; (split; [reflexivity|]); cbn.
  1,2: split; [symmetry; apply app_nil_r | constructor].
  all: split; [reflexivity|]; apply Forall2_cons; [|apply Forall2_nil];
    rewrite E; split; [|split; [|split]]; reflexivity.
Qed.

End Pushes.

Lemma extractChangesFromXML_pushes W xmlObj st :
  exists st' ins dels,
    extractChangesFromXML W xmlObj st = (Ok tt, st') /\
    st_changes st' = st_changes st ++ ins ++ dels /\
    Forall2 (pushed_for Added) (change_elements (lit "w:ins") xmlObj) ins /\
    Forall2 (pushed_for Deleted) (change_elements (lit "w:del") xmlObj) dels.
Proof.
  unfold extractChangesFromXML, change_elements, try_catch.
  destruct (get_truthy xmlObj (lit "w:document")) as [document|].
  - unfold bind. rewrite findElementsRecursive_tagged.
    destruct (@forEach_pushes _ has_text (pushed_for Added) (on_insertion W)
                (on_insertion_pushes W) (tagged (lit "w:ins") document) st)
      as (st1 & ins & -> & E1 & F1).
    rewrite findElementsRecursive_tagged.
    destruct (@forEach_pushes _ has_text (pushed_for Deleted) (on_deletion W)
                (on_deletion_pushes W) (tagged (lit "w:del") document) st1)
      as (st2 & dels & -> & E2 & F2).
    exists st2, ins, dels. split; [reflexivity|].
    split; [rewrite E2, E1, app_assoc; reflexivity|]. split; assumption.
  - exists st, [], []. split; [reflexivity|]. rewrite app_nil_r.
    split; [reflexivity|]. split; constructor.
Qed.

Lemma extractCommentsFromXML_pushes W xmlObj st :
  exists st' coms,
    extractCommentsFromXML W xmlObj st = (Ok tt, st') /\
    st_changes st' = st_changes st ++ coms /\
    Forall2 (pushed_for Comment) (comment_elements xmlObj) coms.
Proof.
  unfold extractCommentsFromXML, comment_elements, try_catch.
  destruct (get xmlObj (lit "w:comments")) as [wcomments|].
  - destruct (get_truthy wcomments (lit "w:comment")) as [comments|].
    + destruct (@forEach_pushes _ has_text (pushed_for Comment) (on_comment W)
                  (on_comment_pushes W) (as_array comments) st)
        as (st1 & coms & -> & E1 & F1).
      exists st1, coms. split; [reflexivity|]. split; assumption.
    + exists st, []. split; [reflexivity|]. rewrite app_nil_r.
      split; [reflexivity | constructor].
  - exists st, []. split; [reflexivity|]. rewrite app_nil_r.
    split; [reflexivity | constructor].
Qed.

(** X9. [extractChangesFromXML] completes and appends to the array exactly one
    change for each value with text under a key [w:ins] below [w:document],
    in the order of the search, and behind them one change for each value
    with text under a key [w:del]: the insertions of the whole document come
    before its deletions, whatever their order in the document.  Each
    change carries the recovered text and the author of its element, and
    the location from [0] to the length of the text. *)
Theorem extractChangesFromXML_pushes_in_order W xmlObj st :
  exists st' ins dels,
    extractChangesFromXML W xmlObj st = (Ok tt, st') /\
    st_changes st' = st_changes st ++ ins ++ dels /\
    Forall2 (pushed_for Added) (change_elements (lit "w:ins") xmlObj) ins /\
    Forall2 (pushed_for Deleted) (change_elements (lit "w:del") xmlObj) dels.
Proof. apply extractChangesFromXML_pushes. Qed.

(** X10. [extractCommentsFromXML] completes and appends exactly one change of
    type [comment] for each comment with text directly under [w:comments],
    in their order; its [text] is the recovered text and its location is
    [0..0]. *)
Theorem extractCommentsFromXML_pushes_in_order W xmlObj st :
  exists st' coms,
    extractCommentsFromXML W xmlObj st = (Ok tt, st') /\
    st_changes st' = st_changes st ++ coms /\
    Forall2 (pushed_for Comment) (comment_elements xmlObj) coms.
Proof. apply extractCommentsFromXML_pushes. Qed.

(** ** The structured path as a whole *)

Section StructuredRuns.

Variable W : World.
Variable file : File.
Variable archive : Archive.
Variables xml cxml : jsstring.
Variable tree : JsValue.

Hypothesis Hload : loadAsync file = inr archive.
Hypothesis Hdoc : archive (lit "word/document.xml") = Some (inr xml).
Hypothesis Hxml : xml <> [].
Hypothesis Htree : xml2js W xml = xml_result tree.
Hypothesis Hcom : archive (lit "word/comments.xml") = Some (inr cxml).
Hypothesis Hcxml : cxml <> [].

(** The structured path up to the parsing of the comments part. *)
Lemma structured_extraction_prefix st :
  exists st1 ins dels,
    extractChangesFromXML W tree st = (Ok tt, st1) /\
    st_changes st1 = st_changes st ++ ins ++ dels /\
    Forall2 (pushed_for Added) (change_elements (lit "w:ins") tree) ins /\
    Forall2 (pushed_for Deleted) (change_elements (lit "w:del") tree) dels /\
    structured_extraction W file st =
    bind (parseXMLPromise W cxml)
         (fun parsedComments =>
            extractCommentsFromXML W parsedComments ;;
            changes <- get_changes ;;
            match changes with
            | [] => emit (console_info (lit "No track changes found in document. Upload a document with track changes enabled."))
            | _ :: _ => ret tt
            end) st1.
Proof.
  destruct (extractChangesFromXML_pushes W tree st)
    as (st1 & ins & dels & Hrun & E & Fi & Fd).
  exists st1, ins, dels. split; [exact Hrun|]. split; [exact E|].
  split; [exact Fi|]. split; [exact Fd|].
  unfold structured_extraction. unfold bind at 1. rewrite Hload. cbn [await ret].
  unfold bind at 1. unfold entry_text. rewrite Hdoc. unfold bind at 1. cbn [await ret].
  destruct xml as [|x xs] eqn:Ex; [contradiction|]. rewrite <- Ex in *.
  unfold bind at 1. unfold parseXMLPromise at 1. rewrite Htree. cbn [ret].
  unfold bind at 1. rewrite Hrun.
  unfold bind at 1. unfold bind at 1. rewrite Hcom. unfold bind at 1. cbn [await ret].
  destruct cxml as [|y ys] eqn:Ey; [contradiction|]. rewrite <- Ey in *.
  unfold bind at 1. unfold bind at 2.
  destruct (parseXMLPromise W cxml st1) as [[parsed|e] st2]; [|reflexivity].
  reflexivity.
Qed.

End StructuredRuns.

(** X11. When both parts of the archive parse, [extractTrackChanges] returns the
    changes of the insertions of the document, then those of its
    deletions, then those of the comments of the comments part, one for
    each element with text and nothing else. *)
Theorem structured_result_in_order W file archive xml cxml tree ctree st
        (Hload : loadAsync file = inr archive)
        (Hdoc : archive (lit "word/document.xml") = Some (inr xml))
        (Hxml : xml <> [])
        (Htree : xml2js W xml = xml_result tree)
        (Hcom : archive (lit "word/comments.xml") = Some (inr cxml))
        (Hcxml : cxml <> [])
        (Hctree : xml2js W cxml = xml_result ctree) :
  exists ins dels coms st',
    extractTrackChanges W file st = (Ok (ins ++ dels ++ coms), st') /\
    Forall2 (pushed_for Added) (change_elements (lit "w:ins") tree) ins /\
    Forall2 (pushed_for Deleted) (change_elements (lit "w:del") tree) dels /\
    Forall2 (pushed_for Comment) (comment_elements ctree) coms.
Proof.
  destruct (structured_extraction_prefix W file Hload Hdoc Hxml Htree Hcom Hcxml
              (set_changes [] st))
    as (st1 & ins & dels & _ & E1 & Fi & Fd & Hrun).
  destruct (extractCommentsFromXML_pushes W ctree st1) as (st2 & coms & Hc & E2 & Fc).
  exists ins, dels, coms.
  assert (Hs : exists st3, structured_extraction W file (set_changes [] st) = (Ok tt, st3) /\
                           st_changes st3 = ins ++ dels ++ coms).
  { rewrite Hrun. unfold bind at 1. unfold parseXMLPromise. rewrite Hctree. cbn [ret].
    unfold bind at 1. rewrite Hc. unfold bind at 1. unfold get_changes.
    assert (E3 : st_changes st2 = ins ++ dels ++ coms).
    { rewrite E2, E1. cbn [set_changes st_changes app]. rewrite <- app_assoc. reflexivity. }
    destruct (st_changes st2) as [|c l] eqn:Ec.
    - eexists. split; [reflexivity|]. cbn. rewrite <- E3. exact Ec.
    - eexists. split; [reflexivity|]. rewrite <- E3. exact Ec. }
  destruct Hs as (st3 & Hs & E3). exists st3.
  rewrite (extractTrackChanges_structured W file st Hs), E3. auto.
Qed.

Lemma structured_result_in_order_witness :
  exists ins dels coms st',
    extractTrackChanges Samples.world Samples.marked_document initial
    = (Ok (ins ++ dels ++ coms), st') /\
    Forall2 (pushed_for Added) (change_elements (lit "w:ins") Samples.marked_tree) ins /\
    Forall2 (pushed_for Deleted) (change_elements (lit "w:del") Samples.marked_tree) dels /\
    Forall2 (pushed_for Comment) (comment_elements Samples.comments_tree) coms.
Proof.
  apply (@structured_result_in_order Samples.world Samples.marked_document
           (Samples.archive_of Samples.marked_xml (Some Samples.comments_xml))
           Samples.marked_xml Samples.comments_xml Samples.marked_tree Samples.comments_tree
           initial);
    try reflexivity; discriminate.
Defined.

(** X12. A comments part that does not parse makes the structured path raise
    after the changes of [document.xml] were pushed: those changes are not
    returned.  The result is what the fallback extractor finds in the text
    of a second conversion, and nothing else. *)
Theorem malformed_comments_discard_structured_changes W file archive xml cxml tree st
        (Hload : loadAsync file = inr archive)
        (Hdoc : archive (lit "word/document.xml") = Some (inr xml))
        (Hxml : xml <> [])
        (Htree : xml2js W xml = xml_result tree)
        (Hcom : archive (lit "word/comments.xml") = Some (inr cxml))
        (Hcxml : cxml <> [])
        (Hctree : forall r, xml2js W cxml <> xml_result r) :
  exists st2 st',
    extractTrackChanges W file st
    = (Ok (returned (parseAlternativeTrackChanges
                       W (fallback_text (convertToHtml file (conversions st))) st2)), st') /\
    conversions st' = S (conversions st).
Proof.
  destruct (structured_extraction_prefix W file Hload Hdoc Hxml Htree Hcom Hcxml
              (set_changes [] st))
    as (st1 & ins & dels & Hx & _ & _ & _ & Hrun).
  assert (Hs : exists e st1', structured_extraction W file (set_changes [] st)
                              = (Throw e, st1') /\ conversions st1' = conversions st).
  { destruct (structured_extraction W file (set_changes [] st)) as [[u|e] st1'] eqn:Hs.
    - exfalso. unfold bind at 1 in Hrun. unfold parseXMLPromise in Hrun.
      destruct (xml2js W cxml) as [r|err|error] eqn:Ex.
      + apply (Hctree r). reflexivity.
      + cbv [bind emit throw] in Hrun. discriminate Hrun.
      + cbv [bind emit throw] in Hrun. discriminate Hrun.
    - exists e, st1'. split; [reflexivity|].
      apply (structured_extraction_conversions W file _ Hs). }
  destruct Hs as (e & st1' & Hs & Hconv).
  pose proof (getTextContent_cases file (logged extraction_failed st1')) as Hg.
  cbn [logged conversions] in Hg. rewrite Hconv in Hg.
  set (st2 := match convertToHtml file (conversions st) with
              | inr _ => converted (logged extraction_failed st1')
              | inl _ => logged (console_warn (lit "Could not extract text content:"))
                                (converted (logged extraction_failed st1'))
              end).
  assert (Hg' : getTextContent file (logged extraction_failed st1')
                = (Ok (fallback_text (convertToHtml file (conversions st))), st2)).
  { rewrite Hg. unfold st2, fallback_text.
    destruct (convertToHtml file (conversions st)); reflexivity. }
  pose proof (parseAlternativeTrackChanges_eq W
                (fallback_text (convertToHtml file (conversions st))) st2) as Hp.
  cbv zeta in Hp.
  exists st2. eexists. split.
  - rewrite (extractTrackChanges_fallback W file st Hs Hg' Hp).
    rewrite Hp. unfold returned. cbn [fst]. reflexivity.
  - unfold st2. destruct (convertToHtml file (conversions st)); cbn; rewrite Hconv;
      reflexivity.
Qed.

Lemma malformed_comments_discard_structured_changes_witness :
  change_elements (lit "w:ins") Samples.marked_tree <> [] /\
  exists st2 st',
    extractTrackChanges Samples.world broken_comments initial
    = (Ok (returned (parseAlternativeTrackChanges
                       Samples.world
                       (fallback_text (convertToHtml broken_comments (conversions initial)))
                       st2)), st') /\
    conversions st' = S (conversions initial).
Proof.
  split; [discriminate|].
  apply (@malformed_comments_discard_structured_changes Samples.world broken_comments
           (Samples.archive_of Samples.marked_xml (Some (lit "<w:comments>")))
           Samples.marked_xml (lit "<w:comments>") Samples.marked_tree initial);
    try reflexivity; discriminate.
Defined.

(** ** How often the document is converted *)

Lemma extractTrackChanges_conversions W file st :
  conversions (snd (extractTrackChanges W file st)) =
  conversions st + match fst (structured_extraction W file (set_changes [] st)) with
                   | Ok _ => 0
                   | Throw _ => 1
                   end.
Proof.
  destruct (extractTrackChanges_cases W file st)
    as [(st1 & Hs & He) | (e & st1 & textContent & st2 & l & st3 & Hs & Hg & Hp & He)];
    rewrite He, Hs; cbn [fst snd].
  - rewrite (structured_extraction_conversions W file _ Hs). cbn. lia.
  - rewrite parseAlternativeTrackChanges_eq in Hp. injection Hp as _ <-.
    destruct (getTextContent_returns file (logged extraction_failed st1))
      as (t' & st2' & Hg' & _ & Hc).
    rewrite Hg in Hg'. injection Hg' as _ <-.
    cbn [advance logged conversions]. rewrite Hc. cbn [logged conversions].
    rewrite (structured_extraction_conversions W file _ Hs). cbn. lia.
Qed.

(** X13. [parseDocument] converts the document once when the conversion fails
    or the structured path completes, and twice when the structured path
    raises: the text the fallback extractor scans comes from a conversion
    of its own. *)
Theorem parseDocument_converts_once_or_twice W file st :
  conversions (snd (parseDocument W file st)) = conversions st + conversions_of W file st.
Proof.
  unfold conversions_of.
  destruct (convertToHtml file (conversions st)) as [e|html] eqn:Hc.
  - rewrite (parseDocument_failed W _ _ Hc). cbn. lia.
  - pose proof (extractTrackChanges_conversions W file (converted st)) as Hn.
    destruct (extractTrackChanges_engine W file (converted st)) as (l & st1 & He & _).
    rewrite (parseDocument_ok W _ _ Hc He). rewrite He in Hn. cbn [snd] in Hn.
    cbn [snd advance conversions]. rewrite Hn. cbn [converted conversions].
    destruct (fst (structured_extraction W file (set_changes [] (converted st)))); lia.
Qed.

(** * Further properties of the DOM variant *)

Lemma trimStart_fixed s :
  match s with
  | [] => True
  | c :: _ => is_space c = false
  end -> trimStart s = s.
Proof.
  destruct s as [|c s]; [reflexivity|]. simpl. intros ->. reflexivity.
Qed.

Lemma trimEnd_fixed s : ends_with_space s = false -> trimEnd s = s.
Proof.
  intros H. unfold trimEnd. rewrite ends_with_space_rev in H.
  rewrite trimStart_fixed; [apply rev_involutive|].
  destruct (rev s); [exact I | exact H].
Qed.

Lemma trim_idempotent s : trim (trim s) = trim s.
Proof.
  destruct (trim_clean s) as [Hh He].
  unfold trim at 1. rewrite (trimStart_fixed _ Hh). apply trimEnd_fixed, He.
Qed.

Module DomRuns.

Import Dom.

Lemma Node_forall (P : Node -> Prop) :
  (forall d, P (Text d)) ->
  (forall p l attrs children, Forall P children -> P (Element p l attrs children)) ->
  forall n, P n.
Proof.
  intros Ht He. fix IH 1. intros [p l attrs children|d].
  - apply He. induction children as [|c children IHc]; constructor; [apply IH | exact IHc].
  - apply Ht.
Qed.

(** The text content of an element of a subtree is a piece of the text
    content of the subtree. *)
Lemma textContent_elements : forall n x,
  In x (elements n) -> occurs_in (textContent x) (textContent n).
Proof.
  induction n as [d|p l attrs children IH] using Node_forall; intros x Hx.
  - destruct Hx.
  - cbn [elements] in Hx. destruct Hx as [<-|Hx]; [apply occurs_in_refl|].
    apply in_flat_map in Hx. destruct Hx as (child & Hc & Hx).
    rewrite Forall_forall in IH.
    apply (occurs_in_trans (IH child Hc x Hx)).
    cbn [textContent]. apply (occurs_in_concat textContent children child Hc).
Qed.

Lemma textContent_descendants element x :
  In x (descendants element) -> occurs_in (textContent x) (textContent element).
Proof.
  intros Hx. apply textContent_elements.
  destruct element as [p l attrs children|d]; [right; exact Hx | destruct Hx].
Qed.

Lemma extractTextFromElement_textContent element :
  extractTextFromElement element = trim (textContent element).
Proof.
  unfold extractTextFromElement. f_equal.
  assert (H : forall x, In x (querySelectorAll element text_selectors) ->
                        occurs_in (textContent x) (textContent element)).
  { intros x Hx. apply textContent_descendants.
    unfold querySelectorAll in Hx. apply filter_In in Hx. apply Hx. }
  induction (querySelectorAll element text_selectors) as [|x l IH]; [reflexivity|].
  cbn [fold_left]. destruct (textContent x) as [|c t] eqn:E.
  - apply IH. intros y Hy. apply H. right. exact Hy.
  - assert (Hin : includes (textContent element) (c :: t) = true).
    { apply includes_occurs. rewrite <- E. apply H. left. reflexivity. }
    rewrite Hin. apply IH. intros y Hy. apply H. right. exact Hy.
Qed.

End DomRuns.

(** X14. The text the DOM variant recovers for an element is the trimmed text
    content of the element: the search for [t] and [delText] elements below
    it never adds anything, since the text of a descendant is always
    contained in the text content of the element. *)
Theorem dom_text_is_trimmed_textContent element :
  Dom.extractTextFromElement element = trim (Dom.textContent element).
Proof. apply DomRuns.extractTextFromElement_textContent. Qed.

(** ** The passes of the DOM variant push one change for each element with text *)

Module DomPushes.

Import Dom.

Lemma forEach_from_pushes {A} (keep : A -> bool) (R : A -> RedlineChange -> Prop)
      (cb : A -> nat -> M unit) :
  (forall x i st, exists st' new,
      cb x i st = (Ok tt, st') /\ st_changes st' = st_changes st ++ new /\
      Forall2 R (if keep x then [x] else []) new /\ conversions st' = conversions st) ->
  forall l i st, exists st' new,
    forEach_from i l cb st = (Ok tt, st') /\ st_changes st' = st_changes st ++ new /\
    Forall2 R (filter keep l) new /\ conversions st' = conversions st.
Proof.
  intros Hcb. induction l as [|x l IH]; intros i st.
  - exists st, []. rewrite app_nil_r. repeat split. constructor.
  - cbn [forEach_from]. unfold bind.
    destruct (Hcb x i st) as (st1 & new1 & -> & E1 & F1 & C1).
    destruct (IH (S i) st1) as (st2 & new2 & -> & E2 & F2 & C2).
    exists st2, (new1 ++ new2). split; [reflexivity|].
    split; [rewrite E2, E1, app_assoc; reflexivity|].
    split; [|congruence].
    cbn [filter]. destruct (keep x); [|inversion F1; subst; exact F2].
    apply (Forall2_app F1 F2).
Qed.

Section Callbacks.

Variable W : World.

Lemma date_of_run dateStr st :
  exists date st1, date_of W dateStr st = (Ok date, st1) /\
                   st_changes st1 = st_changes st /\ conversions st1 = conversions st.
Proof.
  destruct dateStr as [[|a l]|]; do 2 eexists; (split; [|split]); reflexivity.
Qed.

Ltac run_date :=
  unfold bind at 1;
  match goal with
  | |- context [date_of W ?d ?st] =>
      let date := fresh "date" in
      let st1 := fresh "st1" in
      let Hc := fresh "Hc" in
      let Hv := fresh "Hv" in
      destruct (date_of_run d st) as (date & st1 & -> & Hc & Hv)
  end.

Ltac no_push Hc Hv :=
  do 2 eexists; split; [reflexivity|];
  split; [rewrite Hc; symmetry; apply app_nil_r|];
  split; [apply Forall2_nil | exact Hv].

Ltac one_push Hc Hv E :=
  do 2 eexists; split; [reflexivity|]; cbn; rewrite Hc;
  split; [reflexivity|]; split; [|exact Hv];
  apply Forall2_cons; [|apply Forall2_nil];
  cbn; rewrite ?E; split; [|split]; reflexivity.

Lemma dom_insertion_pushes element idx st :
  exists st' new,
    on_insertion W element idx st = (Ok tt, st') /\
    st_changes st' = st_changes st ++ new /\
    Forall2 (dom_pushed_for Added) (if dom_has_text element then [element] else []) new /\
    conversions st' = conversions st.
Proof.
  unfold on_insertion, dom_has_text, dom_pushed_for, recovered.
  rewrite DomRuns.extractTextFromElement_textContent, trim_idempotent.
  run_date.
  destruct (trim (textContent element)) as [|a t] eqn:E; [no_push Hc Hv | one_push Hc Hv E].
Qed.

Lemma dom_deletion_pushes element idx st :
  exists st' new,
    on_deletion W element idx st = (Ok tt, st') /\
    st_changes st' = st_changes st ++ new /\
    Forall2 (dom_pushed_for Deleted) (if dom_has_text element then [element] else []) new /\
    conversions st' = conversions st.
Proof.
  unfold on_deletion, dom_has_text, dom_pushed_for, recovered.
  rewrite DomRuns.extractTextFromElement_textContent, trim_idempotent.
  run_date.
  destruct (trim (textContent element)) as [|a t] eqn:E; [no_push Hc Hv | one_push Hc Hv E].
Qed.

Lemma dom_comment_pushes element idx st :
  exists st' new,
    on_comment W element idx st = (Ok tt, st') /\
    st_changes st' = st_changes st ++ new /\
    Forall2 (dom_pushed_for Comment) (if dom_has_text element then [element] else []) new /\
    conversions st' = conversions st.
Proof.
  unfold on_comment, dom_has_text, dom_pushed_for, recovered.
  rewrite DomRuns.extractTextFromElement_textContent, trim_idempotent.
  run_date.
  destruct (trim (textContent element)) as [|a t] eqn:E; [no_push Hc Hv | one_push Hc Hv E].
Qed.

Lemma dom_prefixed_pushes element idx st :
  exists st' new,
    on_prefixed W element idx st = (Ok tt, st') /\
    st_changes st' = st_changes st ++ new /\
    Forall2 (fun e c => dom_pushed_for (prefixed_kind e) e c)
            (if is_prefixed element && dom_has_text element then [element] else []) new /\
    conversions st' = conversions st.
Proof.
  unfold on_prefixed, is_prefixed, prefixed_kind, dom_has_text, dom_pushed_for, recovered.
  destruct (includes (tagName element) (lit ":ins") || includes (tagName element) (lit ":del"))
    eqn:Ep; cbn [andb].
  - rewrite DomRuns.extractTextFromElement_textContent, trim_idempotent.
    run_date.
    destruct (trim (textContent element)) as [|a t] eqn:E; [no_push Hc Hv|].
    destruct (includes (tagName element) (lit ":ins")) eqn:Ei.
    + do 2 eexists. split; [reflexivity|]. cbn. rewrite Hc.
      split; [reflexivity|]. split; [|exact Hv].
      apply Forall2_cons; [|apply Forall2_nil].
      cbn. change [":"%char; "i"%char; "n"%char; "s"%char] with (lit ":ins").
      rewrite Ei, E. split; [|split]; reflexivity.
    + do 2 eexists. split; [reflexivity|]. cbn. rewrite Hc.
      split; [reflexivity|]. split; [|exact Hv].
      apply Forall2_cons; [|apply Forall2_nil].
      cbn. change [":"%char; "i"%char; "n"%char; "s"%char] with (lit ":ins").
      rewrite Ei, E. split; [|split]; reflexivity.
  - exists st, []. split; [reflexivity|]. split; [symmetry; apply app_nil_r|].
    split; [constructor | reflexivity].
Qed.

Lemma dom_extractChangesFromXML_pushes xmlDoc st :
  exists st' ins dels again,
    extractChangesFromXML W xmlDoc st = (Ok tt, st') /\
    st_changes st' = st_changes st ++ ins ++ dels ++ again /\
    Forall2 (dom_pushed_for Added) (dom_insertions xmlDoc) ins /\
    Forall2 (dom_pushed_for Deleted) (dom_deletions xmlDoc) dels /\
    Forall2 (fun e c => dom_pushed_for (prefixed_kind e) e c) (dom_prefixed xmlDoc) again /\
    conversions st' = conversions st.
Proof.
  unfold extractChangesFromXML, try_catch, forEach_indexed,
    dom_insertions, dom_deletions, dom_prefixed.
  unfold bind at 1.
  destruct (@forEach_from_pushes _ dom_has_text (dom_pushed_for Added) (on_insertion W)
              dom_insertion_pushes
              (document_querySelectorAll xmlDoc
                 [type_selector (lit "ins"); type_selector (lit "w:ins")]) 0 st)
    as (st1 & ins & -> & E1 & F1 & C1).
  unfold bind at 1.
  destruct (@forEach_from_pushes _ dom_has_text (dom_pushed_for Deleted) (on_deletion W)
              dom_deletion_pushes
              (document_querySelectorAll xmlDoc
                 [type_selector (lit "del"); type_selector (lit "w:del")]) 0 st1)
    as (st2 & dels & -> & E2 & F2 & C2).
  unfold bind at 1.
  destruct (@forEach_from_pushes _ (fun e => is_prefixed e && dom_has_text e)
              (fun e c => dom_pushed_for (prefixed_kind e) e c) (on_prefixed W)
              dom_prefixed_pushes
              (document_querySelectorAll xmlDoc [universal]) 0 st2)
    as (st3 & again & -> & E3 & F3 & C3).
  eexists. exists ins, dels, again. split; [reflexivity|].
  split; [|split; [exact F1 | split; [exact F2 | split; [exact F3|]]]].
  - cbn. rewrite E3, E2, E1, <- !app_assoc. reflexivity.
  - cbn. congruence.
Qed.

Lemma dom_extractCommentsFromXML_pushes xmlDoc st :
  exists st' coms,
    extractCommentsFromXML W xmlDoc st = (Ok tt, st') /\
    st_changes st' = st_changes st ++ coms /\
    Forall2 (dom_pushed_for Comment) (dom_comments xmlDoc) coms /\
    conversions st' = conversions st.
Proof.
  unfold extractCommentsFromXML, try_catch, forEach_indexed, dom_comments.
  destruct (@forEach_from_pushes _ dom_has_text (dom_pushed_for Comment) (on_comment W)
              dom_comment_pushes
              (document_querySelectorAll xmlDoc
                 [type_selector (lit "comment"); type_selector (lit "w:comment")]) 0 st)
    as (st1 & coms & -> & E1 & F1 & C1).
  exists st1, coms. split; [reflexivity|]. split; [|split]; assumption.
Qed.

End Callbacks.

End DomPushes.

(** X15. [extractChangesFromXML] of the DOM variant completes and appends one
    change for each element with text that the selector [ins, w\:ins]
    matches, then one for each that [del, w\:del] matches, then one more
    for each element with text whose tag name contains [:ins] or [:del],
    each list in document order, and nothing else. *)
Theorem dom_extraction_pushes_in_three_passes W xmlDoc st :
  exists st' ins dels again,
    Dom.extractChangesFromXML W xmlDoc st = (Ok tt, st') /\
    st_changes st' = st_changes st ++ ins ++ dels ++ again /\
    Forall2 (dom_pushed_for Added) (dom_insertions xmlDoc) ins /\
    Forall2 (dom_pushed_for Deleted) (dom_deletions xmlDoc) dels /\
    Forall2 (fun e c => dom_pushed_for (prefixed_kind e) e c) (dom_prefixed xmlDoc) again.
Proof.
  destruct (DomPushes.dom_extractChangesFromXML_pushes W xmlDoc st)
    as (st' & ins & dels & again & H & E & Fi & Fd & Fa & _).
  exists st', ins, dels, again. auto.
Qed.

(** X16. [extractCommentsFromXML] of the DOM variant completes and appends one
    change of type [comment] for each element with text that the selector
    [comment, w\:comment] matches anywhere in the document, in document
    order. *)
Theorem dom_comments_pushed_in_order W xmlDoc st :
  exists st' coms,
    Dom.extractCommentsFromXML W xmlDoc st = (Ok tt, st') /\
    st_changes st' = st_changes st ++ coms /\
    Forall2 (dom_pushed_for Comment) (dom_comments xmlDoc) coms.
Proof.
  destruct (DomPushes.dom_extractCommentsFromXML_pushes W xmlDoc st)
    as (st' & coms & H & E & F & _).
  exists st', coms. auto.
Qed.

(** ** An element with a qualified tag is reported twice *)

Lemma Forall2_In_split {A B} (R : A -> B -> Prop) (x : A) : forall l l',
  Forall2 R l l' -> In x l -> exists a y b, l' = a ++ y :: b /\ R x y.
Proof.
  induction 1 as [|x0 y0 l l' Hxy HF IH]; intros Hin; [destruct Hin|].
  destruct Hin as [->|Hin].
  - exists [], y0, l'. split; [reflexivity | exact Hxy].
  - destruct (IH Hin) as (a & y & b & -> & Hy). exists (y0 :: a), y, b.
    split; [reflexivity | exact Hy].
Qed.

(** X17. An insertion element with a qualified tag ([w:ins]) and text is
    reported twice by the DOM variant: the array gets two changes of type
    [added] with the text of the element, one from the pass over the
    elements the selector [ins, w\:ins] matches and one from the pass over
    the elements whose tag name contains [:ins]. *)
Theorem qualified_insertion_is_reported_twice W xmlDoc st p attrs children :
  In (qualified_insertion p attrs children) (Dom.elements xmlDoc) ->
  trim (Dom.textContent (qualified_insertion p attrs children)) <> [] ->
  exists st' a c1 b c2 d,
    Dom.extractChangesFromXML W xmlDoc st = (Ok tt, st') /\
    st_changes st' = st_changes st ++ a ++ c1 :: b ++ c2 :: d /\
    type c1 = Added /\ type c2 = Added /\
    text c1 = trim (Dom.textContent (qualified_insertion p attrs children)) /\
    text c2 = trim (Dom.textContent (qualified_insertion p attrs children)).
Proof.
  intros Hin Htext. set (element := qualified_insertion p attrs children) in *.
  destruct (DomPushes.dom_extractChangesFromXML_pushes W xmlDoc st)
    as (st' & ins & dels & again & Hrun & E & Fi & _ & Fa & _).
  assert (Ht : dom_has_text element = true).
  { unfold dom_has_text. destruct (trim (Dom.textContent element)); [congruence | reflexivity]. }
  assert (Hi : includes (Dom.tagName element) (lit ":ins") = true).
  { apply includes_occurs. exists p, []. reflexivity. }
  assert (H1 : In element (dom_insertions xmlDoc)).
  { unfold dom_insertions, Dom.document_querySelectorAll. apply filter_In.
    split; [|exact Ht]. apply filter_In. split; [exact Hin | reflexivity]. }
  assert (H3 : In element (dom_prefixed xmlDoc)).
  { unfold dom_prefixed, Dom.document_querySelectorAll. apply filter_In. split.
    - apply filter_In. split; [exact Hin | reflexivity].
    - unfold is_prefixed. rewrite Hi, Ht. reflexivity. }
  destruct (@Forall2_In_split _ _ _ element _ _ Fi H1) as (a1 & c1 & b1 & -> & Hc1).
  destruct (@Forall2_In_split _ _ _ element _ _ Fa H3) as (a3 & c2 & b3 & -> & Hc2).
  unfold prefixed_kind in Hc2. rewrite Hi in Hc2.
  destruct Hc1 as (T1 & R1 & _). destruct Hc2 as (T2 & R2 & _).
  unfold recovered in R1, R2. rewrite T1 in R1. rewrite T2 in R2.
  exists st', a1, c1, (b1 ++ dels ++ a3), c2, b3.
  split; [exact Hrun|]. split; [|auto].
  rewrite E, <- !app_assoc. reflexivity.
Qed.

Lemma qualified_insertion_is_reported_twice_witness :
  exists st' a c1 b c2 d,
    Dom.extractChangesFromXML Samples.world qualified_insertion_dom initial = (Ok tt, st') /\
    st_changes st' = st_changes initial ++ a ++ c1 :: b ++ c2 :: d /\
    type c1 = Added /\ type c2 = Added /\
    text c1 = lit "new fee" /\ text c2 = lit "new fee".
Proof.
  apply (@qualified_insertion_is_reported_twice Samples.world qualified_insertion_dom initial
           (lit "w") [(lit "w:author", lit "Bob")]
           [Dom.Element (Some (lit "w")) (lit "t") [] [Dom.Text (lit "new fee")]]).
  - simpl. right. left. reflexivity.
  - vm_compute. discriminate.
Defined.

(** ** The orchestrator of the DOM variant *)

Module DomOrchestrator.

Import Dom.

Section Runs.

Variable W : World.
Variable parseFromString : jsstring -> Node.

Lemma structured_extraction_steps file archive x xml st :
  loadAsync file = inr archive ->
  archive (lit "word/document.xml") = Some (inr (x :: xml)) ->
  structured_extraction W parseFromString file st =
  bind (extractChangesFromXML W (parseFromString (x :: xml)))
       (fun _ => dom_comments_and_notice W parseFromString archive) st.
Proof.
  intros Hl Hd. unfold structured_extraction. unfold bind at 1. rewrite Hl. cbn [await ret].
  unfold bind at 1. unfold entry_text at 1. rewrite Hd. unfold bind at 1. cbn [await ret].
  reflexivity.
Qed.

Lemma notice_run st :
  exists st', (changes <- get_changes ;;
               match changes with
               | [] => emit (console_info (lit "No track changes found in document. Upload a document with track changes enabled."))
               | _ :: _ => ret tt
               end) st = (Ok tt, st') /\
              st_changes st' = st_changes st /\ conversions st' = conversions st.
Proof.
  unfold bind, get_changes. destruct (st_changes st) eqn:E; eexists; (split; [reflexivity|]);
    cbn; auto.
Qed.

Lemma structured_readable file st :
  archive_readable file = true ->
  exists st1 ins dels again coms,
    structured_extraction W parseFromString file st = (Ok tt, st1) /\
    st_changes st1 = st_changes st ++ ins ++ dels ++ again ++ coms /\
    Forall2 (dom_pushed_for Added)
            (dom_insertions (parseFromString (entry_of file (lit "word/document.xml")))) ins /\
    Forall2 (dom_pushed_for Deleted)
            (dom_deletions (parseFromString (entry_of file (lit "word/document.xml")))) dels /\
    Forall2 (fun e c => dom_pushed_for (prefixed_kind e) e c)
            (dom_prefixed (parseFromString (entry_of file (lit "word/document.xml")))) again /\
    Forall2 (dom_pushed_for Comment) (dom_comments_of parseFromString file) coms /\
    conversions st1 = conversions st.
Proof.
  unfold archive_readable, dom_comments_of, entry_of.
  destruct (loadAsync file) as [e|archive] eqn:Hl; [discriminate|].
  destruct (archive (lit "word/document.xml")) as [[e|[|x xml]]|] eqn:Hd; try discriminate.
  intros Hc. rewrite (structured_extraction_steps file st Hl Hd).
  unfold bind at 1.
  destruct (DomPushes.dom_extractChangesFromXML_pushes W (parseFromString (x :: xml)) st)
    as (st1 & ins & dels & again & -> & E1 & Fi & Fd & Fa & C1).
  unfold dom_comments_and_notice. unfold bind at 1. unfold entry_text.
  destruct (archive (lit "word/comments.xml")) as [[e|[|y cxml]]|]; try discriminate.
  - unfold bind at 1. cbn [await ret]. unfold bind at 1. cbn [ret].
    destruct (notice_run st1) as (st' & -> & Es & Cs).
    exists st', ins, dels, again, []. split; [reflexivity|].
    split; [rewrite Es, E1, app_nil_r; reflexivity|].
    split; [exact Fi|]. split; [exact Fd|]. split; [exact Fa|].
    split; [constructor | congruence].
  - unfold bind at 1. cbn [await ret]. unfold bind at 1.
    destruct (DomPushes.dom_extractCommentsFromXML_pushes W (parseFromString (y :: cxml)) st1)
      as (st2 & coms & -> & E2 & Fc & C2).
    destruct (notice_run st2) as (st' & -> & Es & Cs).
    exists st', ins, dels, again, coms. split; [reflexivity|].
    split; [rewrite Es, E2, E1, <- !app_assoc; reflexivity|].
    split; [exact Fi|]. split; [exact Fd|]. split; [exact Fa|].
    split; [exact Fc | congruence].
  - cbn [ret]. unfold bind at 1. cbn [ret].
    destruct (notice_run st1) as (st' & -> & Es & Cs).
    exists st', ins, dels, again, []. split; [reflexivity|].
    split; [rewrite Es, E1, app_nil_r; reflexivity|].
    split; [exact Fi|]. split; [exact Fd|]. split; [exact Fa|].
    split; [constructor | congruence].
Qed.

Lemma structured_unreadable file st :
  archive_readable file = false ->
  exists e st1,
    structured_extraction W parseFromString file st = (Throw e, st1) /\
    conversions st1 = conversions st.
Proof.
  unfold archive_readable.
  destruct (loadAsync file) as [e|archive] eqn:Hl.
  { intros _. unfold structured_extraction. unfold bind at 1. rewrite Hl.
    do 2 eexists. split; reflexivity. }
  destruct (archive (lit "word/document.xml")) as [[e|[|x xml]]|] eqn:Hd.
  1,2,4: intros _; unfold structured_extraction; unfold bind at 1; rewrite Hl; cbn [await ret];
    unfold bind at 1; unfold entry_text at 1; rewrite Hd;
    do 2 eexists; split; reflexivity.
  destruct (archive (lit "word/comments.xml")) as [[e|cxml]|] eqn:Hcm; try discriminate.
  intros _. rewrite (structured_extraction_steps file st Hl Hd).
  unfold bind at 1.
  destruct (DomPushes.dom_extractChangesFromXML_pushes W (parseFromString (x :: xml)) st)
    as (st1 & ins & dels & again & -> & _ & _ & _ & _ & C1).
  unfold dom_comments_and_notice. unfold bind at 1. unfold entry_text. rewrite Hcm.
  do 2 eexists. split; [reflexivity | exact C1].
Qed.

Lemma extractTrackChanges_completes file st st1 :
  structured_extraction W parseFromString file (set_changes [] st) = (Ok tt, st1) ->
  extractTrackChanges W parseFromString file st = (Ok (st_changes st1), st1).
Proof.
  intros H. unfold extractTrackChanges. unfold bind at 1. unfold new_changes.
  fold (set_changes [] st). unfold bind at 1. unfold extractTrackChanges_try, try_catch.
  unfold bind at 1. rewrite H. reflexivity.
Qed.

Lemma extractTrackChanges_falls_back file st e st1 textContent st2 l st3 :
  structured_extraction W parseFromString file (set_changes [] st) = (Throw e, st1) ->
  getTextContent file (logged extraction_failed st1) = (Ok textContent, st2) ->
  parseAlternativeTrackChanges W textContent st2 = (Ok l, st3) ->
  extractTrackChanges W parseFromString file st = (Ok l, st3).
Proof.
  intros H Hg Hp. unfold extractTrackChanges. unfold bind at 1. unfold new_changes.
  fold (set_changes [] st). unfold bind at 1. unfold extractTrackChanges_try, try_catch.
  unfold bind at 1. rewrite H.
  unfold bind at 1. unfold emit at 1. fold extraction_failed. fold (logged extraction_failed st1).
  unfold bind at 1. rewrite alternative_extraction_eq with (1 := Hg) (2 := Hp).
  destruct l; reflexivity.
Qed.

End Runs.

End DomOrchestrator.

(** X18. The DOM variant never takes the fallback path for a part that is not
    well formed: whatever [DOMParser] makes of the XML, if the archive
    opens and its parts can be read, [extractTrackChanges] returns the
    changes of the three passes over the document and of the comments, and
    converts the document no second time. *)
Theorem dom_result_of_a_readable_archive W parseFromString file st :
  archive_readable file = true ->
  exists ins dels again coms st',
    Dom.extractTrackChanges W parseFromString file st
    = (Ok (ins ++ dels ++ again ++ coms), st') /\
    Forall2 (dom_pushed_for Added)
            (dom_insertions (parseFromString (entry_of file (lit "word/document.xml")))) ins /\
    Forall2 (dom_pushed_for Deleted)
            (dom_deletions (parseFromString (entry_of file (lit "word/document.xml")))) dels /\
    Forall2 (fun e c => dom_pushed_for (prefixed_kind e) e c)
            (dom_prefixed (parseFromString (entry_of file (lit "word/document.xml")))) again /\
    Forall2 (dom_pushed_for Comment) (dom_comments_of parseFromString file) coms /\
    conversions st' = conversions st.
Proof.
  intros Hr.
  destruct (DomOrchestrator.structured_readable W parseFromString file (set_changes [] st) Hr)
    as (st1 & ins & dels & again & coms & Hs & E & Fi & Fd & Fa & Fc & C).
  exists ins, dels, again, coms, st1.
  rewrite (DomOrchestrator.extractTrackChanges_completes W parseFromString file st Hs), E.
  auto 10.
Qed.

Lemma dom_result_of_a_readable_archive_witness :
  archive_readable ill_formed_document = true /\
  exists ins dels again coms st',
    Dom.extractTrackChanges Samples.world sample_parseFromString ill_formed_document initial
    = (Ok (ins ++ dels ++ again ++ coms), st') /\
    conversions st' = conversions initial.
Proof.
  split; [reflexivity|].
  destruct (@dom_result_of_a_readable_archive Samples.world sample_parseFromString
              ill_formed_document initial eq_refl)
    as (ins & dels & again & coms & st' & H & _ & _ & _ & _ & C).
  exists ins, dels, again, coms, st'. split; [exact H | exact C].
Defined.

(** X19. When the archive does not open, has no [word/document.xml] that can be
    read, or its comments part cannot be read, the DOM variant returns
    what the fallback extractor finds in the text of a second conversion. *)
Theorem dom_result_of_an_unreadable_archive W parseFromString file st :
  archive_readable file = false ->
  exists st2 st',
    Dom.extractTrackChanges W parseFromString file st
    = (Ok (returned (parseAlternativeTrackChanges
                       W (fallback_text (convertToHtml file (conversions st))) st2)), st') /\
    conversions st' = S (conversions st).
Proof.
  intros Hr.
  destruct (DomOrchestrator.structured_unreadable W parseFromString file (set_changes [] st) Hr)
    as (e & st1 & Hs & Hconv). cbn [set_changes conversions] in Hconv.
  pose proof (getTextContent_cases file (logged extraction_failed st1)) as Hg.
  cbn [logged conversions] in Hg. rewrite Hconv in Hg.
  set (st2 := match convertToHtml file (conversions st) with
              | inr _ => converted (logged extraction_failed st1)
              | inl _ => logged (console_warn (lit "Could not extract text content:"))
                                (converted (logged extraction_failed st1))
              end).
  assert (Hg' : getTextContent file (logged extraction_failed st1)
                = (Ok (fallback_text (convertToHtml file (conversions st))), st2)).
  { rewrite Hg. unfold st2, fallback_text.
    destruct (convertToHtml file (conversions st)); reflexivity. }
  pose proof (parseAlternativeTrackChanges_eq W
                (fallback_text (convertToHtml file (conversions st))) st2) as Hp.
  cbv zeta in Hp.
  exists st2. eexists. split.
  - rewrite (DomOrchestrator.extractTrackChanges_falls_back W parseFromString file st Hs Hg' Hp).
    rewrite Hp. unfold returned. cbn [fst]. reflexivity.
  - unfold st2. destruct (convertToHtml file (conversions st)); cbn; rewrite Hconv;
      reflexivity.
Qed.

Lemma dom_result_of_an_unreadable_archive_witness :
  archive_readable Samples.not_an_archive = false /\
  exists st2 st',
    Dom.extractTrackChanges Samples.world sample_parseFromString Samples.not_an_archive initial
    = (Ok (returned (parseAlternativeTrackChanges
                       Samples.world
                       (fallback_text (convertToHtml Samples.not_an_archive
                                                     (conversions initial))) st2)), st') /\
    conversions st' = S (conversions initial).
Proof.
  split; [reflexivity|].
  apply (@dom_result_of_an_unreadable_archive Samples.world sample_parseFromString
           Samples.not_an_archive initial).
  reflexivity.
Defined.

(** * The fallback scan finds every bracket expression *)

Lemma lazy_group_complete k : forall g taken s',
  g <> [] -> Forall dot g -> k s' <> None -> lazy_group k (g ++ s') taken <> None.
Proof.
  induction g as [|c g IH]; intros taken s' Hne Hd Hk; [contradiction|].
  inversion Hd as [|? ? Hc Hg]; subst. cbn [app lazy_group].
  unfold dot in Hc. rewrite Hc.
  destruct (k (g ++ s')) as [[gs n]|] eqn:E; [discriminate|].
  destruct g as [|c' g'].
  - cbn in E. congruence.
  - apply IH; [discriminate | exact Hg | exact Hk].
Qed.

(** The matcher is complete: where a text of the pattern stands, it
    matches. *)
Lemma match_here_complete re : forall gs s rest,
  length gs = num_groups re -> Forall capturable gs -> s = render re gs ++ rest ->
  match_here re s <> None.
Proof.
  induction re as [|t re IH]; intros gs s rest Hl Hc ->.
  - cbn. discriminate.
  - destruct t as [l|].
    + cbn [render num_groups] in *. rewrite match_here_Lit, <- app_assoc, strip_prefix_self.
      specialize (IH gs _ rest Hl Hc eq_refl).
      destruct (match_here re (render re gs ++ rest)) as [[gs' n]|];
        [discriminate | congruence].
    + destruct gs as [|g gs]; [discriminate Hl|].
      cbn [render num_groups length] in *. injection Hl as Hl.
      inversion Hc as [|? ? [Hne Hd] Hgs]; subst.
      rewrite match_here_Group, <- app_assoc.
      apply lazy_group_complete; [exact Hne | exact Hd|].
      apply (IH gs _ rest Hl Hgs eq_refl).
Qed.

Lemma skipn_length_app {A} (pre l : list A) : skipn (length pre) (pre ++ l) = l.
Proof. induction pre as [|a pre IH]; [reflexivity | exact IH]. Qed.

Lemma occurs_matches re content j :
  occurs re content j -> j <= length content /\ match_here re (skipn j content) <> None.
Proof.
  intros (pre & gs & rest & -> & <- & Hl & Hc). split.
  - rewrite length_app. lia.
  - rewrite skipn_length_app. eapply match_here_complete; [exact Hl | exact Hc | reflexivity].
Qed.

(** A position at which the pattern matches lies in no gap between the
    matches of a scan, so it lies in one of them. *)
Lemma gap_free re content j : forall ms i,
  nothing_skipped re content i ms -> in_scan_order i ms ->
  i <= j <= length content -> match_here re (skipn j content) <> None ->
  exists m, In m ms /\ index m <= j < lastIndex_after m.
Proof.
  induction ms as [|m ms IH]; intros i Hn Ho Hj Hm; cbn in Hn, Ho.
  - exfalso. apply Hm, Hn, Hj.
  - destruct Hn as [Hgap Hrest]. destruct Ho as [Hi Ho].
    destruct (Nat.lt_ge_cases j (index m)) as [Hlt|Hge].
    { exfalso. apply Hm, Hgap. lia. }
    destruct (Nat.lt_ge_cases j (lastIndex_after m)) as [Hin|Hout].
    { exists m. split; [left; reflexivity | lia]. }
    destruct (IH (lastIndex_after m) Hrest Ho) as (m' & Hm' & Hr); [lia | exact Hm|].
    exists m'. split; [right; exact Hm' | exact Hr].
Qed.

Lemma stamp_In W mk m : forall ms idx tick,
  In m ms -> exists i now, In (mk i m now) (stamp W mk ms idx tick).
Proof.
  induction ms as [|m' ms IH]; intros idx tick Hin; [destruct Hin|].
  cbn [stamp]. destruct Hin as [->|Hin].
  - do 2 eexists. left. reflexivity.
  - destruct (IH (S idx) (S tick) Hin) as (i & now & H). exists i, now. right. exact H.
Qed.

(** Every occurrence of a pattern lies in the span of a change of its
    loop. *)
Lemma scan_covers W re content mk idx tick j :
  0 < min_length re -> (forall i m now, location (mk i m now) = span m) ->
  occurs re content j -> covered (stamp W mk (exec_all re content 0) idx tick) j.
Proof.
  intros Hre Hloc Hocc. destruct (occurs_matches Hocc) as [Hj Hm].
  destruct (exec_all_matches re content 0) as [_ Ho].
  pose proof (@exec_all_complete re content 0 Hre (Nat.le_0_l _)) as Hn.
  destruct (@gap_free re content j _ 0 Hn Ho (conj (Nat.le_0_l _) Hj) Hm) as (m & Hin & Hr).
  destruct (@stamp_In W mk m _ idx tick Hin) as (i & now & Hc).
  exists (mk i m now). split; [exact Hc|]. rewrite Hloc. cbn. exact Hr.
Qed.

Lemma skipn_not_nil {A} (l : list A) n : skipn n l <> [] -> n < length l.
Proof.
  intros H. destruct (Nat.lt_ge_cases n (length l)) as [Hlt|Hge]; [exact Hlt|].
  exfalso. apply H. apply skipn_all2. exact Hge.
Qed.

(** A match is an occurrence of the pattern, with the captures of the
    match. *)
Lemma is_match_occurs re content m :
  0 < min_length re -> is_match re content m ->
  exists rest,
    content = firstn (index m) content ++ render re (groups m) ++ rest /\
    length (firstn (index m) content) = index m /\
    length (groups m) = num_groups re /\ Forall capturable (groups m).
Proof.
  intros Hre [Hm Hw]. apply match_here_sound in Hm.
  destruct Hm as (Hf & Hl & Hg & Hmin).
  exists (skipn (length (whole m)) (skipn (index m) content)).
  rewrite <- Hf, firstn_skipn, firstn_skipn.
  split; [reflexivity|]. split; [|split; [exact Hl | exact Hg]].
  rewrite length_firstn. apply Nat.min_l.
  assert (Hne : skipn (index m) content <> []).
  { intros E. rewrite E, firstn_nil in Hw.
    rewrite <- Hw in Hmin. cbn in Hmin. lia. }
  apply skipn_not_nil in Hne. lia.
Qed.

Lemma added_at_occurs content j : added_at content j <-> occurs addedPattern content j.
Proof.
  unfold added_at, occurs. split.
  - intros (pre & x & post & -> & Hj & Hx). exists pre, [x], post.
    cbn [render addedPattern]. rewrite app_nil_r.
    split; [rewrite <- !app_assoc; reflexivity|].
    split; [exact Hj|]. split; [reflexivity | constructor; [exact Hx | constructor]].
  - intros (pre & gs & rest & -> & Hj & Hl & Hg).
    destruct gs as [|x [|y gs]]; try discriminate Hl.
    inversion Hg as [|? ? Hx _]; subst. exists pre, x, rest.
    cbn [render addedPattern]. rewrite app_nil_r.
    split; [rewrite <- !app_assoc; reflexivity | auto].
Qed.

Lemma deleted_at_occurs content j : deleted_at content j <-> occurs deletedPattern content j.
Proof.
  unfold deleted_at, occurs. split.
  - intros (pre & x & post & -> & Hj & Hx). exists pre, [x], post.
    cbn [render deletedPattern]. rewrite app_nil_r.
    split; [rewrite <- !app_assoc; reflexivity|].
    split; [exact Hj|]. split; [reflexivity | constructor; [exact Hx | constructor]].
  - intros (pre & gs & rest & -> & Hj & Hl & Hg).
    destruct gs as [|x [|y gs]]; try discriminate Hl.
    inversion Hg as [|? ? Hx _]; subst. exists pre, x, rest.
    cbn [render deletedPattern]. rewrite app_nil_r.
    split; [rewrite <- !app_assoc; reflexivity | auto].
Qed.

Lemma modified_at_occurs content j :
  modified_at content j <-> occurs modifiedPattern content j.
Proof.
  unfold modified_at, occurs. split.
  - intros (pre & x & y & post & -> & Hj & Hx & Hy). exists pre, [x; y], post.
    cbn [render modifiedPattern]. rewrite app_nil_r.
    split; [rewrite <- !app_assoc; reflexivity|].
    split; [exact Hj|]. split; [reflexivity|].
    constructor; [exact Hx | constructor; [exact Hy | constructor]].
  - intros (pre & gs & rest & -> & Hj & Hl & Hg).
    destruct gs as [|x [|y [|z gs]]]; try discriminate Hl.
    inversion Hg as [|? ? Hx Hg']; subst. inversion Hg' as [|? ? Hy _]; subst.
    exists pre, x, y, rest.
    cbn [render modifiedPattern]. rewrite app_nil_r.
    split; [rewrite <- !app_assoc; reflexivity | auto].
Qed.

Lemma is_match_at_occurs re content m :
  0 < min_length re -> is_match re content m -> occurs re content (index m).
Proof.
  intros Hre Hm. destruct (is_match_occurs Hre Hm) as (rest & E & Hlen & Hl & Hg).
  exists (firstn (index m) content), (groups m), rest. auto.
Qed.

(** C9. For every plain text, the fallback extractor returns the changes of
    all [[Added: X]] matches, then those of all [[Deleted: X]] matches, then
    those of all [[Modified: X -> Y]] matches, each group in scan order (the
    spans of a group follow each other in the text, and no match of the
    pattern lies in between).  The groups are complete and exact with respect
    to the text itself: every change of a group starts where a bracket
    expression of its kind stands in the text, and every position at which
    such an expression stands lies in the span of a change of the group.
    Every change has the author "Document Author" and its location is the
    span of the whole bracket expression in the text: [start] is the index of
    the match and [end] is [start] plus the length of the match. *)
Theorem fallback_groups_by_pattern W content st :
  exists la ld lm st',
    parseAlternativeTrackChanges W content st = (Ok (la ++ ld ++ lm), st') /\
    Forall2 (fallback_change Added) la (exec_all addedPattern content 0) /\
    Forall2 (fallback_change Deleted) ld (exec_all deletedPattern content 0) /\
    Forall2 (fallback_change Modified) lm (exec_all modifiedPattern content 0) /\
    spans_in_order 0 la /\ spans_in_order 0 ld /\ spans_in_order 0 lm /\
    nothing_skipped addedPattern content 0 (exec_all addedPattern content 0) /\
    nothing_skipped deletedPattern content 0 (exec_all deletedPattern content 0) /\
    nothing_skipped modifiedPattern content 0 (exec_all modifiedPattern content 0) /\
    Forall (fun c => author c = lit "Document Author" /\ literal_span content c)
           (la ++ ld ++ lm) /\
    Forall (fun c => type c = Added /\ added_at content (start (location c))) la /\
    Forall (fun c => type c = Deleted /\ deleted_at content (start (location c))) ld /\
    Forall (fun c => type c = Modified /\ modified_at content (start (location c))) lm /\
    (forall j, added_at content j -> covered la j) /\
    (forall j, deleted_at content j -> covered ld j) /\
    (forall j, modified_at content j -> covered lm j).
Proof.
  rewrite parseAlternativeTrackChanges_eq.
  destruct (exec_all_matches addedPattern content 0) as [HA SA].
  destruct (exec_all_matches deletedPattern content 0) as [HD SD].
  destruct (exec_all_matches modifiedPattern content 0) as [HC SC].
  do 4 eexists. split; [reflexivity|].
  split; [apply stamp_Forall2; intros; split; [|split]; reflexivity|].
  split; [apply stamp_Forall2; intros; split; [|split]; reflexivity|].
  split; [apply stamp_Forall2; intros; split; [|split]; reflexivity|].
  split; [exact (@stamp_in_order W alt_added addedPattern content addedPattern_progress
                   (fun _ _ _ => eq_refl) _ _ _ _ HA SA)|].
  split; [exact (@stamp_in_order W alt_deleted deletedPattern content deletedPattern_progress
                   (fun _ _ _ => eq_refl) _ _ _ _ HD SD)|].
  split; [exact (@stamp_in_order W alt_modified modifiedPattern content modifiedPattern_progress
                   (fun _ _ _ => eq_refl) _ _ _ _ HC SC)|].
  split; [apply exec_all_complete; [exact addedPattern_progress | apply Nat.le_0_l]|].
  split; [apply exec_all_complete; [exact deletedPattern_progress | apply Nat.le_0_l]|].
  split; [apply exec_all_complete; [exact modifiedPattern_progress | apply Nat.le_0_l]|].
  split.
  { apply Forall_app. split; [|apply Forall_app; split].
    - eapply stamp_Forall; [|exact HA]. intros. split; [reflexivity|].
      apply alt_added_span. assumption.
    - eapply stamp_Forall; [|exact HD]. intros. split; [reflexivity|].
      apply alt_deleted_span. assumption.
    - eapply stamp_Forall; [|exact HC]. intros. split; [reflexivity|].
      apply alt_modified_span. assumption. }
  split.
  { eapply stamp_Forall; [|exact HA]. intros i m now Hm. split; [reflexivity|].
    apply added_at_occurs, (is_match_at_occurs addedPattern_progress Hm). }
  split.
  { eapply stamp_Forall; [|exact HD]. intros i m now Hm. split; [reflexivity|].
    apply deleted_at_occurs, (is_match_at_occurs deletedPattern_progress Hm). }
  split.
  { eapply stamp_Forall; [|exact HC]. intros i m now Hm. split; [reflexivity|].
    apply modified_at_occurs, (is_match_at_occurs modifiedPattern_progress Hm). }
  split.
  { intros j Hj. apply added_at_occurs in Hj.
    exact (@scan_covers W addedPattern content alt_added _ _ j addedPattern_progress
             (fun _ _ _ => eq_refl) Hj). }
  split.
  { intros j Hj. apply deleted_at_occurs in Hj.
    exact (@scan_covers W deletedPattern content alt_deleted _ _ j deletedPattern_progress
             (fun _ _ _ => eq_refl) Hj). }
  intros j Hj. apply modified_at_occurs in Hj.
  exact (@scan_covers W modifiedPattern content alt_modified _ _ j modifiedPattern_progress
           (fun _ _ _ => eq_refl) Hj).
Qed.

Lemma fallback_groups_by_pattern_witness :
  map (fun c => (type c, start (location c), end_ (location c)))
      (returned (parseAlternativeTrackChanges Samples.world annotated_text initial))
  = [(Added, 34, 44); (Added, 45, 55); (Deleted, 0, 12); (Modified, 15, 33)] /\
  added_at annotated_text 45 /\
  covered (returned (parseAlternativeTrackChanges Samples.world annotated_text initial)) 45.
Proof.
  split; [vm_compute; reflexivity|].
  assert (Hj : added_at annotated_text 45).
  { exists (lit "[Deleted: a] x [Modified: b -> c] [Added: d] "), (lit "e"), [].
    split; [reflexivity|]. split; [reflexivity|].
    split; [discriminate | repeat constructor]. }
  split; [exact Hj|].
  destruct (fallback_groups_by_pattern Samples.world annotated_text initial)
    as (la & ld & lm & st' & Hrun & H).
  rewrite Hrun. unfold returned. cbn [fst].
  destruct H as (_ & _ & _ & _ & _ & _ & _ & _ & _ & _ & _ & _ & _ & Hcov & _).
  destruct (Hcov 45 Hj) as (c & Hin & Hc).
  exists c. split; [apply in_or_app; left; exact Hin | exact Hc].
Defined.

(** * What the passes of the DOM variant read from an element *)

Module DomReads.

Import Dom.

Lemma forEach_from_emits {A} (keep : A -> bool)
      (R : nat -> nat -> A -> RedlineChange -> Prop) (cb : A -> nat -> M unit) :
  (forall lo lo' hi' hi x c, lo <= lo' -> hi' <= hi -> R lo' hi' x c -> R lo hi x c) ->
  (forall x i st, exists st' new,
      cb x i st = (Ok tt, st') /\ st_changes st' = st_changes st ++ new /\
      clock_reads st <= clock_reads st' /\
      Forall2 (R (clock_reads st) (clock_reads st')) (if keep x then [x] else []) new) ->
  forall l i st, exists st' new,
    forEach_from i l cb st = (Ok tt, st') /\ st_changes st' = st_changes st ++ new /\
    clock_reads st <= clock_reads st' /\
    Forall2 (R (clock_reads st) (clock_reads st')) (filter keep l) new.
Proof.
  intros Hmono Hcb. induction l as [|x l IH]; intros i st.
  - exists st, []. rewrite app_nil_r. repeat split; [lia | constructor].
  - cbn [forEach_from]. unfold bind.
    destruct (Hcb x i st) as (st1 & new1 & -> & E1 & K1 & F1).
    destruct (IH (S i) st1) as (st2 & new2 & -> & E2 & K2 & F2).
    exists st2, (new1 ++ new2). split; [reflexivity|].
    split; [rewrite E2, E1, app_assoc; reflexivity|].
    split; [lia|].
    assert (F1' : Forall2 (R (clock_reads st) (clock_reads st2))
                          (if keep x then [x] else []) new1).
    { eapply Forall2_impl; [|exact F1]. intros a b. apply Hmono; lia. }
    assert (F2' : Forall2 (R (clock_reads st) (clock_reads st2)) (filter keep l) new2).
    { eapply Forall2_impl; [|exact F2]. intros a b. apply Hmono; lia. }
    cbn [filter]. destruct (keep x); [|inversion F1'; subst; exact F2'].
    apply (Forall2_app F1' F2').
Qed.

Section Callbacks.

Variable W : World.

Lemma dom_emitted_widens both kind lo lo' hi' hi element c :
  lo <= lo' -> hi' <= hi ->
  dom_emitted W both kind lo' hi' element c -> dom_emitted W both kind lo hi element c.
Proof. intros Hl Hh (k & Hk & Hr). exists k. split; [lia | exact Hr]. Qed.

(** [date_of] gives the parsed attribute, or reads the clock once. *)
Lemma date_of_reads dateStr st :
  exists st1,
    date_of W dateStr st =
    (Ok match truthy_attr dateStr with
        | Some d => Date_of_string W d
        | None => TimeValue (clock W (clock_reads st))
        end, st1) /\
    st_changes st1 = st_changes st /\ clock_reads st <= clock_reads st1.
Proof.
  destruct dateStr as [[|a l]|]; eexists; (split; [reflexivity|]); cbn; split;
    try reflexivity; lia.
Qed.

Lemma or_unknown_truthy a :
  or_unknown a = match truthy_attr a with
                 | Some s => s
                 | None => lit "Unknown"
                 end.
Proof. destruct a as [[|c s]|]; reflexivity. Qed.

Ltac run_date :=
  unfold bind at 1;
  match goal with
  | |- context [date_of W ?d ?st] =>
      let st1 := fresh "st1" in
      let Hc := fresh "Hc" in
      let Hk := fresh "Hk" in
      destruct (date_of_reads d st) as (st1 & -> & Hc & Hk)
  end.

Ltac no_emit Hc Hk :=
  do 2 eexists; split; [reflexivity|];
  split; [rewrite Hc; symmetry; apply app_nil_r|];
  split; [exact Hk | apply Forall2_nil].

Lemma dom_insertion_emits element idx st :
  exists st' new,
    on_insertion W element idx st = (Ok tt, st') /\
    st_changes st' = st_changes st ++ new /\
    clock_reads st <= clock_reads st' /\
    Forall2 (dom_emitted W true Added (clock_reads st) (clock_reads st'))
            (if dom_has_text element then [element] else []) new.
Proof.
  unfold on_insertion, dom_has_text.
  rewrite DomRuns.extractTextFromElement_textContent, trim_idempotent.
  run_date.
  destruct (trim (textContent element)) as [|a t] eqn:E; [no_emit Hc Hk|].
  do 2 eexists. split; [reflexivity|]. cbn. rewrite Hc.
  split; [reflexivity|]. split; [lia|].
  apply Forall2_cons; [|apply Forall2_nil].
  exists (clock_reads st). split; [lia|].
  unfold reads, dom_author_attr, dom_date_attr. cbn. rewrite E, or_unknown_truthy.
  split; [|split; [split|split]]; reflexivity.
Qed.

Lemma dom_deletion_emits element idx st :
  exists st' new,
    on_deletion W element idx st = (Ok tt, st') /\
    st_changes st' = st_changes st ++ new /\
    clock_reads st <= clock_reads st' /\
    Forall2 (dom_emitted W true Deleted (clock_reads st) (clock_reads st'))
            (if dom_has_text element then [element] else []) new.
Proof.
  unfold on_deletion, dom_has_text.
  rewrite DomRuns.extractTextFromElement_textContent, trim_idempotent.
  run_date.
  destruct (trim (textContent element)) as [|a t] eqn:E; [no_emit Hc Hk|].
  do 2 eexists. split; [reflexivity|]. cbn. rewrite Hc.
  split; [reflexivity|]. split; [lia|].
  apply Forall2_cons; [|apply Forall2_nil].
  exists (clock_reads st). split; [lia|].
  unfold reads, dom_author_attr, dom_date_attr. cbn. rewrite E, or_unknown_truthy.
  split; [|split; [split|split]]; reflexivity.
Qed.

Lemma dom_prefixed_emits element idx st :
  exists st' new,
    on_prefixed W element idx st = (Ok tt, st') /\
    st_changes st' = st_changes st ++ new /\
    clock_reads st <= clock_reads st' /\
    Forall2 (fun e c => dom_emitted W false (prefixed_kind e)
                                    (clock_reads st) (clock_reads st') e c)
            (if is_prefixed element && dom_has_text element then [element] else []) new.
Proof.
  unfold on_prefixed, is_prefixed, prefixed_kind, dom_has_text.
  destruct (includes (tagName element) (lit ":ins") || includes (tagName element) (lit ":del"))
    eqn:Ep; cbn [andb].
  - rewrite DomRuns.extractTextFromElement_textContent, trim_idempotent.
    run_date.
    destruct (trim (textContent element)) as [|a t] eqn:E; [no_emit Hc Hk|].
    destruct (includes (tagName element) (lit ":ins")) eqn:Ei.
    + do 2 eexists. split; [reflexivity|]. cbn. rewrite Hc.
      split; [reflexivity|]. split; [lia|].
      apply Forall2_cons; [|apply Forall2_nil].
      exists (clock_reads st). split; [lia|].
      unfold reads, dom_author_attr, dom_date_attr. cbn.
      change [":"%char; "i"%char; "n"%char; "s"%char] with (lit ":ins").
      rewrite Ei, E, or_unknown_truthy.
      split; [|split; [split|split]]; reflexivity.
    + do 2 eexists. split; [reflexivity|]. cbn. rewrite Hc.
      split; [reflexivity|]. split; [lia|].
      apply Forall2_cons; [|apply Forall2_nil].
      exists (clock_reads st). split; [lia|].
      unfold reads, dom_author_attr, dom_date_attr. cbn.
      change [":"%char; "i"%char; "n"%char; "s"%char] with (lit ":ins").
      rewrite Ei, E, or_unknown_truthy.
      split; [|split; [split|split]]; reflexivity.
  - exists st, []. split; [reflexivity|]. split; [symmetry; apply app_nil_r|].
    split; [lia | constructor].
Qed.

(** The three passes of [extractChangesFromXML], element by element. *)
Lemma dom_extraction_emits xmlDoc st :
  exists st' ins dels again,
    extractChangesFromXML W xmlDoc st = (Ok tt, st') /\
    st_changes st' = st_changes st ++ ins ++ dels ++ again /\
    Forall2 (dom_emitted W true Added (clock_reads st) (clock_reads st'))
            (dom_insertions xmlDoc) ins /\
    Forall2 (dom_emitted W true Deleted (clock_reads st) (clock_reads st'))
            (dom_deletions xmlDoc) dels /\
    Forall2 (fun e c => dom_emitted W false (prefixed_kind e)
                                    (clock_reads st) (clock_reads st') e c)
            (dom_prefixed xmlDoc) again.
Proof.
  unfold extractChangesFromXML, try_catch, forEach_indexed,
    dom_insertions, dom_deletions, dom_prefixed.
  unfold bind at 1.
  destruct (@forEach_from_emits _ dom_has_text (dom_emitted W true Added) (on_insertion W)
              (dom_emitted_widens (both := true) (kind := Added))
              dom_insertion_emits
              (document_querySelectorAll xmlDoc
                 [type_selector (lit "ins"); type_selector (lit "w:ins")]) 0 st)
    as (st1 & ins & -> & E1 & K1 & F1).
  unfold bind at 1.
  destruct (@forEach_from_emits _ dom_has_text (dom_emitted W true Deleted) (on_deletion W)
              (dom_emitted_widens (both := true) (kind := Deleted))
              dom_deletion_emits
              (document_querySelectorAll xmlDoc
                 [type_selector (lit "del"); type_selector (lit "w:del")]) 0 st1)
    as (st2 & dels & -> & E2 & K2 & F2).
  unfold bind at 1.
  destruct (@forEach_from_emits _ (fun e => is_prefixed e && dom_has_text e)
              (fun lo hi e c => dom_emitted W false (prefixed_kind e) lo hi e c)
              (on_prefixed W)
              (fun lo lo' hi' hi e c => @dom_emitted_widens false (prefixed_kind e)
                                          lo lo' hi' hi e c)
              dom_prefixed_emits
              (document_querySelectorAll xmlDoc [universal]) 0 st2)
    as (st3 & again & -> & E3 & K3 & F3).
  eexists. exists ins, dels, again. split; [reflexivity|]. cbn.
  split; [rewrite E3, E2, E1, <- !app_assoc; reflexivity|].
  split; [eapply Forall2_impl; [|exact F1]; intros a b; apply dom_emitted_widens; lia|].
  split; [eapply Forall2_impl; [|exact F2]; intros a b; apply dom_emitted_widens; lia|].
  eapply Forall2_impl; [|exact F3]. intros a b. apply dom_emitted_widens; lia.
Qed.

Lemma dom_emitted_stamped both kind lo hi element c :
  dom_emitted W both kind lo hi element c -> dom_stamped W both kind lo hi element c.
Proof.
  intros (k & Hk & Ht & Hx & _ & Hd). split; [exact Ht|]. split.
  - unfold recovered. rewrite Ht. destruct kind; destruct Hx as [Hx Ho];
      rewrite ?Ho; try exact Hx; reflexivity.
  - destruct (dom_date_attr both element) as [d|].
    + unfold Date_of_string in Hd. destruct (Date_parse W d); exact Hd.
    + exists k. split; [exact Hk | exact Hd].
Qed.

End Callbacks.

(** An element of the document with text whose tag is [w:name] or [name]
    is among those the selector [name, w\:name] yields. *)
Lemma selected xmlDoc name element :
  existsb (Ascii.eqb ":"%char) name = false -> name <> [] ->
  In element (elements xmlDoc) ->
  tagName element = lit "w:" ++ name \/ tagName element = name ->
  dom_has_text element = true ->
  In element (filter dom_has_text
                (document_querySelectorAll xmlDoc
                   [type_selector name; type_selector (lit "w:" ++ name)])).
Proof.
  intros Hn Hne Hin Htag Ht. apply filter_In. split; [|exact Ht].
  apply filter_In. split; [exact Hin|].
  apply DomFacts.tag_matches; assumption.
Qed.

End DomReads.

(** ** C2: which elements and attributes are matched *)

(** C2, as stated, fails.  The xml2js based extractor does not recognize an
    unprefixed [ins] element: for a document whose [w:document] holds an
    [ins] element with the text "new fee" it pushes no change.  And the
    pass of the DOM based variant over the tag names does not read
    unprefixed attributes: for the [w:ins] element of [sample_dom], whose
    attributes are written [author] and [date], the pass over the elements
    the selector matches emits a change with the author "Ann", and the
    pass over the tag names emits one more change, the third of the run,
    with the author "Unknown". *)
Lemma xml2js_matching_is_prefix_sensitive :
  (xml2js Samples.world Samples.unprefixed_xml = xml_result Samples.unprefixed_tree /\
   tagged (lit "ins") Samples.unprefixed_tree = [sample_unprefixed_insertion] /\
   extractTextFromElement sample_unprefixed_insertion = lit "new fee" /\
   extractChangesFromXML Samples.world Samples.unprefixed_tree initial = (Ok tt, initial)) /\
  (In sample_dom_insertion (Dom.elements sample_dom) /\
   Dom.tagName sample_dom_insertion = lit "w:ins" /\
   Dom.getAttribute sample_dom_insertion (lit "author") = Some (lit "Ann") /\
   exists c1 c2 c3,
     st_changes (snd (Dom.extractChangesFromXML Samples.world sample_dom initial))
     = [c1; c2; c3] /\
     type c1 = Added /\ text c1 = lit "new fee" /\ author c1 = lit "Ann" /\
     type c3 = Added /\ text c3 = lit "new fee" /\ author c3 = lit "Unknown").
Proof.
  split; [repeat split|].
  split; [cbn; tauto|]. split; [reflexivity|]. split; [reflexivity|].
  do 3 eexists. split; [vm_compute; reflexivity|]. repeat split.
Qed.

(** C2, amended.  In the DOM based variant of the structured extractor the
    passes over the elements a selector matches are prefix-insensitive: for
    every document, an element with text whose tag is [w:ins] or [ins]
    ([w:del] or [del]) is among the elements of the pass for insertions
    (for deletions), and the run appends one change for each element of
    the pass for insertions, then one for each element of the pass for
    deletions, each with the trimmed text of its element, with the author
    read from [w:author] or else from [author] (or else "Unknown") and the
    timestamp read from [w:date] or else from [date] (or else the clock).
    The third pass, over the elements whose tag name contains [:ins] or
    [:del], then appends one more change for each of them, and reads
    [w:author] and [w:date] only.  The xml2js based extractor recognizes
    the values stored under the keys [w:ins] and [w:del] below
    [w:document], and no others: it appends one [added] change for each
    value with text under [w:ins], then one [deleted] change for each
    under [w:del]. *)
Theorem dom_matching_is_prefix_insensitive W xmlDoc xmlObj st :
  (forall element,
      In element (Dom.elements xmlDoc) -> dom_has_text element = true ->
      (Dom.tagName element = lit "w:ins" \/ Dom.tagName element = lit "ins" ->
       In element (dom_insertions xmlDoc)) /\
      (Dom.tagName element = lit "w:del" \/ Dom.tagName element = lit "del" ->
       In element (dom_deletions xmlDoc))) /\
  (exists st' ins dels again,
      Dom.extractChangesFromXML W xmlDoc st = (Ok tt, st') /\
      st_changes st' = st_changes st ++ ins ++ dels ++ again /\
      Forall2 (dom_emitted W true Added (clock_reads st) (clock_reads st'))
              (dom_insertions xmlDoc) ins /\
      Forall2 (dom_emitted W true Deleted (clock_reads st) (clock_reads st'))
              (dom_deletions xmlDoc) dels /\
      Forall2 (fun e c => dom_emitted W false (prefixed_kind e)
                                      (clock_reads st) (clock_reads st') e c)
              (dom_prefixed xmlDoc) again) /\
  (exists st' ins dels,
      extractChangesFromXML W xmlObj st = (Ok tt, st') /\
      st_changes st' = st_changes st ++ ins ++ dels /\
      Forall2 (recognized Added) (change_elements (lit "w:ins") xmlObj) ins /\
      Forall2 (recognized Deleted) (change_elements (lit "w:del") xmlObj) dels).
Proof.
  split; [|split].
  - intros element Hin Ht. split; intros Htag.
    + apply (@DomReads.selected xmlDoc (lit "ins") element); auto. discriminate.
    + apply (@DomReads.selected xmlDoc (lit "del") element); auto. discriminate.
  - apply DomReads.dom_extraction_emits.
  - destruct (extractChangesFromXML_pushes W xmlObj st) as (st' & ins & dels & H & E & Fi & Fd).
    exists st', ins, dels. split; [exact H|]. split; [exact E|].
    split; (eapply Forall2_impl; [|eassumption]); intros a b (Hty & Hr & _);
      split; assumption.
Qed.

Lemma dom_matching_is_prefix_insensitive_witness :
  In sample_dom_insertion (dom_insertions sample_dom) /\
  In sample_dom_deletion (dom_deletions sample_dom) /\
  map (fun c => (type c, recovered c, author c))
      (st_changes (snd (Dom.extractChangesFromXML Samples.world sample_dom initial)))
  = [(Added, lit "new fee", lit "Ann"); (Deleted, lit "old fee", lit "Unknown");
     (Added, lit "new fee", lit "Unknown")] /\
  map (fun c => (type c, recovered c))
      (st_changes (snd (extractChangesFromXML Samples.world Samples.marked_tree initial)))
  = [(Added, lit "new fee"); (Deleted, lit "old fee")].
Proof.
  destruct (dom_matching_is_prefix_insensitive Samples.world sample_dom Samples.marked_tree
              initial) as [Hsel _].
  split; [|split].
  - apply (Hsel sample_dom_insertion); [cbn; tauto | reflexivity | left; reflexivity].
  - apply (Hsel sample_dom_deletion); [cbn; tauto | reflexivity | right; reflexivity].
  - split; vm_compute; reflexivity.
Defined.

(** ** C6: the timestamp of a change *)

(** C6, as stated, fails on the DOM based variant.  The [del] element of
    [sample_dom] has the date attribute "not a date", which is present and
    not parseable: the timestamp of its change is an invalid date, and no
    reading of the clock.  And the [w:ins] element has the parseable date
    attribute [date]: the pass over the elements the selector matches gives
    its change the parsed date, and the pass over the tag names, which
    reads [w:date] only, gives the second change of the element a reading
    of the clock. *)
Lemma unparseable_date_gives_invalid_date :
  (In sample_dom_deletion (Dom.elements sample_dom) /\
   Dom.getAttribute sample_dom_deletion (lit "w:date") = Some (lit "not a date") /\
   Date_parse Samples.world (lit "not a date") = None /\
   exists c,
     nth_error (st_changes (snd (Dom.extractChangesFromXML Samples.world sample_dom
                                                           initial))) 1 = Some c /\
     type c = Deleted /\ originalText c = Some (lit "old fee") /\
     timestamp c = InvalidDate /\
     forall k, timestamp c <> TimeValue (clock Samples.world k)) /\
  (In sample_dom_insertion (Dom.elements sample_dom) /\
   Dom.getAttribute sample_dom_insertion (lit "date") = Some (lit "2024-01-15T10:30:00Z") /\
   Date_parse Samples.world (lit "2024-01-15T10:30:00Z") = Some 1705314600000%Z /\
   exists c1 c3,
     nth_error (st_changes (snd (Dom.extractChangesFromXML Samples.world sample_dom
                                                           initial))) 0 = Some c1 /\
     nth_error (st_changes (snd (Dom.extractChangesFromXML Samples.world sample_dom
                                                           initial))) 2 = Some c3 /\
     type c1 = Added /\ text c1 = lit "new fee" /\
     timestamp c1 = TimeValue 1705314600000%Z /\
     type c3 = Added /\ text c3 = lit "new fee" /\
     timestamp c3 = TimeValue (clock Samples.world 2) /\
     timestamp c3 <> TimeValue 1705314600000%Z).
Proof.
  split.
  - split; [cbn; tauto|]. split; [reflexivity|]. split; [reflexivity|].
    eexists. split; [vm_compute; reflexivity|].
    split; [reflexivity|]. split; [reflexivity|]. split; [reflexivity|].
    intros k. discriminate.
  - split; [cbn; tauto|]. split; [reflexivity|]. split; [reflexivity|].
    do 2 eexists. split; [vm_compute; reflexivity|]. split; [vm_compute; reflexivity|].
    repeat split. vm_compute. discriminate.
Qed.

(** C6, amended.  For every document, the DOM based variant of the
    structured extractor emits one change for each element with text that
    the selector [ins, w\:ins] matches, then one for each that the selector
    [del, w\:del] matches, and the timestamp of the change of an element is
    [new Date(d)] when the date attribute [d] of the element ([w:date], or
    else [date]) is present and not empty: the parsed time value when [d]
    is parseable, an invalid date when it is not; it is the current time, a
    reading of the clock taken during the extraction, when the attribute is
    absent or empty.  The pass over the elements whose tag name contains
    [:ins] or [:del] then emits one more change for each of them, with the
    same rule for the attribute [w:date] alone. *)
Theorem structured_timestamp W xmlDoc st :
  exists st' ins dels again,
    Dom.extractChangesFromXML W xmlDoc st = (Ok tt, st') /\
    st_changes st' = st_changes st ++ ins ++ dels ++ again /\
    Forall2 (dom_stamped W true Added (clock_reads st) (clock_reads st'))
            (dom_insertions xmlDoc) ins /\
    Forall2 (dom_stamped W true Deleted (clock_reads st) (clock_reads st'))
            (dom_deletions xmlDoc) dels /\
    Forall2 (fun e c => dom_stamped W false (prefixed_kind e)
                                    (clock_reads st) (clock_reads st') e c)
            (dom_prefixed xmlDoc) again.
Proof.
  destruct (DomReads.dom_extraction_emits W xmlDoc st)
    as (st' & ins & dels & again & H & E & Fi & Fd & Fa).
  exists st', ins, dels, again. split; [exact H|]. split; [exact E|].
  split; [|split]; (eapply Forall2_impl; [|eassumption]); intros a b;
    apply DomReads.dom_emitted_stamped.
Qed.

Lemma structured_timestamp_witness :
  exists st' c1 c2 c3,
    Dom.extractChangesFromXML Samples.world sample_dom initial = (Ok tt, st') /\
    st_changes st' = [c1; c2; c3] /\
    timestamp c1 = TimeValue 1705314600000%Z /\
    timestamp c2 = InvalidDate /\
    exists k, 0 <= k < clock_reads st' /\ timestamp c3 = TimeValue (clock Samples.world k).
Proof.
  destruct (structured_timestamp Samples.world sample_dom initial)
    as (st' & ins & dels & again & H & E & Fi & Fd & Fa).
  change (dom_insertions sample_dom) with [sample_dom_insertion] in Fi.
  change (dom_deletions sample_dom) with [sample_dom_deletion] in Fd.
  change (dom_prefixed sample_dom) with [sample_dom_insertion] in Fa.
  inversion Fi as [|e1 c1 l1 l1' (_ & _ & H1) N1]; subst. inversion N1; subst.
  inversion Fd as [|e2 c2 l2 l2' (_ & _ & H2) N2]; subst. inversion N2; subst.
  inversion Fa as [|e3 c3 l3 l3' (_ & _ & H3) N3]; subst. inversion N3; subst.
  exists st', c1, c2, c3. split; [exact H|]. split; [exact E|].
  split; [exact H1|]. split; [exact H2 | exact H3].
Defined.

(** * The xml2js based extractor on the values of the configured parser *)

Lemma lookup_In props key v : lookup props key = Some v -> exists k, In (k, v) props.
Proof.
  induction props as [|[k w] props IH]; cbn; [discriminate|].
  destruct (jsstring_eqb k key).
  - intros [= ->]. exists k. left. reflexivity.
  - intros H. destruct (IH H) as (k' & Hk). exists k'. right. exact Hk.
Qed.

Lemma attr_free_no_bag v : attr_free v = true -> get v (lit "$") = None.
Proof.
  destruct v as [s|items|props]; try reflexivity. cbn [attr_free get].
  intros H. apply andb_prop in H. destruct H as [H _].
  induction props as [|[k w] props IH]; [reflexivity|].
  cbn [existsb lookup fst] in H |- *.
  destruct (jsstring_eqb k (lit "$")); cbn [orb negb] in H; [discriminate H | exact (IH H)].
Qed.

Lemma attr_free_get v key w : attr_free v = true -> get v key = Some w -> attr_free w = true.
Proof.
  destruct v as [s|items|props]; try discriminate. cbn [attr_free get].
  intros H Hl. apply andb_prop in H. destruct H as [_ H].
  destruct (lookup_In _ _ Hl) as (k & Hk).
  rewrite forallb_forall in H. exact (H _ Hk).
Qed.

Lemma attr_free_get_truthy v key w :
  attr_free v = true -> get_truthy v key = Some w -> attr_free w = true.
Proof.
  unfold get_truthy. intros H Hg. destruct (get v key) as [u|] eqn:E; [|discriminate].
  destruct (truthy u); [|discriminate]. injection Hg as <-.
  exact (attr_free_get _ _ H E).
Qed.

Lemma attr_free_as_array v :
  attr_free v = true -> Forall (fun x => attr_free x = true) (as_array v).
Proof.
  intros H. destruct v as [s|items|props]; cbn [as_array].
  - constructor; [exact H | constructor].
  - apply Forall_forall. cbn [attr_free] in H. rewrite forallb_forall in H. exact H.
  - constructor; [exact H | constructor].
Qed.

(** The values a search visits in a value without [$] objects have no [$]
    object. *)
Lemma attr_free_tagged tagName : forall obj,
  attr_free obj = true -> Forall (fun x => attr_free x = true) (tagged tagName obj).
Proof.
  induction obj as [s|items IH|props IH] using JsValue_ind; intros H.
  - constructor.
  - cbn [tagged]. cbn [attr_free] in H. rewrite forallb_forall in H.
    apply Forall_forall. intros x Hx. apply in_flat_map in Hx.
    destruct Hx as (item & Hi & Hx). rewrite Forall_forall in IH.
    pose proof (IH item Hi (H item Hi)) as Hall. rewrite Forall_forall in Hall.
    exact (Hall x Hx).
  - cbn [tagged]. apply Forall_app. split.
    + destruct (get_truthy (JObject props) tagName) as [found|] eqn:E; [|constructor].
      apply attr_free_as_array. exact (attr_free_get_truthy _ _ H E).
    + cbn [attr_free] in H. apply andb_prop in H. destruct H as [_ H].
      rewrite forallb_forall in H.
      apply Forall_forall. intros x Hx. apply in_flat_map in Hx.
      destruct Hx as (p & Hp & Hx). rewrite Forall_forall in IH.
      pose proof (IH p Hp (H p Hp)) as Hall. rewrite Forall_forall in Hall.
      exact (Hall x Hx).
Qed.

Lemma forEach_stamps {A} (good : A -> Prop) (Q : nat -> nat -> RedlineChange -> Prop)
      (cb : A -> M unit) :
  (forall lo lo' hi' hi c, lo <= lo' -> hi' <= hi -> Q lo' hi' c -> Q lo hi c) ->
  (forall x st, good x -> exists st' new,
      cb x st = (Ok tt, st') /\ st_changes st' = st_changes st ++ new /\
      clock_reads st <= clock_reads st' /\
      Forall (Q (clock_reads st) (clock_reads st')) new) ->
  forall l st, Forall good l -> exists st' new,
    forEach l cb st = (Ok tt, st') /\ st_changes st' = st_changes st ++ new /\
    clock_reads st <= clock_reads st' /\
    Forall (Q (clock_reads st) (clock_reads st')) new.
Proof.
  intros Hmono Hcb. induction l as [|x l IH]; intros st Hl.
  - exists st, []. rewrite app_nil_r. repeat split; [lia | constructor].
  - inversion Hl as [|? ? Hx Hl']; subst. rewrite forEach_cons. unfold bind.
    destruct (Hcb x st Hx) as (st1 & new1 & -> & E1 & K1 & F1).
    destruct (IH st1 Hl') as (st2 & new2 & -> & E2 & K2 & F2).
    exists st2, (new1 ++ new2). split; [reflexivity|].
    split; [rewrite E2, E1, app_assoc; reflexivity|].
    split; [lia|]. apply Forall_app. split.
    + eapply Forall_impl; [|exact F1]. intros c. apply Hmono; lia.
    + eapply Forall_impl; [|exact F2]. intros c. apply Hmono; lia.
Qed.

Section Merged.

Variable W : World.

Lemma unattributed_widens lo lo' hi' hi c :
  lo <= lo' -> hi' <= hi -> unattributed W lo' hi' c -> unattributed W lo hi c.
Proof. intros Hl Hh (Ha & k & Hk & Ht). split; [exact Ha|]. exists k. split; [lia | exact Ht]. Qed.

Ltac unattributed_callback Hg :=
  rewrite Hg;
  match goal with
  | |- context [extractTextFromElement ?e] =>
      destruct (extractTextFromElement e) as [|a t] eqn:E
  end;
  do 2 eexists; (split; [reflexivity|]); cbn;
  [ split; [symmetry; apply app_nil_r|]; split; [lia | constructor]
  | split; [reflexivity|]; split; [lia|];
    constructor; [|constructor];
    split; [reflexivity|];
    match goal with
    | |- context [clock W (clock_reads ?st)] =>
        exists (clock_reads st); split; [lia | reflexivity]
    end ].

Lemma on_insertion_unattributed element st :
  attr_free element = true ->
  exists st' new,
    on_insertion W element st = (Ok tt, st') /\ st_changes st' = st_changes st ++ new /\
    clock_reads st <= clock_reads st' /\
    Forall (unattributed W (clock_reads st) (clock_reads st')) new.
Proof.
  intros Hg. apply attr_free_no_bag in Hg.
  unfold on_insertion, author_of, date_of, attribute, unattributed.
  unattributed_callback Hg.
Qed.

Lemma on_deletion_unattributed element st :
  attr_free element = true ->
  exists st' new,
    on_deletion W element st = (Ok tt, st') /\ st_changes st' = st_changes st ++ new /\
    clock_reads st <= clock_reads st' /\
    Forall (unattributed W (clock_reads st) (clock_reads st')) new.
Proof.
  intros Hg. apply attr_free_no_bag in Hg.
  unfold on_deletion, author_of, date_of, attribute, unattributed.
  unattributed_callback Hg.
Qed.

Lemma on_comment_unattributed element st :
  attr_free element = true ->
  exists st' new,
    on_comment W element st = (Ok tt, st') /\ st_changes st' = st_changes st ++ new /\
    clock_reads st <= clock_reads st' /\
    Forall (unattributed W (clock_reads st) (clock_reads st')) new.
Proof.
  intros Hg. apply attr_free_no_bag in Hg.
  unfold on_comment, author_of, date_of, attribute, unattributed.
  unattributed_callback Hg.
Qed.

Lemma extractChangesFromXML_unattributed xmlObj st :
  attr_free xmlObj = true ->
  exists st' new,
    extractChangesFromXML W xmlObj st = (Ok tt, st') /\
    st_changes st' = st_changes st ++ new /\
    Forall (unattributed W (clock_reads st) (clock_reads st')) new.
Proof.
  intros Hf. unfold extractChangesFromXML, try_catch.
  destruct (get_truthy xmlObj (lit "w:document")) as [document|] eqn:Ed.
  - pose proof (attr_free_get_truthy _ _ Hf Ed) as Hd.
    unfold bind. rewrite findElementsRecursive_tagged.
    destruct (@forEach_stamps _ (fun x => attr_free x = true) (unattributed W)
                (on_insertion W) unattributed_widens on_insertion_unattributed
                (tagged (lit "w:ins") document) st (attr_free_tagged _ _ Hd))
      as (st1 & ins & -> & E1 & K1 & F1).
    rewrite findElementsRecursive_tagged.
    destruct (@forEach_stamps _ (fun x => attr_free x = true) (unattributed W)
                (on_deletion W) unattributed_widens on_deletion_unattributed
                (tagged (lit "w:del") document) st1 (attr_free_tagged _ _ Hd))
      as (st2 & dels & -> & E2 & K2 & F2).
    exists st2, (ins ++ dels). split; [reflexivity|].
    split; [rewrite E2, E1, app_assoc; reflexivity|].
    apply Forall_app. split.
    + eapply Forall_impl; [|exact F1]. intros c. apply unattributed_widens; lia.
    + eapply Forall_impl; [|exact F2]. intros c. apply unattributed_widens; lia.
  - exists st, []. split; [reflexivity|]. rewrite app_nil_r. split; [reflexivity | constructor].
Qed.

Lemma extractCommentsFromXML_unattributed xmlObj st :
  attr_free xmlObj = true ->
  exists st' new,
    extractCommentsFromXML W xmlObj st = (Ok tt, st') /\
    st_changes st' = st_changes st ++ new /\
    Forall (unattributed W (clock_reads st) (clock_reads st')) new.
Proof.
  intros Hf. unfold extractCommentsFromXML, try_catch.
  destruct (get xmlObj (lit "w:comments")) as [wcomments|] eqn:Ew.
  - pose proof (attr_free_get _ _ Hf Ew) as Hw.
    destruct (get_truthy wcomments (lit "w:comment")) as [comments|] eqn:Ec.
    + pose proof (attr_free_get_truthy _ _ Hw Ec) as Hc.
      destruct (@forEach_stamps _ (fun x => attr_free x = true) (unattributed W)
                  (on_comment W) unattributed_widens on_comment_unattributed
                  (as_array comments) st (attr_free_as_array _ Hc))
        as (st1 & coms & -> & E1 & K1 & F1).
      exists st1, coms. auto.
    + exists st, []. split; [reflexivity|]. rewrite app_nil_r.
      split; [reflexivity | constructor].
  - exists st, []. split; [reflexivity|]. rewrite app_nil_r.
    split; [reflexivity | constructor].
Qed.

End Merged.

(** X30. On a value without [$] objects, as the configured parser builds them
    ([mergeAttrs: true]), the xml2js based extractors never find an author
    or a date: every change that [extractChangesFromXML] and
    [extractCommentsFromXML] append has the author "Unknown" and a reading
    of the clock, taken during the call, as its timestamp, whatever
    [w:author] and [w:date] properties the elements carry. *)
Theorem merged_attributes_are_never_read W xmlObj st :
  attr_free xmlObj = true ->
  (exists st' new,
      extractChangesFromXML W xmlObj st = (Ok tt, st') /\
      st_changes st' = st_changes st ++ new /\
      Forall (unattributed W (clock_reads st) (clock_reads st')) new) /\
  (exists st' new,
      extractCommentsFromXML W xmlObj st = (Ok tt, st') /\
      st_changes st' = st_changes st ++ new /\
      Forall (unattributed W (clock_reads st) (clock_reads st')) new).
Proof.
  intros Hf. split.
  - apply extractChangesFromXML_unattributed. exact Hf.
  - apply extractCommentsFromXML_unattributed. exact Hf.
Qed.

Lemma merged_attributes_are_never_read_witness :
  xml2js Samples.world Samples.marked_xml = xml_result Samples.marked_tree /\
  attr_free Samples.marked_tree = true /\
  exists st' new,
    extractChangesFromXML Samples.world Samples.marked_tree initial = (Ok tt, st') /\
    st_changes st' = st_changes initial ++ new /\
    Forall (unattributed Samples.world (clock_reads initial) (clock_reads st')) new.
Proof.
  split; [reflexivity|]. split; [reflexivity|].
  apply (@merged_attributes_are_never_read Samples.world Samples.marked_tree initial).
  reflexivity.
Defined.

(** * Properties of the review page *)

(** ** Uploads *)

Section Upload.

Variable W : World.

Lemma handleFileUpload_failed file ui st e :
  convertToHtml file (conversions st) = inl e ->
  handleFileUpload W file ui st =
  (Ok tt, setIsUploading false (show_toast process_failed_toast (setIsUploading true ui)),
   logged parse_failed (converted st)).
Proof.
  intros Hc. unfold handleFileUpload, ebind, efinally, etry, lift, update.
  rewrite (parseDocument_failed W _ _ Hc). reflexivity.
Qed.

Lemma handleFileUpload_loaded file ui st html l st1 :
  convertToHtml file (conversions st) = inr html ->
  extractTrackChanges W file (converted st) = (Ok l, st1) ->
  handleFileUpload W file ui st =
  (Ok tt,
   setIsUploading false
     (show_toast (loaded_toast (length l))
        (setDocumentState
           (fun _ => Some {| DocumentState.metadata :=
                               metadata_of file (html_to_text html) l
                                           (TimeValue (clock W (clock_reads st1)));
                             DocumentState.changes := l;
                             DocumentState.collaborationComments := [];
                             DocumentState.selectedChangeId := None;
                             DocumentState.documentContent := html_to_text html;
                             DocumentState.originalContent := html_to_text html |})
           (setIsUploading true ui))),
   advance 1 st1).
Proof.
  intros Hc He. unfold handleFileUpload, ebind, efinally, etry, lift, update.
  rewrite (parseDocument_ok W _ _ Hc He). reflexivity.
Qed.

Lemma handleFileUpload_returns file ui st :
  exists ui' st' t,
    handleFileUpload W file ui st = (Ok tt, ui', st') /\
    toasts ui' = toasts ui ++ [t] /\ uploadedFile ui' = uploadedFile ui /\
    (forall e, convertToHtml file (conversions st) = inl e -> t = process_failed_toast).
Proof.
  destruct (convertToHtml file (conversions st)) as [e|html] eqn:Hc.
  - rewrite (handleFileUpload_failed file ui st Hc).
    do 3 eexists. split; [reflexivity|]. split; [reflexivity|]. split; [reflexivity|].
    intros; reflexivity.
  - destruct (extractTrackChanges_engine W file (converted st)) as (l & st1 & He & _).
    rewrite (handleFileUpload_loaded file ui st Hc He).
    do 3 eexists. split; [reflexivity|]. split; [reflexivity|]. split; [reflexivity|].
    intros e He'. discriminate He'.
Qed.

End Upload.

(** X20. [handleFileUpload] never raises and leaves [isUploading] false.  When
    the conversion succeeds the page holds the parsed document: its
    content twice (as the current and as the original content), the
    changes with a matching count, no collaboration comment and no
    selection; the notification names the number of changes.  When the
    conversion fails the page keeps the document state it had, and shows
    the message of the parser's error. *)
Theorem handleFileUpload_outcome W file ui st :
  exists ui' st',
    handleFileUpload W file ui st = (Ok tt, ui', st') /\ isUploading ui' = false /\
    match convertToHtml file (conversions st) with
    | inr html =>
        exists ds,
          documentState ui' = Some ds /\
          DocumentState.documentContent ds = html_to_text html /\
          DocumentState.originalContent ds = html_to_text html /\
          changeCount (DocumentState.metadata ds) = length (DocumentState.changes ds) /\
          DocumentState.collaborationComments ds = [] /\
          DocumentState.selectedChangeId ds = None /\
          toasts ui' = toasts ui ++ [loaded_toast (length (DocumentState.changes ds))]
    | inl _ =>
        documentState ui' = documentState ui /\
        toasts ui' = toasts ui ++ [process_failed_toast]
    end.
Proof.
  destruct (convertToHtml file (conversions st)) as [e|html] eqn:Hc.
  - rewrite (handleFileUpload_failed W file ui st Hc).
    do 2 eexists. split; [reflexivity|]. split; [reflexivity|]. split; reflexivity.
  - destruct (extractTrackChanges_engine W file (converted st)) as (l & st1 & He & _).
    rewrite (handleFileUpload_loaded W file ui st Hc He).
    do 2 eexists. split; [reflexivity|]. split; [reflexivity|].
    eexists. split; [reflexivity|]. cbn. auto 10.
Qed.

(** X21. With [handleFileUpload] as its [onFileUpload], the [catch] block of
    [onDrop] is never entered: for a file whose name ends in [.docx] the
    drop zone keeps the file and shows "Document uploaded successfully!"
    behind the notification of [handleFileUpload], also when that
    notification says that the document could not be processed. *)
Theorem upload_reports_success_whatever_the_parser_did W file rest ui st :
  endsWith (name file) (lit ".docx") = true ->
  exists ui' st' t,
    onDrop (handleFileUpload W) (file :: rest) ui st = (Ok tt, ui', st') /\
    uploadedFile ui' = Some file /\
    toasts ui' = toasts ui ++ [t; uploaded_toast] /\
    (forall e, convertToHtml file (conversions st) = inl e -> t = process_failed_toast).
Proof.
  intros Hn. unfold onDrop. rewrite Hn. cbn [negb].
  unfold ebind at 1. unfold update at 1. unfold etry. unfold ebind at 1.
  destruct (handleFileUpload_returns W file (setUploadedFile (Some file) ui) st)
    as (ui1 & st1 & t & -> & Ht & Hf & Hfail).
  exists (show_toast uploaded_toast ui1), st1, t. split; [reflexivity|].
  split; [exact Hf|]. split; [|exact Hfail].
  cbn. rewrite Ht. cbn. rewrite <- app_assoc. reflexivity.
Qed.

Lemma upload_reports_success_whatever_the_parser_did_witness :
  exists ui' st',
    onDrop (handleFileUpload Samples.world) [unconvertible_docx] initial_ui initial
    = (Ok tt, ui', st') /\
    uploadedFile ui' = Some unconvertible_docx /\ documentState ui' = None /\
    toasts ui' = [process_failed_toast; uploaded_toast].
Proof.
  destruct (@upload_reports_success_whatever_the_parser_did
              Samples.world unconvertible_docx [] initial_ui initial eq_refl)
    as (ui' & st' & t & H & Hf & Ht & Hfail).
  exists ui', st'. split; [exact H|]. split; [exact Hf|].
  split.
  - vm_compute in H. injection H as <- _. reflexivity.
  - rewrite Ht, (Hfail _ eq_refl). reflexivity.
Defined.

Lemma endsWith_suffix s suffix : endsWith s suffix = true <-> exists p, s = p ++ suffix.
Proof.
  unfold endsWith. split.
  - destruct (strip_prefix (rev suffix) (rev s)) as [rest|] eqn:E; [|discriminate].
    intros _. apply strip_prefix_app in E. exists (rev rest).
    apply (f_equal (@rev ascii)) in E. rewrite rev_involutive, rev_app_distr, rev_involutive in E.
    exact E.
  - intros [p ->]. rewrite rev_app_distr, strip_prefix_self. reflexivity.
Qed.

(** X22. The drop zone hands a file to the parser only if it is the first of
    the dropped files and its name ends in [.docx], in exactly this
    spelling: whenever a drop changes the state of the parser or the
    document state of the page, the first file has such a name. *)
Theorem only_docx_names_reach_the_parser W acceptedFiles ui st ui' st' r :
  onDrop (handleFileUpload W) acceptedFiles ui st = (r, ui', st') ->
  st' <> st \/ documentState ui' <> documentState ui ->
  exists file rest p, acceptedFiles = file :: rest /\ name file = p ++ lit ".docx".
Proof.
  intros H Hchg. destruct acceptedFiles as [|file rest].
  - injection H as _ <- <-. destruct Hchg as [Hc|Hc]; congruence.
  - unfold onDrop in H. destruct (endsWith (name file) (lit ".docx")) eqn:Hn.
    + apply endsWith_suffix in Hn. destruct Hn as [p Hp]. exists file, rest, p. auto.
    + cbn in H. injection H as _ <- <-. destruct Hchg as [Hc|Hc]; exfalso; apply Hc; reflexivity.
Qed.

Lemma only_docx_names_reach_the_parser_witness :
  exists file rest p,
    [Samples.marked_document] = file :: rest /\ name file = p ++ lit ".docx".
Proof.
  apply (@only_docx_names_reach_the_parser Samples.world [Samples.marked_document]
           initial_ui initial
           (snd (fst (onDrop (handleFileUpload Samples.world) [Samples.marked_document]
                         initial_ui initial)))
           (snd (onDrop (handleFileUpload Samples.world) [Samples.marked_document]
                   initial_ui initial))
           (fst (fst (onDrop (handleFileUpload Samples.world) [Samples.marked_document]
                         initial_ui initial)))).
  - destruct (onDrop (handleFileUpload Samples.world) [Samples.marked_document]
                initial_ui initial) as [[r u] s]. reflexivity.
  - left. vm_compute. discriminate.
Defined.

(** ** Work on a loaded document *)

Lemma change_evolves_refl c : change_evolves c c.
Proof.
  unfold change_evolves. repeat (split; [reflexivity|]).
  split; [exists []; rewrite app_nil_r; reflexivity | auto].
Qed.

Lemma change_evolves_trans a b c :
  change_evolves a b -> change_evolves b c -> change_evolves a c.
Proof.
  unfold change_evolves.
  intros (A1 & A2 & A3 & A4 & A5 & A6 & A7 & A8 & [m1 A9] & A10)
         (B1 & B2 & B3 & B4 & B5 & B6 & B7 & B8 & [m2 B9] & B10).
  repeat (split; [congruence|]).
  split; [exists (m1 ++ m2); rewrite B9, A9, app_assoc; reflexivity | auto].
Qed.

Lemma Forall2_refl_on {A} (R : A -> A -> Prop) (l : list A) :
  (forall a, R a a) -> Forall2 R l l.
Proof. intros H. induction l; constructor; auto. Qed.

Lemma Forall2_trans_on {A} (R : A -> A -> Prop) :
  (forall a b c, R a b -> R b c -> R a c) ->
  forall l1 l2 l3, Forall2 R l1 l2 -> Forall2 R l2 l3 -> Forall2 R l1 l3.
Proof.
  intros HR l1 l2 l3 H12. revert l3.
  induction H12 as [|a b l1 l2 Hab H12 IH]; intros l3 H23; inversion H23; subst;
    constructor; eauto.
Qed.

Lemma Forall2_map_right {A} (R : A -> A -> Prop) (f : A -> A) (l : list A) :
  (forall a, R a (f a)) -> Forall2 R l (map f l).
Proof. intros H. induction l; constructor; auto. Qed.

Lemma evolves_refl ds : evolves ds ds.
Proof.
  unfold evolves. split; [reflexivity|]. split; [reflexivity|].
  split; [apply Forall2_refl_on, change_evolves_refl|].
  exists []. rewrite app_nil_r. reflexivity.
Qed.

Lemma evolves_trans a b c : evolves a b -> evolves b c -> evolves a c.
Proof.
  unfold evolves. intros (A1 & A2 & A3 & [m1 A4]) (B1 & B2 & B3 & [m2 B4]).
  split; [congruence|]. split; [congruence|].
  split; [eapply Forall2_trans_on; [exact change_evolves_trans | exact A3 | exact B3]|].
  exists (m1 ++ m2). rewrite B4, A4, app_assoc. reflexivity.
Qed.

Lemma ui_evolves_refl ui : ui_evolves ui ui.
Proof. unfold ui_evolves. destruct (documentState ui); [apply evolves_refl | exact I]. Qed.

Lemma ui_evolves_trans a b c : ui_evolves a b -> ui_evolves b c -> ui_evolves a c.
Proof.
  unfold ui_evolves.
  destruct (documentState a), (documentState b), (documentState c); try tauto.
  apply evolves_trans.
Qed.

(** An updater of the document state that lets the document evolve lets
    the page evolve. *)
Lemma setDocumentState_evolves f ui :
  (forall ds, evolves ds (f ds)) -> ui_evolves ui (setDocumentState (option_map f) ui).
Proof.
  intros H. unfold ui_evolves. cbn. destruct (documentState ui); cbn; auto.
Qed.

Lemma with_suggestion_evolves s c : change_evolves c (with_suggestion s c).
Proof.
  unfold change_evolves. cbn. repeat (split; [reflexivity|]).
  split; [exists [s]; reflexivity | auto].
Qed.

Lemma as_resolved_evolves c : change_evolves c (as_resolved c).
Proof.
  unfold change_evolves. cbn. repeat (split; [reflexivity|]).
  split; [exists []; rewrite app_nil_r; reflexivity | reflexivity].
Qed.

Lemma map_changes_evolves f ds :
  (forall c, change_evolves c (f c)) -> evolves ds (map_changes f ds).
Proof.
  intros H. unfold evolves. cbn. split; [reflexivity|]. split; [reflexivity|].
  split; [apply Forall2_map_right, H|]. exists []. rewrite app_nil_r. reflexivity.
Qed.

Section Sessions.

Variable W : World.

Lemma steps_update f : (forall ui, ui_evolves ui (f ui)) -> steps (update f).
Proof.
  intros H ui st. exists (f ui), st. unfold update. auto.
Qed.

Lemma steps_eret : steps (eret tt).
Proof. intros ui st. exists ui, st. split; [reflexivity|]. split; [apply ui_evolves_refl | auto]. Qed.

Lemma steps_ebind (m : Eff unit) (k : unit -> Eff unit) :
  steps m -> (forall u, steps (k u)) -> steps (ebind m k).
Proof.
  intros Hm Hk ui st. unfold ebind.
  destruct (Hm ui st) as (ui1 & st1 & -> & E1 & C1 & S1).
  destruct (Hk tt ui1 st1) as (ui2 & st2 & -> & E2 & C2 & S2).
  exists ui2, st2. split; [reflexivity|].
  split; [eapply ui_evolves_trans; eassumption|]. split; congruence.
Qed.

Lemma steps_other_state f :
  (forall ui, documentState (f ui) = documentState ui) -> steps (update f).
Proof.
  intros H. apply steps_update. intros ui. unfold ui_evolves. rewrite H.
  destruct (documentState ui); [apply evolves_refl | exact I].
Qed.

Lemma handleChangeSelect_steps changeId : steps (handleChangeSelect changeId).
Proof.
  apply steps_update. intros ui. apply setDocumentState_evolves. intros ds.
  unfold evolves. cbn. split; [reflexivity|]. split; [reflexivity|].
  split; [apply Forall2_refl_on, change_evolves_refl|].
  exists []. rewrite app_nil_r. reflexivity.
Qed.

Lemma handleContentChange_steps newContent : steps (handleContentChange newContent).
Proof.
  apply steps_update. intros ui. apply setDocumentState_evolves. intros ds.
  unfold evolves. cbn. split; [reflexivity|]. split; [reflexivity|].
  split; [apply Forall2_refl_on, change_evolves_refl|].
  exists []. rewrite app_nil_r. reflexivity.
Qed.

Lemma handleSuggestionAdd_steps changeId suggestion :
  steps (handleSuggestionAdd changeId suggestion).
Proof.
  apply steps_update. intros ui. apply setDocumentState_evolves. intros ds.
  apply map_changes_evolves. intros c.
  destruct (jsstring_eqb (id c) changeId);
    [apply with_suggestion_evolves | apply change_evolves_refl].
Qed.

Lemma handleChangeResolve_steps changeId : steps (handleChangeResolve changeId).
Proof.
  apply steps_update. intros ui. apply setDocumentState_evolves. intros ds.
  apply map_changes_evolves. intros c.
  destruct (jsstring_eqb (id c) changeId);
    [apply as_resolved_evolves | apply change_evolves_refl].
Qed.

Lemma handleCommentAdd_steps changeId comment : steps (handleCommentAdd W changeId comment).
Proof.
  intros ui st. unfold handleCommentAdd, ebind, lift, new_Date, bind, Date_now, ret, update.
  do 2 eexists. split; [reflexivity|]. split; [|split; reflexivity].
  apply setDocumentState_evolves. intros ds.
  unfold evolves. cbn. split; [reflexivity|]. split; [reflexivity|].
  split; [apply Forall2_refl_on, change_evolves_refl|].
  eexists. reflexivity.
Qed.

Lemma handleSuggestionSubmit_steps changeId :
  steps (handleSuggestionSubmit handleSuggestionAdd changeId).
Proof.
  intros ui st. unfold handleSuggestionSubmit. unfold ebind at 1. unfold read.
  destruct (trim (newSuggestion ui)).
  - apply steps_eret.
  - apply steps_ebind; [apply handleSuggestionAdd_steps | intros _].
    apply steps_ebind; [|intros _]; apply steps_other_state; reflexivity.
Qed.

Lemma handleCommentSubmit_steps changeId :
  steps (handleCommentSubmit (handleCommentAdd W) changeId).
Proof.
  intros ui st. unfold handleCommentSubmit. unfold ebind at 1. unfold read.
  destruct (trim (newComment ui)).
  - apply steps_eret.
  - apply steps_ebind; [apply handleCommentAdd_steps | intros _].
    apply steps_ebind; [|intros _]; apply steps_other_state; reflexivity.
Qed.

Lemma perform_steps a : steps (perform W a).
Proof.
  destruct a; cbn [perform].
  - apply handleChangeSelect_steps.
  - apply steps_other_state. reflexivity.
  - apply steps_other_state. reflexivity.
  - apply handleSuggestionSubmit_steps.
  - apply handleCommentSubmit_steps.
  - apply handleChangeResolve_steps.
  - apply handleContentChange_steps.
  - apply steps_other_state. reflexivity.
  - apply steps_other_state. reflexivity.
  - apply steps_ebind; [|intros _]; apply steps_other_state; reflexivity.
Qed.

Lemma session_steps l : steps (session W l).
Proof.
  induction l as [|a l IH]; cbn [session].
  - apply steps_eret.
  - apply steps_ebind; [apply perform_steps | intros _; exact IH].
Qed.

End Sessions.

(** X23. Whatever the user does on a loaded document, the handlers
    complete and leave what the parser extracted as it was: the metadata,
    the original content, and the identifier, type, text, original text,
    author, time, location and comment of every change, in the same order.
    Suggestions and collaboration comments are only ever added, a resolved
    change stays resolved, and the parser is not called. *)
Theorem session_keeps_the_extraction W l ui st :
  exists ui' st',
    session W l ui st = (Ok tt, ui', st') /\ ui_evolves ui ui' /\
    conversions st' = conversions st.
Proof.
  destruct (session_steps W l ui st) as (ui' & st' & H & E & C & _).
  exists ui', st'. auto.
Qed.

Lemma pending_evolves l l' :
  Forall2 change_evolves l l' -> length l' = length l /\ pending l' <= pending l.
Proof.
  unfold pending. induction 1 as [|c c' l l' Hc HF [IH1 IH2]]; [split; reflexivity|].
  cbn [length filter]. split; [congruence|].
  destruct Hc as (_ & _ & _ & _ & _ & _ & _ & _ & _ & Hr).
  destruct (unresolved c) eqn:Ec; destruct (unresolved c') eqn:Ec'; cbn [length];
    first [lia | specialize (Hr eq_refl); congruence].
Qed.

(** X24. On a loaded document the number of changes never changes and the
    number of pending changes never grows, whatever the user does. *)
Theorem pending_never_grows W l ui st ds :
  documentState ui = Some ds ->
  exists ds',
    documentState (page_after (session W l ui st)) = Some ds' /\
    length (DocumentState.changes ds') = length (DocumentState.changes ds) /\
    pending (DocumentState.changes ds') <= pending (DocumentState.changes ds).
Proof.
  intros Hds. destruct (session_steps W l ui st) as (ui' & st' & -> & E & _).
  unfold page_after. cbn [fst snd]. unfold ui_evolves in E. rewrite Hds in E.
  destruct (documentState ui') as [ds'|]; [|contradiction].
  exists ds'. split; [reflexivity|]. destruct E as (_ & _ & F & _).
  apply pending_evolves, F.
Qed.

Lemma pending_never_grows_witness :
  exists ds ds',
    documentState loaded_ui = Some ds /\
    documentState (page_after (session Samples.world
                                 [Select (lit "x"); TypeSuggestion (lit "or else");
                                  SubmitSuggestion (lit "x"); Resolve (lit "x")]
                                 loaded_ui initial)) = Some ds' /\
    pending (DocumentState.changes ds') <= pending (DocumentState.changes ds).
Proof.
  eexists.
  assert (H : documentState loaded_ui = Some _) by (vm_compute; reflexivity).
  destruct (@pending_never_grows Samples.world
              [Select (lit "x"); TypeSuggestion (lit "or else");
               SubmitSuggestion (lit "x"); Resolve (lit "x")] loaded_ui initial _ H)
    as (ds' & H1 & _ & H2).
  exists ds'. split; [exact H|]. split; [exact H1 | exact H2].
Defined.

(** X25. A document that was uploaded and worked on stays consistent with what
    the parser returned: the count in its metadata is the number of its
    changes, and its original content is the plain text of the conversion,
    whatever was edited. *)
Theorem loaded_document_stays_consistent W file l ui st html :
  convertToHtml file (conversions st) = inr html ->
  exists ds,
    documentState (page_after (ebind (handleFileUpload W file) (fun _ => session W l) ui st))
    = Some ds /\
    changeCount (DocumentState.metadata ds) = length (DocumentState.changes ds) /\
    DocumentState.originalContent ds = html_to_text html.
Proof.
  intros Hc. unfold ebind, page_after.
  destruct (extractTrackChanges_engine W file (converted st)) as (l0 & st1 & He & _).
  rewrite (handleFileUpload_loaded W file ui st Hc He).
  match goal with
  | |- context [session W l ?u ?s] =>
      destruct (session_steps W l u s) as (ui' & st' & -> & E & _)
  end.
  cbn [fst snd]. unfold ui_evolves in E. cbn in E.
  destruct (documentState ui') as [ds|]; [|contradiction].
  exists ds. split; [reflexivity|]. destruct E as (Em & Eo & F & _).
  rewrite Em, Eo. cbn. split; [|reflexivity].
  destruct (pending_evolves F) as [Hl _]. rewrite Hl. reflexivity.
Qed.

Lemma loaded_document_stays_consistent_witness :
  exists ds,
    documentState
      (page_after (ebind (handleFileUpload Samples.world Samples.marked_document)
                         (fun _ => session Samples.world [Edit (lit "rewritten")])
                         initial_ui initial)) = Some ds /\
    changeCount (DocumentState.metadata ds) = length (DocumentState.changes ds) /\
    DocumentState.originalContent ds = lit "new fee".
Proof.
  apply (@loaded_document_stays_consistent Samples.world Samples.marked_document
           [Edit (lit "rewritten")] initial_ui initial (lit "<p>new fee</p>")).
  reflexivity.
Defined.

Lemma setDocumentState_twice f g ui :
  setDocumentState f (setDocumentState g ui) = setDocumentState (fun x => f (g x)) ui.
Proof. reflexivity. Qed.

Lemma setDocumentState_ext f g ui :
  (forall x, f x = g x) -> setDocumentState f ui = setDocumentState g ui.
Proof. intros H. unfold setDocumentState. rewrite H. reflexivity. Qed.

Lemma map_changes_twice f g ds :
  map_changes f (map_changes g ds) = map_changes (fun c => f (g c)) ds.
Proof. unfold map_changes. cbn. rewrite map_map. reflexivity. Qed.

Lemma map_changes_ext f g ds :
  (forall c, f c = g c) -> map_changes f ds = map_changes g ds.
Proof. intros H. unfold map_changes. rewrite (map_ext _ _ H). reflexivity. Qed.

(** X26. Resolving a change twice is resolving it once, and the order in which
    two changes are resolved does not matter. *)
Theorem resolving_is_idempotent_and_commutes changeId other ui st :
  ebind (handleChangeResolve changeId) (fun _ => handleChangeResolve changeId) ui st
  = handleChangeResolve changeId ui st /\
  ebind (handleChangeResolve changeId) (fun _ => handleChangeResolve other) ui st
  = ebind (handleChangeResolve other) (fun _ => handleChangeResolve changeId) ui st.
Proof.
  unfold handleChangeResolve, ebind, update. rewrite !setDocumentState_twice.
  split; f_equal; f_equal; apply setDocumentState_ext; intros [ds|]; try reflexivity;
    cbn [option_map]; f_equal; rewrite !map_changes_twice; apply map_changes_ext; intros c.
  - destruct (jsstring_eqb (id c) changeId) eqn:E; cbn; rewrite E; reflexivity.
  - destruct (jsstring_eqb (id c) changeId) eqn:E; destruct (jsstring_eqb (id c) other) eqn:E';
      cbn; rewrite ?E, ?E'; reflexivity.
Qed.

(** ** Invariants of the page *)

Lemma keeps_update (I : UI -> Prop) f : (forall ui, I ui -> I (f ui)) -> keeps I (update f).
Proof. intros H ui st Hi. apply H, Hi. Qed.

Lemma keeps_eret (I : UI -> Prop) : keeps I (eret tt).
Proof. intros ui st Hi. exact Hi. Qed.

Lemma keeps_ebind {A} (I : UI -> Prop) (m : Eff A) (k : A -> Eff unit) :
  (forall ui st, I ui -> I (snd (fst (m ui st)))) -> (forall a, keeps I (k a)) ->
  keeps I (ebind m k).
Proof.
  intros Hm Hk ui st Hi. unfold ebind. specialize (Hm ui st Hi).
  destruct (m ui st) as [[[a|e] ui1] st1]; cbn in *; [apply Hk, Hm | exact Hm].
Qed.

Lemma keeps_lift {A} (I : UI -> Prop) (m : M A) ui st : I ui -> I (snd (fst (lift m ui st))).
Proof. intros Hi. unfold lift. destruct (m st). exact Hi. Qed.

Lemma keeps_read (I : UI -> Prop) (k : UI -> Eff unit) :
  (forall u, keeps I (k u)) -> keeps I (ebind read k).
Proof. intros Hk ui st Hi. unfold ebind, read. apply Hk, Hi. Qed.

Lemma keeps_session W (I : UI -> Prop) :
  (forall a, keeps I (perform W a)) -> forall l, keeps I (session W l).
Proof.
  intros H. induction l as [|a l IH]; cbn [session].
  - apply keeps_eret.
  - apply keeps_ebind; [apply H | intros _; exact IH].
Qed.

Lemma trim_cons_not_blank s c t : trim s = c :: t -> blank s = false.
Proof.
  intros H. destruct (blank s) eqn:E; [|reflexivity].
  apply trim_blank in E. congruence.
Qed.

Section Invariants.

Variable W : World.

Lemma zoom_keeps_document f :
  (forall ui, zoom (f ui) = zoom ui) -> keeps (fun ui => zoom_in_range (zoom ui)) (update f).
Proof. intros H. apply keeps_update. intros ui. rewrite H. auto. Qed.

Lemma perform_keeps_zoom a : keeps (fun ui => zoom_in_range (zoom ui)) (perform W a).
Proof.
  destruct a; cbn [perform].
  - apply zoom_keeps_document. reflexivity.
  - apply zoom_keeps_document. reflexivity.
  - apply zoom_keeps_document. reflexivity.
  - apply keeps_read. intros u. destruct (trim (newSuggestion u)); [apply keeps_eret|].
    apply keeps_ebind; [apply zoom_keeps_document; reflexivity | intros _].
    apply keeps_ebind; [|intros _]; apply zoom_keeps_document; reflexivity.
  - apply keeps_read. intros u. destruct (trim (newComment u)); [apply keeps_eret|].
    apply keeps_ebind; [|intros _].
    + intros ui st Hi. unfold handleCommentAdd, ebind, lift, new_Date, bind, Date_now, ret,
        update. cbn. exact Hi.
    + apply keeps_ebind; [|intros _]; apply zoom_keeps_document; reflexivity.
  - apply zoom_keeps_document. reflexivity.
  - apply zoom_keeps_document. reflexivity.
  - apply keeps_update. intros ui [[Hlo Hhi] [k Hk]]. cbn. split; [lia|].
    destruct (Z.min_spec (zoom ui + 10) 200) as [[_ ->]|[_ ->]];
      [exists (k + 1)%Z | exists 20%Z]; lia.
  - apply keeps_update. intros ui [[Hlo Hhi] [k Hk]]. cbn. split; [lia|].
    destruct (Z.max_spec (zoom ui - 10) 50) as [[_ ->]|[_ ->]];
      [exists 5%Z | exists (k - 1)%Z]; lia.
  - apply keeps_ebind; [|intros _].
    + apply (keeps_update (fun ui => zoom_in_range (zoom ui))).
      intros ui _. cbn. split; [lia | exists 10%Z; lia].
    + apply zoom_keeps_document. reflexivity.
Qed.

Lemma no_blank_other_state f :
  (forall ui, documentState (f ui) = documentState ui) -> keeps no_blank_text (update f).
Proof. intros H. apply keeps_update. intros ui. unfold no_blank_text. rewrite H. auto. Qed.

Lemma handleSuggestionAdd_no_blank changeId suggestion :
  blank suggestion = false -> keeps no_blank_text (handleSuggestionAdd changeId suggestion).
Proof.
  intros Hs. apply keeps_update. intros ui. unfold no_blank_text. cbn.
  destruct (documentState ui) as [ds|]; cbn; [|auto].
  intros [Hc Hm]. split; [|exact Hm].
  apply Forall_map. eapply Forall_impl; [|exact Hc]. intros c Hsug.
  destruct (jsstring_eqb (id c) changeId); [|exact Hsug].
  cbn. apply Forall_app. split; [exact Hsug | constructor; [exact Hs | constructor]].
Qed.

Lemma handleCommentAdd_no_blank changeId comment :
  blank comment = false -> keeps no_blank_text (handleCommentAdd W changeId comment).
Proof.
  intros Hs ui st. unfold handleCommentAdd, ebind, lift, new_Date, bind, Date_now, ret, update.
  cbn. unfold no_blank_text. cbn.
  destruct (documentState ui) as [ds|]; cbn; [|auto].
  intros [Hc Hm]. split; [exact Hc|].
  apply Forall_app. split; [exact Hm | constructor; [exact Hs | constructor]].
Qed.

Lemma perform_keeps_no_blank a : keeps no_blank_text (perform W a).
Proof.
  destruct a; cbn [perform]; try (apply no_blank_other_state; reflexivity).
  - apply keeps_update. intros ui. unfold no_blank_text. cbn.
    destruct (documentState ui); cbn; auto.
  - apply keeps_read. intros u. destruct (trim (newSuggestion u)) eqn:E; [apply keeps_eret|].
    apply keeps_ebind;
      [apply handleSuggestionAdd_no_blank; eapply trim_cons_not_blank; exact E | intros _].
    apply keeps_ebind; [|intros _]; apply no_blank_other_state; reflexivity.
  - apply keeps_read. intros u. destruct (trim (newComment u)) eqn:E; [apply keeps_eret|].
    apply keeps_ebind;
      [apply handleCommentAdd_no_blank; eapply trim_cons_not_blank; exact E | intros _].
    apply keeps_ebind; [|intros _]; apply no_blank_other_state; reflexivity.
  - apply keeps_update. intros ui. unfold no_blank_text. cbn.
    destruct (documentState ui) as [ds|]; cbn; [|auto].
    intros [Hc Hm]. split; [|exact Hm].
    apply Forall_map. eapply Forall_impl; [|exact Hc]. intros c Hsug.
    destruct (jsstring_eqb (id c) changeId); exact Hsug.
  - apply keeps_update. intros ui. unfold no_blank_text. cbn.
    destruct (documentState ui); cbn; auto.
Qed.

End Invariants.

(** X27. The zoom of the viewer stays a multiple of ten between 50 and 200 per
    cent, whatever the user does. *)
Theorem zoom_stays_in_range W l ui st :
  zoom_in_range (zoom ui) -> zoom_in_range (zoom (page_after (session W l ui st))).
Proof. apply (@keeps_session W _ (perform_keeps_zoom W)). Qed.

Lemma zoom_stays_in_range_witness :
  zoom_in_range (zoom initial_ui) /\
  zoom_in_range (zoom (page_after (session Samples.world [ZoomOut; ZoomIn; ZoomIn]
                                           initial_ui initial))).
Proof.
  assert (H : zoom_in_range (zoom initial_ui))
    by (split; [cbn; lia | exists 10%Z; reflexivity]).
  split; [exact H|].
  apply (@zoom_stays_in_range Samples.world [ZoomOut; ZoomIn; ZoomIn] initial_ui initial H).
Defined.

(** X28. The panel stores no text that is white space only: if no suggestion
    and no collaboration comment of the document is blank, that is still so
    after anything the user does (a submit with a blank input stores
    nothing). *)
Theorem session_stores_no_blank_text W l ui st :
  no_blank_text ui -> no_blank_text (page_after (session W l ui st)).
Proof. apply (@keeps_session W _ (perform_keeps_no_blank W)). Qed.

Lemma session_stores_no_blank_text_witness :
  no_blank_text loaded_ui /\
  no_blank_text (page_after (session Samples.world
                               [TypeSuggestion (lit "  "); SubmitSuggestion (lit "x")]
                               loaded_ui initial)).
Proof.
  assert (H : no_blank_text loaded_ui).
  { vm_compute. split; repeat constructor. }
  split; [exact H|].
  apply (@session_stores_no_blank_text Samples.world
           [TypeSuggestion (lit "  "); SubmitSuggestion (lit "x")] loaded_ui initial H).
Defined.

(** X29. A collaboration comment is filed under the change it was written for:
    after [handleCommentAdd] the comments [getCommentsForChange] finds for
    that change are those it found before and the new one, by "Contract
    Manager" and with the content as given; for any other change they are
    as before. *)
Theorem comment_is_filed_under_its_change W changeId comment ui st ds :
  documentState ui = Some ds ->
  exists ds' c,
    documentState (page_after (handleCommentAdd W changeId comment ui st)) = Some ds' /\
    CollaborationComment.content c = comment /\
    CollaborationComment.author c = lit "Contract Manager" /\
    forall other,
      getCommentsForChange (DocumentState.collaborationComments ds') other
      = getCommentsForChange (DocumentState.collaborationComments ds) other
        ++ (if jsstring_eqb changeId other then [c] else []).
Proof.
  intros Hds. unfold handleCommentAdd, ebind, lift, new_Date, bind, Date_now, ret, update,
    page_after. cbn. rewrite Hds. cbn.
  eexists.
  exists {| CollaborationComment.id :=
              lit "comment-" ++ string_of_Z (clock W (clock_reads st));
            CollaborationComment.changeId := changeId;
            CollaborationComment.author := lit "Contract Manager";
            CollaborationComment.content := comment;
            CollaborationComment.timestamp := TimeValue (clock W (S (clock_reads st)));
            CollaborationComment.resolved := None |}.
  split; [reflexivity|]. split; [reflexivity|]. split; [reflexivity|].
  intros other. unfold getCommentsForChange. cbn. rewrite filter_app. cbn.
  destruct (jsstring_eqb changeId other); reflexivity.
Qed.

Lemma comment_is_filed_under_its_change_witness :
  exists ds ds' c,
    documentState loaded_ui = Some ds /\
    documentState (page_after (handleCommentAdd Samples.world (lit "x") (lit "agreed")
                                                loaded_ui initial)) = Some ds' /\
    CollaborationComment.content c = lit "agreed" /\
    getCommentsForChange (DocumentState.collaborationComments ds') (lit "x")
    = getCommentsForChange (DocumentState.collaborationComments ds) (lit "x") ++ [c].
Proof.
  eexists.
  assert (H : documentState loaded_ui = Some _) by (vm_compute; reflexivity).
  destruct (@comment_is_filed_under_its_change Samples.world (lit "x") (lit "agreed")
              loaded_ui initial _ H) as (ds' & c & H1 & H2 & _ & H3).
  exists ds', c. split; [exact H|]. split; [exact H1|]. split; [exact H2|].
  exact (H3 (lit "x")).
Defined.
